(** * postgres-meta, Dart template: type resolution and mapping engine

    A shallow embedding of the Dart generator template of postgres-meta.
    The repository holds two revisions of the template:

    - [src/server/templates/dart.ts]  (module [DartTs] below), and
    - [src/unnamed/part_000]          (module [Part000] below).

    The two have [formatForDartClassName], [sortTypesByDependency] and
    [getRequiredTypes] in common, which come first.  They differ in the
    JSON encoding and decoding expressions of the [DartType] classes, in
    the enum constructor, in the way a row class derives the insert
    variant of a column type, and in the JSON-schema builder, which only
    [part_000] has: each module holds the classes and the mapper of its
    revision.  The definitions are followed by the vocabulary of the
    properties, and by the lemmas and theorems.

    Conventions of the embedding

    - a JavaScript string is a [string]; each character stands for one
      UTF-16 code unit (so the code units modelled are those below 256);
    - a JavaScript number used as a type id is a [Z];
    - a function that can throw returns an [outcome];
    - a [Map] and a [Set] are lists in insertion order, an object used as
      a dictionary is a list of its own properties in enumeration order;
    - [console.log] appends a line to an explicit list of lines. *)

From Stdlib Require Import ZArith List String Ascii Bool Lia Permutation Arith.
From Stdlib Require Import DecimalString Relations.

Set Warnings "-register-all".
Import ListNotations.
Open Scope string_scope.
Open Scope Z_scope.

(** ** Outcomes *)

Inductive exn : Type :=
| TypeError (msg : string)
| SyntaxError (msg : string)
| Error (msg : string).

(** [OutOfFuel] is an artefact of the embedding of the two recursive
    graph walks; the theorems below show that it never is the outcome of
    [sortTypesByDependency] or [getRequiredTypes]. *)
Inductive outcome (A : Type) : Type :=
| Ok (a : A)
| Throw (e : exn)
| OutOfFuel.

Arguments Ok {A} a.
Arguments Throw {A} e.
Arguments OutOfFuel {A}.

Definition bind {A B : Type} (m : outcome A) (k : A -> outcome B) : outcome B :=
  match m with
  | Ok a => k a
  | Throw e => Throw e
  | OutOfFuel => OutOfFuel
  end.

Notation "'let*' x ':=' m 'in' k" := (bind m (fun x => k))
  (at level 10, x pattern, m at level 100, k at level 200).

(** [Array.prototype.map] with a callback that may throw. *)
Fixpoint mapM {A B : Type} (f : A -> outcome B) (l : list A) : outcome (list B) :=
  match l with
  | [] => Ok []
  | x :: xs =>
      let* y := f x in
      let* ys := mapM f xs in
      Ok (y :: ys)
  end.

(** A [for (const x of xs) body(x)] loop over a mutable state. *)
Fixpoint forEachM {A S : Type} (body : A -> S -> outcome S) (xs : list A) (s : S)
  : outcome S :=
  match xs with
  | [] => Ok s
  | x :: rest =>
      let* s' := body x s in
      forEachM body rest s'
  end.

(** ** Strings *)

(** [s.startsWith('_')] *)
Definition startsWithUnderscore (s : string) : bool :=
  match s with
  | String c _ => Ascii.eqb c "_"%char
  | EmptyString => false
  end.

(** [s.slice(1)] *)
Definition slice1 (s : string) : string :=
  match s with
  | String _ rest => rest
  | EmptyString => EmptyString
  end.

(** [s.startsWith(prefix)] *)
Definition startsWith (prefix s : string) : bool := String.prefix prefix s.

(** [s.lastIndexOf(c)] for a text [c] of one character: the index of
    its last occurrence, [-1] when there is none. *)
Fixpoint lastIndexOf (c : ascii) (s : string) : Z :=
  match s with
  | EmptyString => -1
  | String x rest =>
      let i := lastIndexOf c rest in
      if 0 <=? i then i + 1 else if Ascii.eqb x c then 0 else -1
  end.

(** [s.substring(indexStart, indexEnd)]: the two indices are clamped to
    the length of the text, and swapped when the first is the greater. *)
Definition substring (s : string) (indexStart indexEnd : Z) : string :=
  let len := Z.of_nat (String.length s) in
  let a := Z.min (Z.max indexStart 0) len in
  let b := Z.min (Z.max indexEnd 0) len in
  String.substring (Z.to_nat (Z.min a b)) (Z.to_nat (Z.max a b - Z.min a b)) s.

(** [Array.prototype.join] *)
Fixpoint join (sep : string) (l : list string) : string :=
  match l with
  | [] => EmptyString
  | [x] => x
  | x :: rest => x ++ sep ++ join sep rest
  end.

(** Membership in the character class [[a-zA-Z0-9]]. *)
Definition isAlnum (c : ascii) : bool :=
  let n := nat_of_ascii c in
  ((48 <=? n) && (n <=? 57) || (65 <=? n) && (n <=? 90)
   || (97 <=? n) && (n <=? 122))%nat.

(** [name.split(/[^a-zA-Z0-9]/)]: every character outside the class is a
    separator; the pieces between separators are kept, the empty ones
    too, and the empty string splits into one empty piece. *)
Fixpoint splitNonAlnum (s : string) : list string :=
  match s with
  | EmptyString => [EmptyString]
  | String c rest =>
      if isAlnum c then
        match splitNonAlnum rest with
        | w :: ws => String c w :: ws
        | [] => [String c EmptyString]
        end
      else EmptyString :: splitNonAlnum rest
  end.

(** [toUpperCase] and [toLowerCase] of one code unit.  The template only
    applies them to the first character of a piece of [splitNonAlnum],
    which is a letter or a digit. *)
Definition toUpperCase (c : ascii) : ascii :=
  let n := nat_of_ascii c in
  if ((97 <=? n) && (n <=? 122))%nat then ascii_of_nat (n - 32) else c.

Definition toLowerCase (c : ascii) : ascii :=
  let n := nat_of_ascii c in
  if ((65 <=? n) && (n <=? 90))%nat then ascii_of_nat (n + 32) else c.

Definition undefinedToUpperCase : exn :=
  TypeError "Cannot read properties of undefined (reading 'toUpperCase')".

(** [`${word[0].toUpperCase()}${word.slice(1)}`]; [word[0]] of the empty
    string is [undefined], and calling a method on it throws. *)
Definition capitalizeWord (word : string) : outcome string :=
  match word with
  | EmptyString => Throw undefinedToUpperCase
  | String c rest => Ok (String (toUpperCase c) rest)
  end.

Definition formatForDartClassName (name : string) : outcome string :=
  let* words := mapM capitalizeWord (splitNonAlnum name) in
  Ok (join EmptyString words).

Definition formatForDartPropertyName (name : string) : outcome string :=
  let* className := formatForDartClassName name in
  match className with
  | EmptyString =>
      Throw (TypeError "Cannot read properties of undefined (reading 'toLowerCase')")
  | String c rest => Ok (String (toLowerCase c) rest)
  end.

(** ** Catalog records *)

Record PostgresAttribute : Type := {
  attr_name : string;
  type_id : Z
}.

Record PostgresType : Type := {
  id : Z;
  name : string;
  attributes : list PostgresAttribute;
  enums : list string;
  comment : option string
}.

Record PostgresColumn : Type := {
  col_name : string;
  format : string;
  data_type : string;
  is_nullable : bool;
  is_generated : bool;
  is_identity : bool;
  default_value : option string;
  check : option string
}.

(** ** [Map] and [Set] in insertion order *)

Section JsMap.
Context {K V : Type} (eqb : K -> K -> bool).

Fixpoint Map_get (m : list (K * V)) (k : K) : option V :=
  match m with
  | [] => None
  | (k', v) :: rest => if eqb k k' then Some v else Map_get rest k
  end.

(** [m.set(k, v)]: a key already present keeps its place. *)
Fixpoint Map_set (m : list (K * V)) (k : K) (v : V) : list (K * V) :=
  match m with
  | [] => [(k, v)]
  | (k', v') :: rest =>
      if eqb k k' then (k, v) :: rest else (k', v') :: Map_set rest k v
  end.

Definition Map_keys (m : list (K * V)) : list K := map fst m.
End JsMap.

Definition Set_has (s : list Z) (x : Z) : bool := existsb (Z.eqb x) s.

Definition Set_add (s : list Z) (x : Z) : list Z :=
  if Set_has s x then s else s ++ [x].

(** [new Set(xs)] *)
Definition Set_of (xs : list Z) : list Z := fold_left Set_add xs [].

(** ** sortTypesByDependency *)

Record TypeNode : Type := {
  type : PostgresType;
  dependencies : list Z;
  visited : bool;
  inStack : bool
}.

Definition newTypeNode (t : PostgresType) : TypeNode :=
  {| type := t;
     dependencies :=
       Set_of (filter (fun i => negb (i =? id t)) (map type_id (attributes t)));
     visited := false;
     inStack := false |}.

(** The first loop of [sortTypesByDependency]. *)
Definition initTypeMap (types : list PostgresType) : list (Z * TypeNode) :=
  fold_left (fun m t => Map_set Z.eqb m (id t) (newTypeNode t)) types [].

(** The two variables the closure [dfs] works on. *)
Record SortState : Type := {
  typeMap : list (Z * TypeNode);
  sorted : list PostgresType
}.

Definition setInStack (b : bool) (n : TypeNode) : TypeNode :=
  {| type := type n; dependencies := dependencies n;
     visited := visited n; inStack := b |}.

Definition setVisited (b : bool) (n : TypeNode) : TypeNode :=
  {| type := type n; dependencies := dependencies n;
     visited := b; inStack := inStack n |}.

(** A field assignment on the node object the map holds under [k]. *)
Fixpoint updateNode (f : TypeNode -> TypeNode) (m : list (Z * TypeNode)) (k : Z)
  : list (Z * TypeNode) :=
  match m with
  | [] => []
  | (k', n) :: rest =>
      if k =? k' then (k', f n) :: rest else (k', n) :: updateNode f rest k
  end.

Definition circularDependency (n : TypeNode) : exn :=
  Error ("Circular dependency detected involving type " ++ name (type n)).

Fixpoint dfs (fuel : nat) (nodeId : Z) (st : SortState) : outcome SortState :=
  match fuel with
  | O => OutOfFuel
  | S fuel' =>
      match Map_get Z.eqb (typeMap st) nodeId with
      | None => Ok st
      | Some node =>
          if inStack node then Throw (circularDependency node)
          else if visited node then Ok st
          else
            let st1 := {| typeMap := updateNode (setInStack true) (typeMap st) nodeId;
                          sorted := sorted st |} in
            let* st2 := forEachM (dfs fuel') (dependencies node) st1 in
            let tm := updateNode (setVisited true) (typeMap st2) nodeId in
            let tm := updateNode (setInStack false) tm nodeId in
            Ok {| typeMap := tm; sorted := sorted st2 ++ [type node] |}
      end
  end.

(** The loop over [typeMap.keys()]. *)
Definition visitKey (fuel : nat) (nodeId : Z) (st : SortState) : outcome SortState :=
  match Map_get Z.eqb (typeMap st) nodeId with
  | None => Throw (TypeError "Cannot read properties of undefined (reading 'visited')")
  | Some node => if visited node then Ok st else dfs fuel nodeId st
  end.

(** The comparator of the final [sort]. *)
Definition arraysLast (a b : PostgresType) : Z :=
  if startsWithUnderscore (name a) then 1
  else if startsWithUnderscore (name b) then -1
  else 0.

(** [Array.prototype.sort(compare)], which ECMAScript requires to be
    stable, as an insertion sort: each element is inserted into the
    sorted prefix, before the first element it compares smaller than.
    The comparator of the template answers [1] for two array-marked
    names in either order, where ECMAScript leaves the order to the
    implementation; the runs, the binary insertion and the merges of
    V8's sort give on it the list this insertion sort gives. *)
Fixpoint insertSorted {A : Type} (compare : A -> A -> Z) (x : A) (l : list A) : list A :=
  match l with
  | [] => [x]
  | y :: rest =>
      if compare x y <? 0 then x :: y :: rest
      else y :: insertSorted compare x rest
  end.

Definition Array_sort {A : Type} (compare : A -> A -> Z) (l : list A) : list A :=
  fold_left (fun acc x => insertSorted compare x acc) l [].

Definition sortTypesByDependency (types : list PostgresType)
  : outcome (list PostgresType) :=
  let tm := initTypeMap types in
  let fuel := S (List.length tm) in
  let* st := forEachM (visitKey fuel) (Map_keys tm)
                      {| typeMap := tm; sorted := [] |} in
  Ok (Array_sort arraysLast (sorted st)).

(** ** getRequiredTypes *)

(** One value per [console.log] call site, holding what the line
    interpolates. *)
Inductive logLine : Type :=
| TypeNotFoundForColumn (column : PostgresColumn)
| InvalidEnumComment (enumName comment : string)
| NoMatchingType (postgresType : PostgresType)
| NoNameProvided (schemaText : string).

Definition typesById (allTypes : list PostgresType) : list (Z * PostgresType) :=
  fold_left (fun m t => Map_set Z.eqb m (id t) t) allTypes [].

Definition typesByName (allTypes : list PostgresType) : list (string * PostgresType) :=
  fold_left (fun m t => Map_set String.eqb m (name t) t) allTypes [].

(** The body of the loop over the columns: the variables it writes are
    [directTypeIds] and the console. *)
Definition addDirectTypes (byName : list (string * PostgresType))
    (column : PostgresColumn) (acc : list Z * list logLine) : list Z * list logLine :=
  let '(directTypeIds, console) := acc in
  let '(directTypeIds, console) :=
    match Map_get String.eqb byName (format column) with
    | Some t => (Set_add directTypeIds (id t), console)
    | None => (directTypeIds, (console ++ [TypeNotFoundForColumn column])%list)
    end in
  let nonArrayType :=
    if startsWithUnderscore (format column)
    then Map_get String.eqb byName (slice1 (format column))
    else None in
  match nonArrayType with
  | Some t => (Set_add directTypeIds (id t), console)
  | None => (directTypeIds, console)
  end.

Definition directTypes (byName : list (string * PostgresType))
    (columns : list PostgresColumn) : list Z * list logLine :=
  fold_left (fun acc c => addDirectTypes byName c acc) columns ([], []).

Section CollectDependencies.
Variable byId : list (Z * PostgresType).
Variable byName : list (string * PostgresType).

(** The closure [collectDependencies]; its state is the set
    [allRequiredTypeIds]. *)
Fixpoint collectDependencies (fuel : nat) (typeId : Z) (allRequiredTypeIds : list Z)
  : outcome (list Z) :=
  match fuel with
  | O => OutOfFuel
  | S fuel' =>
      if Set_has allRequiredTypeIds typeId then Ok allRequiredTypeIds
      else
        match Map_get Z.eqb byId typeId with
        | None => Ok allRequiredTypeIds
        | Some t =>
            let req := Set_add allRequiredTypeIds typeId in
            let* req := forEachM (collectDependencies fuel')
                                 (map type_id (attributes t)) req in
            if startsWithUnderscore (name t) then
              match Map_get String.eqb byName (slice1 (name t)) with
              | Some nonArrayType => collectDependencies fuel' (id nonArrayType) req
              | None => Ok req
              end
            else Ok req
        end
  end.

(** [typesById.get(id)!]: were the id absent, the sorter would read a
    field of [undefined]. *)
Definition getById (i : Z) : outcome PostgresType :=
  match Map_get Z.eqb byId i with
  | Some t => Ok t
  | None => Throw (TypeError "Cannot read properties of undefined (reading 'id')")
  end.

(** The list handed to [sortTypesByDependency]. *)
Definition requiredTypes (directTypeIds : list Z) : outcome (list PostgresType) :=
  let* allRequiredTypeIds :=
    forEachM (collectDependencies (S (List.length byId))) directTypeIds [] in
  mapM getById allRequiredTypeIds.
End CollectDependencies.

(** The result is the console output paired with what the call returns
    or throws. *)
Definition getRequiredTypes (allTypes : list PostgresType) (columns : list PostgresColumn)
  : list logLine * outcome (list PostgresType) :=
  let byId := typesById allTypes in
  let byName := typesByName allTypes in
  let '(directTypeIds, console) := directTypes byName columns in
  (console,
   let* required := requiredTypes byId byName directTypeIds in
   sortTypesByDependency required).

(** ** Effects: a mutable state and exceptions

    As in JavaScript, what a call wrote before it threw stays written. *)

Definition eff (S A : Type) : Type := S -> outcome A * S.

Definition ret {S A : Type} (a : A) : eff S A := fun s => (Ok a, s).

Definition lift {S A : Type} (m : outcome A) : eff S A := fun s => (m, s).

Definition bindE {S A B : Type} (m : eff S A) (k : A -> eff S B) : eff S B :=
  fun s =>
    match m s with
    | (Ok a, s') => k a s'
    | (Throw e, s') => (Throw e, s')
    | (OutOfFuel, s') => (OutOfFuel, s')
    end.

Notation "'do' x '<-' m ';' k" := (bindE m (fun x => k))
  (at level 10, x pattern, m at level 100, k at level 200).

Fixpoint forEachE {A S : Type} (body : A -> eff S unit) (xs : list A) : eff S unit :=
  match xs with
  | [] => ret tt
  | x :: rest => do _ <- body x; forEachE body rest
  end.

(** ** JSON values *)

(** What [JSON.parse] returns.  The fields of an object are listed in the
    order [for ... in] and [Object.keys] enumerate them, one entry per
    key.  The template never computes with a number: it only tests it for
    truthiness, where every non-zero value behaves alike. *)
Inductive json : Type :=
| JNull
| JBool (b : bool)
| JNumber (n : Z)
| JString (s : string)
| JArray (items : list json)
| JObject (fields : list (string * json)).

(** The decimal text of an array index. *)
Definition indexKey (i : nat) : string := NilEmpty.string_of_uint (Nat.to_uint i).

Definition indexKeys (n : nat) : list string := map indexKey (seq 0 n).

(** [k in v], on own properties; a primitive on the right throws. *)
Definition js_in (k : string) (v : json) : outcome bool :=
  match v with
  | JObject fields => Ok (existsb (fun kv => String.eqb k (fst kv)) fields)
  | JArray items =>
      Ok (existsb (String.eqb k) (indexKeys (List.length items)) || String.eqb k "length")
  | _ => Throw (TypeError "Cannot use 'in' operator to search for a key in a primitive")
  end.

(** [v[k]] for a key of an object; [None] is [undefined]. *)
Definition js_get (v : json) (k : string) : option json :=
  match v with
  | JObject fields => Map_get String.eqb fields k
  | _ => None
  end.

Definition js_get_opt (v : option json) (k : string) : option json :=
  match v with
  | Some o => js_get o k
  | None => None
  end.

(** [Object.keys(v)]; [undefined] and [null] throw. *)
Definition Object_keys (v : option json) : outcome (list string) :=
  match v with
  | None | Some JNull =>
      Throw (TypeError "Cannot convert undefined or null to object")
  | Some (JBool _) | Some (JNumber _) => Ok []
  | Some (JString s) => Ok (indexKeys (String.length s))
  | Some (JArray items) => Ok (indexKeys (List.length items))
  | Some (JObject fields) => Ok (map fst fields)
  end.

(** JavaScript truthiness of a value that may be [undefined]. *)
Definition truthy (v : option json) : bool :=
  match v with
  | None | Some JNull => false
  | Some (JBool b) => b
  | Some (JNumber n) => negb (n =? 0)
  | Some (JString s) => negb (String.eqb s EmptyString)
  | Some (JArray _) | Some (JObject _) => true
  end.

(** [cond && v], when the test that follows only asks whether it is
    truthy: the value [v] if it is, [None] otherwise. *)
Definition whenTruthy (cond : bool) (v : option json) : option json :=
  if cond && truthy v then v else None.

(** [k in v] where [v] may be [undefined]. *)
Definition js_in_opt (k : string) (v : option json) : outcome bool :=
  match v with
  | Some o => js_in k o
  | None => Throw (TypeError "Cannot use 'in' operator to search for a key in undefined")
  end.

(** One more than the nesting depth of a value. *)
Fixpoint jsonFuel (v : json) : nat :=
  match v with
  | JArray items => S (fold_right (fun x n => Nat.max (jsonFuel x) n) O items)
  | JObject fields => S (fold_right (fun kv n => Nat.max (jsonFuel (snd kv)) n) O fields)
  | _ => 1%nat
  end.

Inductive BuiltinDartTypeKeyword : Type :=
| kw_int | kw_double | kw_bool | kw_String | kw_dynamic.

Definition keywordText (k : BuiltinDartTypeKeyword) : string :=
  match k with
  | kw_int => "int"
  | kw_double => "double"
  | kw_bool => "bool"
  | kw_String => "String"
  | kw_dynamic => "dynamic"
  end.

(** An object key made from a number, as in [ptdMap[t.id]]. *)
Definition numberKey (i : Z) : string := NilZero.string_of_int (Z.to_int i).

(** * Revision [src/server/templates/dart.ts] *)

Module DartTs.

(** The classes that implement [DartType].  A constructor of this type
    is the object a [new] expression leaves; [NullDartType] and
    [EnumDartConstruct] below are the class constructors that compute.
    The [ptdMap] field of a composite class is only read by its
    [generateDeclaration], which is not part of the embedding. *)
Inductive DartType : Type :=
| BuiltinDartType (keyword : BuiltinDartTypeKeyword)
| DatetimeDartType
| DurationDartType
| ListDartType (containedType : DartType)
| NullObject (containedType : DartType)
| MapDartType (keyType valueType : DartType)
| EnumObject (originalName : string) (values : list string) (comment : option json)
| CompositeObject (postgresType : PostgresType) (name : string).

(** [x instanceof NullDartType] *)
Definition isNullDartType (t : DartType) : bool :=
  match t with
  | NullObject _ => true
  | _ => false
  end.

(** [new NullDartType(containedType)] *)
Definition NullDartType (containedType : DartType) : DartType :=
  match containedType with
  | NullObject inner => NullObject inner
  | _ => NullObject containedType
  end.

Fixpoint generateType (t : DartType) : outcome string :=
  match t with
  | BuiltinDartType keyword => Ok (keywordText keyword)
  | DatetimeDartType => Ok "DateTime"
  | DurationDartType => Ok "Duration"
  | ListDartType c =>
      let* s := generateType c in Ok ("List<" ++ s ++ ">")
  | NullObject c =>
      let* s := generateType c in Ok (s ++ "?")
  | MapDartType k v =>
      let* a := generateType k in
      let* b := generateType v in
      Ok ("Map<" ++ a ++ ", " ++ b ++ ">")
  | EnumObject originalName _ _ => formatForDartClassName originalName
  | CompositeObject _ name => Ok name
  end.

Fixpoint generateJsonEncoding (t : DartType) : outcome string :=
  match t with
  | BuiltinDartType _ => Ok EmptyString
  | DatetimeDartType => Ok ".toIso8601String()"
  | DurationDartType => Ok ".inSeconds"
  | ListDartType c => generateJsonEncoding c
  | NullObject c => generateJsonEncoding c
  | MapDartType _ _ => Ok EmptyString
  | EnumObject _ _ _ => Ok EmptyString
  | CompositeObject _ _ => Ok EmptyString
  end.

Fixpoint generateJsonDecoding (t : DartType) (inputParameter : string) : outcome string :=
  match t with
  | BuiltinDartType keyword => Ok (inputParameter ++ " as " ++ keywordText keyword)
  | DatetimeDartType => Ok ("DateTime.parse(" ++ inputParameter ++ ")")
  | DurationDartType => Ok ("parsePostgresInterval(" ++ inputParameter ++ ")")
  | ListDartType c =>
      let* d := generateJsonDecoding c inputParameter in
      Ok ("(" ++ inputParameter ++ " as List<dynamic>).map((v) => " ++ d ++ ").toList()")
  | NullObject c =>
      let* d := generateJsonDecoding c inputParameter in
      Ok (inputParameter ++ " == null ? null : " ++ d)
  | MapDartType _ _ => Ok inputParameter
  | EnumObject originalName _ _ =>
      let* n := formatForDartClassName originalName in
      Ok (n ++ ".values.byName(" ++ inputParameter ++ ")")
  | CompositeObject _ name => Ok (name ++ ".fromJson(" ++ inputParameter ++ ")")
  end.

Definition SUPPORTED_LOCALES : list string := ["en"; "it"].

Definition isTranslation (translation : option json) (enumValues : list string)
  : outcome bool :=
  let* checks :=
    mapM (fun v =>
            let* present := js_in_opt v translation in
            if present then
              let* keys := Object_keys (js_get_opt translation v) in
              Ok (Nat.eqb
                    (List.length
                       (filter (fun k => negb (existsb (String.eqb k) enumValues)) keys))
                    0)
            else Ok false)
         SUPPORTED_LOCALES in
  Ok (forallb (fun b => b) checks).

Definition isEnumDartComment (comment : json) (enumValues : list string) : outcome bool :=
  let* present := js_in "translation" comment in
  if negb present then Ok false
  else isTranslation (js_get comment "translation") enumValues.

Definition PostgresToDartMap : Type := list (string * (PostgresType * DartType)).

Definition PGTYPE_TO_DARTTYPE_MAP : list (string * DartType) :=
  [ ("bool", BuiltinDartType kw_bool);
    ("int2", BuiltinDartType kw_int);
    ("int4", BuiltinDartType kw_int);
    ("int8", BuiltinDartType kw_int);
    ("float4", BuiltinDartType kw_double);
    ("float8", BuiltinDartType kw_double);
    ("numeric", BuiltinDartType kw_double);
    ("time", DatetimeDartType);
    ("timetz", DatetimeDartType);
    ("timestamp", DatetimeDartType);
    ("timestamptz", DatetimeDartType);
    ("date", DatetimeDartType);
    ("interval", DurationDartType);
    ("uuid", BuiltinDartType kw_String);
    ("text", BuiltinDartType kw_String);
    ("varchar", BuiltinDartType kw_String);
    ("jsonb", MapDartType (BuiltinDartType kw_String) (BuiltinDartType kw_dynamic));
    ("regclass", BuiltinDartType kw_String) ].

(** [new ClassDartConstructForCompositeType(postgresType, ptdMap)] *)
Definition ClassDartConstructForCompositeType (postgresType : PostgresType)
  : outcome DartType :=
  let* n := formatForDartClassName (name postgresType) in
  Ok (CompositeObject postgresType n).

(** [ptdMap[key][1]]; indexing [undefined] throws. *)
Definition entryType (ptdMap : PostgresToDartMap) (key : string) : outcome DartType :=
  match Map_get String.eqb ptdMap key with
  | Some (_, t) => Ok t
  | None => Throw (TypeError "Cannot read properties of undefined (reading '1')")
  end.

Record World : Type := {
  ptdMap : PostgresToDartMap;
  console : list logLine
}.

Section WithJSON.
(** [JSON.parse], which throws a [SyntaxError] on a text that is not
    JSON. *)
Variable JSON_parse : string -> outcome json.

(** [new EnumDartConstruct(name, values, comment)]; the state is the
    console. *)
Definition EnumDartConstruct (name : string) (values : list string)
    (comment : option string) : eff (list logLine) DartType :=
  match comment with
  | None => ret (EnumObject name values None)
  | Some text =>
      do parsedComment <- lift (JSON_parse text);
      do valid <- lift (isEnumDartComment parsedComment values);
      if valid then ret (EnumObject name values (Some parsedComment))
      else fun console =>
             (Ok (EnumObject name values None),
              (console ++ [InvalidEnumComment name text])%list)
  end.

Definition buildDartTypeFromPostgresType (postgresType : PostgresType)
    (ptdMap : PostgresToDartMap) : eff (list logLine) DartType :=
  let array := startsWithUnderscore (name postgresType) in
  let sanitizedTypeName :=
    if array then slice1 (name postgresType) else name postgresType in
  let wrap (t : DartType) := if array then ListDartType t else t in
  let existingDartType :=
    if array then option_map snd (Map_get String.eqb ptdMap sanitizedTypeName)
    else None in
  match existingDartType with
  | Some t => ret (ListDartType t)
  | None =>
      match Map_get String.eqb PGTYPE_TO_DARTTYPE_MAP sanitizedTypeName with
      | Some dartTypeFromStaticMap => ret (wrap dartTypeFromStaticMap)
      | None =>
          if (0 <? List.length (enums postgresType))%nat then
            do enumConstruct <-
              EnumDartConstruct (name postgresType) (enums postgresType)
                                (comment postgresType);
            ret (wrap enumConstruct)
          else if (0 <? List.length (attributes postgresType))%nat then
            do compositeType <- lift (ClassDartConstructForCompositeType postgresType);
            ret (wrap compositeType)
          else fun console =>
                 (Ok (BuiltinDartType kw_dynamic),
                  (console ++ [NoMatchingType postgresType])%list)
      end
  end.

(** The loop of [apply] that fills the registry from the required
    types. *)
Definition registerType (t : PostgresType) : eff World unit :=
  fun w =>
    match buildDartTypeFromPostgresType t (ptdMap w) (console w) with
    | (Ok newDartType, console') =>
        let m := Map_set String.eqb (ptdMap w) (numberKey (id t)) (t, newDartType) in
        let m := Map_set String.eqb m (name t) (t, newDartType) in
        (Ok tt, {| ptdMap := m; console := console' |})
    | (Throw e, console') => (Throw e, {| ptdMap := ptdMap w; console := console' |})
    | (OutOfFuel, console') => (OutOfFuel, {| ptdMap := ptdMap w; console := console' |})
    end.

(** The part of [apply] that builds the registry: the required types of
    the columns, which [apply] has sorted by name, and the loop that
    registers them. *)
Definition registerRequiredTypes (types : list PostgresType)
    (columns : list PostgresColumn) : eff World unit :=
  fun w =>
    let '(lines, required) := getRequiredTypes types columns in
    let w := {| ptdMap := ptdMap w; console := (console w ++ lines)%list |} in
    match required with
    | Ok requiredTypes => forEachE registerType requiredTypes w
    | Throw e => (Throw e, w)
    | OutOfFuel => (OutOfFuel, w)
    end.
End WithJSON.

(** *** The types a row class interpolates

    [ClassDartConstruct.generateDeclaration] is one template string.
    The embedding keeps the field declarations and the [forInsert]
    block, which is the part that writes the registry, in the order the
    template evaluates them; the expressions between the two read the
    same registry entries as the fields and write nothing. *)

(** The field a column declares: [this.ptdMap[column.format][1].generateType()]
    and [formatForDartPropertyName(column.name)], as [type name]. *)
Definition fieldDeclaration (column : PostgresColumn) (ptdMap : PostgresToDartMap)
  : outcome string :=
  let* t := entryType ptdMap (format column) in
  let* ty := generateType t in
  let* property := formatForDartPropertyName (col_name column) in
  Ok (ty ++ " " ++ property).

(** The first [map] of the [forInsert] block, which writes
    [this.ptdMap[column.format][1]]. *)
Definition markForInsert (column : PostgresColumn) (ptdMap : PostgresToDartMap)
  : outcome PostgresToDartMap :=
  match Map_get String.eqb ptdMap (format column) with
  | None => Throw (TypeError "Cannot read properties of undefined (reading '1')")
  | Some (pg, t) =>
      if negb (isNullDartType t) then
        if is_generated column || is_identity column
           || match default_value column with Some _ => true | None => false end
        then Ok (Map_set String.eqb ptdMap (format column) (pg, NullDartType t))
        else Ok ptdMap
      else Ok ptdMap
  end.

(** The second [map] of the block: one parameter of [forInsert], as
    [required type name] or [type name]. *)
Definition insertParameter (ptdMap : PostgresToDartMap) (column : PostgresColumn)
  : outcome string :=
  let* t := entryType ptdMap (format column) in
  let* ty := generateType t in
  let* property := formatForDartPropertyName (col_name column) in
  Ok ((if isNullDartType t then EmptyString else "required ") ++ ty ++ " " ++ property).

(** The fields and the [forInsert] parameters of one row class, and the
    registry the call leaves. *)
Definition rowClassTypes (insert : bool) (columns : list PostgresColumn)
  : eff PostgresToDartMap (list string * list string) :=
  fun ptdMap =>
    match mapM (fun c => fieldDeclaration c ptdMap) columns with
    | Ok fields =>
        if insert then
          match forEachM markForInsert columns ptdMap with
          | Ok ptdMap' =>
              match mapM (insertParameter ptdMap') columns with
              | Ok params => (Ok (fields, params), ptdMap')
              | Throw e => (Throw e, ptdMap')
              | OutOfFuel => (OutOfFuel, ptdMap')
              end
          | Throw e => (Throw e, ptdMap)
          | OutOfFuel => (OutOfFuel, ptdMap)
          end
        else (Ok (fields, []), ptdMap)
    | Throw e => (Throw e, ptdMap)
    | OutOfFuel => (OutOfFuel, ptdMap)
    end.

End DartTs.

(** * Revision [src/unnamed/part_000] *)

Module Part000.

(** The classes that implement [DartType]; see [DartTs.DartType].  The
    enum class of this revision takes the comment and drops it. *)
Inductive DartType : Type :=
| BuiltinDartType (keyword : BuiltinDartTypeKeyword)
| DatetimeDartType
| DurationDartType
| ListDartType (containedType : DartType)
| NullObject (containedType : DartType)
| MapDartType (keyType valueType : DartType)
| EnumObject (originalName : string) (values : list string)
| CompositeObject (postgresType : PostgresType) (name : string)
| JsonschemaObject (name : string)
                   (props : list (string * (option PostgresType * DartType))).

Definition PostgresToDartMap : Type :=
  list (string * (option PostgresType * DartType)).

Definition isNullDartType (t : DartType) : bool :=
  match t with
  | NullObject _ => true
  | _ => false
  end.

(** [new NullDartType(containedType)] *)
Definition NullDartType (containedType : DartType) : DartType :=
  match containedType with
  | NullObject inner => NullObject inner
  | _ => NullObject containedType
  end.

(** [new EnumDartConstruct(name, values, comment)] *)
Definition EnumDartConstruct (name : string) (values : list string)
    (comment : option string) : DartType :=
  EnumObject name values.

Fixpoint generateType (t : DartType) : outcome string :=
  match t with
  | BuiltinDartType keyword => Ok (keywordText keyword)
  | DatetimeDartType => Ok "DateTime"
  | DurationDartType => Ok "Duration"
  | ListDartType c =>
      let* s := generateType c in Ok ("List<" ++ s ++ ">")
  | NullObject c =>
      let* s := generateType c in Ok (s ++ "?")
  | MapDartType k v =>
      let* a := generateType k in
      let* b := generateType v in
      Ok ("Map<" ++ a ++ ", " ++ b ++ ">")
  | EnumObject originalName _ => formatForDartClassName originalName
  | CompositeObject _ name => Ok name
  | JsonschemaObject name _ => Ok name
  end.

Fixpoint generateJsonEncoding (t : DartType) : outcome string :=
  match t with
  | BuiltinDartType _ => Ok EmptyString
  | DatetimeDartType => Ok ".toIso8601String()"
  | DurationDartType => Ok ".inSeconds"
  | ListDartType c =>
      let* e := generateJsonEncoding c in
      Ok (".map((v) => v" ++ e ++ ").toList()")
  | NullObject c => generateJsonEncoding c
  | MapDartType _ _ => Ok EmptyString
  | EnumObject _ _ => Ok ".toJson()"
  | CompositeObject _ _ => Ok ".toJson()"
  | JsonschemaObject _ _ => Ok ".toJson()"
  end.

Fixpoint generateJsonDecoding (t : DartType) (inputParameter : string) : outcome string :=
  match t with
  | BuiltinDartType keyword => Ok (inputParameter ++ " as " ++ keywordText keyword)
  | DatetimeDartType => Ok ("DateTime.parse(" ++ inputParameter ++ ")")
  | DurationDartType => Ok ("parsePostgresInterval(" ++ inputParameter ++ ")")
  | ListDartType c =>
      let* d := generateJsonDecoding c "v" in
      Ok ("(" ++ inputParameter ++ " as List<dynamic>).map((v) => " ++ d ++ ").toList()")
  | NullObject c =>
      let* d := generateJsonDecoding c inputParameter in
      Ok (inputParameter ++ " == null ? null : " ++ d)
  | MapDartType _ _ => Ok (inputParameter ++ " as Map<String, dynamic>")
  | EnumObject originalName _ =>
      let* n := formatForDartClassName originalName in
      Ok (n ++ ".fromJson(" ++ inputParameter ++ ")")
  | CompositeObject _ name => Ok (name ++ ".fromJson(" ++ inputParameter ++ ")")
  | JsonschemaObject name _ => Ok (name ++ ".fromJson(" ++ inputParameter ++ ")")
  end.

Definition StringToDynamic : DartType :=
  MapDartType (BuiltinDartType kw_String) (BuiltinDartType kw_dynamic).

Definition PGTYPE_TO_DARTTYPE_MAP : list (string * DartType) :=
  [ ("bool", BuiltinDartType kw_bool);
    ("int2", BuiltinDartType kw_int);
    ("int4", BuiltinDartType kw_int);
    ("int8", BuiltinDartType kw_int);
    ("float4", BuiltinDartType kw_double);
    ("float8", BuiltinDartType kw_double);
    ("numeric", BuiltinDartType kw_double);
    ("time", DatetimeDartType);
    ("timetz", DatetimeDartType);
    ("timestamp", DatetimeDartType);
    ("timestamptz", DatetimeDartType);
    ("date", DatetimeDartType);
    ("interval", DurationDartType);
    ("uuid", BuiltinDartType kw_String);
    ("text", BuiltinDartType kw_String);
    ("varchar", BuiltinDartType kw_String);
    ("jsonb", StringToDynamic);
    ("json", StringToDynamic);
    ("regclass", BuiltinDartType kw_String) ].

(** [new ClassDartConstructForCompositeType(postgresType, ptdMap)] *)
Definition ClassDartConstructForCompositeType (postgresType : PostgresType)
  : outcome DartType :=
  let* n := formatForDartClassName (name postgresType) in
  Ok (CompositeObject postgresType n).

(** [new ClassDartConstructForJsonschema(name, props)] *)
Definition ClassDartConstructForJsonschema (name : string) (props : PostgresToDartMap)
  : outcome DartType :=
  let* n := formatForDartClassName name in
  Ok (JsonschemaObject n props).

(** [ptdMap[key][1]]; indexing [undefined] throws. *)
Definition entryType (ptdMap : PostgresToDartMap) (key : string) : outcome DartType :=
  match Map_get String.eqb ptdMap key with
  | Some (_, t) => Ok t
  | None => Throw (TypeError "Cannot read properties of undefined (reading '1')")
  end.

(** [key in ptdMap], on own properties. *)
Definition hasKey (ptdMap : PostgresToDartMap) (key : string) : bool :=
  match Map_get String.eqb ptdMap key with
  | Some _ => true
  | None => false
  end.

(** *** buildDartTypeFromJsonschema *)

Record World : Type := {
  ptdMap : PostgresToDartMap;
  console : list logLine
}.

Definition register (key : string) (t : DartType) : eff World unit :=
  fun w => (Ok tt, {| ptdMap := Map_set String.eqb (ptdMap w) key (None, t);
                      console := console w |}).

Definition log (l : logLine) : eff World unit :=
  fun w => (Ok tt, {| ptdMap := ptdMap w; console := (console w ++ [l])%list |}).

(** The pairs [for (var p in v)] visits, with the value [v[p]]. *)
Definition forInEntries (v : json) : list (string * json) :=
  match v with
  | JObject fields => fields
  | JArray items => combine (indexKeys (List.length items)) items
  | JString s =>
      combine (indexKeys (String.length s))
              (map (fun c => JString (String c EmptyString)) (list_ascii_of_string s))
  | _ => []
  end.

Section Jsonschema.
(** [JSON.stringify], whose text only goes into a diagnostic. *)
Variable JSON_stringify : json -> string.

(** [`${name}`] *)
Definition nameText (name : option string) : string :=
  match name with
  | Some n => n
  | None => "undefined"
  end.

(** [schema.type === text] *)
Definition typeIs (schema : json) (text : string) : bool :=
  match js_get schema "type" with
  | Some (JString s) => String.eqb s text
  | _ => false
  end.

(** The state is the registry [ptdMap] and the console; [classProps]
    is local to the loop and threaded through it.  The recursion
    follows the nesting of the schema, which [jsonFuel] bounds. *)
Fixpoint buildDartTypeFromJsonschema (fuel : nat) (schema : json) (name : option string)
  : eff World DartType :=
  match fuel with
  | O => lift OutOfFuel
  | S fuel' =>
      match schema with
      | JNull | JBool _ | JNumber _ | JString _ => ret StringToDynamic
      | JArray _ | JObject _ =>
          match whenTruthy (typeIs schema "array") (js_get schema "items") with
          | Some items =>
              let newTypeName := nameText name ++ "_element" in
              do newType <- buildDartTypeFromJsonschema fuel' items (Some newTypeName);
              do _ <- register newTypeName newType;
              ret (ListDartType newType)
          | None =>
          match whenTruthy (typeIs schema "object") (js_get schema "properties") with
          | Some properties =>
              match name with
              | None =>
                  do _ <- log (NoNameProvided (JSON_stringify schema));
                  ret StringToDynamic
              | Some n =>
                  let body (entry : string * json) (classProps : PostgresToDartMap)
                    : eff World PostgresToDartMap :=
                    let '(p, sub) := entry in
                    let newTypeName := p in
                    do newType <- buildDartTypeFromJsonschema fuel' sub (Some newTypeName);
                    do hasRequired <- lift (js_in "required" properties);
                    do optional <-
                      (if hasRequired then
                         do listed <- lift (js_in_opt p (js_get properties "required"));
                         ret (negb listed)
                       else ret false);
                    let newType := if optional then NullDartType newType else newType in
                    do _ <- register newTypeName newType;
                    ret (Map_set String.eqb classProps newTypeName (None, newType)) in
                  do classProps <-
                    (fix loop (entries : list (string * json))
                         (classProps : PostgresToDartMap)
                       : eff World PostgresToDartMap :=
                       match entries with
                       | [] => ret classProps
                       | entry :: rest =>
                           do classProps <- body entry classProps;
                           loop rest classProps
                       end) (forInEntries properties) [];
                  lift (ClassDartConstructForJsonschema n classProps)
              end
          | None =>
              if typeIs schema "string" then ret (BuiltinDartType kw_String)
              else if typeIs schema "integer" then ret (BuiltinDartType kw_int)
              else if typeIs schema "number" then ret (BuiltinDartType kw_double)
              else if typeIs schema "boolean" then ret (BuiltinDartType kw_bool)
              else if typeIs schema "null"
                   then ret (NullDartType (BuiltinDartType kw_dynamic))
              else ret (BuiltinDartType kw_dynamic)
          end
          end
      end
  end.
End Jsonschema.

(** *** buildDartTypeFromPostgresColumn *)

Definition buildDartTypeFromPostgresColumn (postgresColumn : PostgresColumn)
    (ptdMap : PostgresToDartMap) (forInsert : bool) : outcome DartType :=
  let* dartType := entryType ptdMap (format postgresColumn) in
  let* dartType :=
    if String.eqb (format postgresColumn) "jsonb" && hasKey ptdMap (col_name postgresColumn)
    then entryType ptdMap (col_name postgresColumn)
    else Ok dartType in
  if is_nullable postgresColumn
     || (forInsert
         && (is_generated postgresColumn || is_identity postgresColumn
             || match default_value postgresColumn with Some _ => true | None => false end))
  then Ok (NullDartType dartType)
  else Ok dartType.

(** *** buildDartTypeFromPostgresType; the state is the console *)

Definition buildDartTypeFromPostgresType (postgresType : PostgresType)
    (ptdMap : PostgresToDartMap) : eff (list logLine) DartType :=
  let array := startsWithUnderscore (name postgresType) in
  let sanitizedTypeName :=
    if array then slice1 (name postgresType) else name postgresType in
  let wrap (t : DartType) := if array then ListDartType t else t in
  let existingDartType :=
    if array then option_map snd (Map_get String.eqb ptdMap sanitizedTypeName)
    else None in
  match existingDartType with
  | Some t => ret (ListDartType t)
  | None =>
      match Map_get String.eqb PGTYPE_TO_DARTTYPE_MAP sanitizedTypeName with
      | Some dartTypeFromStaticMap => ret (wrap dartTypeFromStaticMap)
      | None =>
          if (0 <? List.length (enums postgresType))%nat then
            ret (wrap (EnumDartConstruct (name postgresType) (enums postgresType)
                                         (comment postgresType)))
          else if (0 <? List.length (attributes postgresType))%nat then
            do compositeType <- lift (ClassDartConstructForCompositeType postgresType);
            ret (wrap compositeType)
          else fun console =>
                 (Ok (BuiltinDartType kw_dynamic),
                  (console ++ [NoMatchingType postgresType])%list)
      end
  end.

(** The loop of [apply] that fills the registry from the required
    types. *)
Definition registerType (t : PostgresType) : eff World unit :=
  fun w =>
    match buildDartTypeFromPostgresType t (ptdMap w) (console w) with
    | (Ok newDartType, console') =>
        let m := Map_set String.eqb (ptdMap w) (numberKey (id t)) (Some t, newDartType) in
        let m := Map_set String.eqb m (name t) (Some t, newDartType) in
        (Ok tt, {| ptdMap := m; console := console' |})
    | (Throw e, console') => (Throw e, {| ptdMap := ptdMap w; console := console' |})
    | (OutOfFuel, console') => (OutOfFuel, {| ptdMap := ptdMap w; console := console' |})
    end.

(** The first part of [apply]: the required types of the columns, which
    [apply] has sorted by name, and the loop that registers them.  The
    loop over the [jsonb] columns with a schema in their check
    constraint, which follows, adds entries under the names of these
    columns and of the properties of their schemas. *)
Definition registerRequiredTypes (types : list PostgresType)
    (columns : list PostgresColumn) : eff World unit :=
  fun w =>
    let '(lines, required) := getRequiredTypes types columns in
    let w := {| ptdMap := ptdMap w; console := (console w ++ lines)%list |} in
    match required with
    | Ok requiredTypes => forEachE registerType requiredTypes w
    | Throw e => (Throw e, w)
    | OutOfFuel => (OutOfFuel, w)
    end.

(** *** The type of a field of a composite class

    [new NullDartType(this.ptdMap[attr.type_id][1])], which the
    declaration of the class of a composite type interpolates for each
    attribute. *)
Definition attributeType (ptdMap : PostgresToDartMap) (attr : PostgresAttribute)
  : outcome DartType :=
  let* t := entryType ptdMap (numberKey (type_id attr)) in
  Ok (NullDartType t).

(** *** The loop of [apply] over the [jsonb] columns with a schema *)

(** [c.format === 'jsonb' && c.check && c.check.startsWith('jsonb_matches_schema')] *)
Definition hasJsonschema (c : PostgresColumn) : bool :=
  String.eqb (format c) "jsonb"
  && match check c with
     | Some text =>
         negb (String.eqb text EmptyString) && startsWith "jsonb_matches_schema" text
     | None => false
     end.

(** The text handed to [JSON.parse]:
    [check.substring('jsonb_matches_schema(\''.length, check.lastIndexOf('}') + 1)]. *)
Definition schemaText (text : string) : string :=
  substring text (Z.of_nat (String.length "jsonb_matches_schema('"))
            (lastIndexOf "}" text + 1).

Section ApplyJsonschema.
Variable JSON_parse : string -> outcome json.
Variable JSON_stringify : json -> string.

(** The body of the loop.  The recursion of the builder follows the
    nesting of the value [JSON.parse] returns. *)
Definition registerJsonschemaColumn (c : PostgresColumn) : eff World unit :=
  if hasJsonschema c then
    match check c with
    | Some text =>
        do schema <- lift (JSON_parse (schemaText text));
        do jsonschemaDartType <-
          buildDartTypeFromJsonschema JSON_stringify (jsonFuel schema) schema
                                      (Some (col_name c));
        let jsonschemaDartType :=
          if is_nullable c then NullDartType jsonschemaDartType else jsonschemaDartType in
        register (col_name c) jsonschemaDartType
    | None => ret tt
    end
  else ret tt.

Definition registerJsonschemaColumns (columns : list PostgresColumn) : eff World unit :=
  forEachE registerJsonschemaColumn columns.
End ApplyJsonschema.

End Part000.


(** * Vocabulary of the properties *)

(** A type is array-marked when its name begins with an underscore. *)
Definition isArrayType (t : PostgresType) : bool := startsWithUnderscore (name t).

(** [T] has an attribute whose type is [D]. *)
Definition references (T D : PostgresType) : Prop :=
  In (id D) (map type_id (attributes T)).

(** [x] occurs in [l] strictly before an occurrence of [y]. *)
Definition before {A : Type} (x y : A) (l : list A) : Prop :=
  exists l1 l2 l3, l = (l1 ++ x :: l2 ++ y :: l3)%list.

(** The name begins with a character outside [[a-zA-Z0-9]]. *)
Definition startsWithSeparator (name : string) : bool :=
  match name with
  | String c _ => negb (isAlnum c)
  | EmptyString => false
  end.

(** The name holds two consecutive characters outside [[a-zA-Z0-9]]. *)
Fixpoint hasAdjacentSeparators (name : string) : bool :=
  match name with
  | String c1 rest =>
      match rest with
      | String c2 _ => negb (isAlnum c1) && negb (isAlnum c2) || hasAdjacentSeparators rest
      | EmptyString => false
      end
  | EmptyString => false
  end.

(** * Invariants of the dependency sort *)

Definition isVisited (m : list (Z * TypeNode)) (k : Z) : bool :=
  match Map_get Z.eqb m k with
  | Some n => visited n
  | None => false
  end.

Definition isInStack (m : list (Z * TypeNode)) (k : Z) : bool :=
  match Map_get Z.eqb m k with
  | Some n => inStack n
  | None => false
  end.

(** The map with the [visited] marks put down: what [dfs] leaves as it
    found it. *)
Definition eraseVisited (m : list (Z * TypeNode)) : list (Z * TypeNode) :=
  map (fun kn => (fst kn, setVisited false (snd kn))) m.

(** The number of nodes that are not on the stack bounds the depth of the
    recursion. *)
Definition unstacked (m : list (Z * TypeNode)) : nat :=
  List.length (filter (fun kn => negb (inStack (snd kn))) m).

(** What a call of [dfs] that returns leaves unchanged or only grows. *)
Definition frame (st st' : SortState) : Prop :=
  eraseVisited (typeMap st') = eraseVisited (typeMap st)
  /\ (forall k, isVisited (typeMap st) k = true -> isVisited (typeMap st') k = true)
  /\ (forall k, isInStack (typeMap st) k = true ->
                isVisited (typeMap st') k = isVisited (typeMap st) k)
  /\ (exists new, sorted st' = (sorted st ++ new)%list).

(** A dependency edge of the graph the map holds: [b] is a dependency of
    the node [a], and is itself a node. *)
Definition edge (m : list (Z * TypeNode)) (a b : Z) : Prop :=
  exists n, Map_get Z.eqb m a = Some n /\ In b (dependencies n)
            /\ Map_get Z.eqb m b <> None.

(** The invariant of the walk: the output holds the visited nodes, once
    each, and every visited node comes after its dependencies. *)
Record sortInv (st : SortState) : Prop := {
  inv_keyed : forall k n, Map_get Z.eqb (typeMap st) k = Some n -> id (type n) = k;
  inv_sorted : forall T,
    In T (sorted st) <->
    exists n, Map_get Z.eqb (typeMap st) (id T) = Some n /\ visited n = true /\ type n = T;
  inv_nodup : NoDup (map id (sorted st));
  inv_before : forall k n d nd,
    Map_get Z.eqb (typeMap st) k = Some n -> visited n = true ->
    In d (dependencies n) -> Map_get Z.eqb (typeMap st) d = Some nd ->
    before (type nd) (type n) (sorted st)
}.

(** The types and the dependencies a node map holds: the graph, which
    the walk never changes. *)
Definition skeleton (m : list (Z * TypeNode)) : list (Z * (PostgresType * list Z)) :=
  map (fun kn => (fst kn, (type (snd kn), dependencies (snd kn)))) m.

Inductive reaches (m : list (Z * TypeNode)) : Z -> Z -> Prop :=
| reaches_refl (a : Z) : reaches m a a
| reaches_step (a b c : Z) : edge m a b -> reaches m b c -> reaches m a c.

Definition onCycle (m : list (Z * TypeNode)) (k : Z) : Prop :=
  exists b, edge m k b /\ reaches m b k.

(** [T], a type of the list, has an attribute whose type is [D], another
    type of the list. *)
Definition dependsOn (types : list PostgresType) (T D : PostgresType) : Prop :=
  In T types /\ In D types /\ references T D /\ id D <> id T.

(** No type of the list depends on itself through a chain of attributes. *)
Definition acyclic (types : list PostgresType) : Prop :=
  forall T, ~ Relation_Operators.clos_trans PostgresType (dependsOn types) T T.

(** A map filled from a list, one [set] per element. *)
Definition fromList {K V A : Type} (eqb : K -> K -> bool) (key : A -> K) (val : A -> V)
    (l : list A) (m : list (K * V)) : list (K * V) :=
  fold_left (fun m a => Map_set eqb m (key a) (val a)) l m.

(** The array-marked types moved behind the others, each group in its
    order. *)
Definition arraysMovedLast (l : list PostgresType) : list PostgresType :=
  (filter (fun t => negb (isArrayType t)) l ++ filter isArrayType l)%list.

(** The node under a key holds the type [T]. *)
Definition typeAt (m : list (Z * TypeNode)) (k : Z) (T : PostgresType) : Prop :=
  exists n, Map_get Z.eqb m k = Some n /\ type n = T.

(** The list [getRequiredTypes] hands to [sortTypesByDependency]. *)
Definition requiredTypesOf (allTypes : list PostgresType) (columns : list PostgresColumn)
  : outcome (list PostgresType) :=
  requiredTypes (typesById allTypes) (typesByName allTypes)
                (fst (directTypes (typesByName allTypes) columns)).

Definition circularDependencyOf (T : PostgresType) : exn :=
  Error ("Circular dependency detected involving type " ++ name T).

(** * Example catalogs *)

Definition plainType (i : Z) (n : string) : PostgresType :=
  {| id := i; name := n; attributes := []; enums := []; comment := None |}.

Definition compositeType (i : Z) (n : string) (fields : list (string * Z)) : PostgresType :=
  {| id := i; name := n;
     attributes := map (fun f => {| attr_name := fst f; type_id := snd f |}) fields;
     enums := []; comment := None |}.

Definition enumType (i : Z) (n : string) (values : list string) (c : option string)
  : PostgresType :=
  {| id := i; name := n; attributes := []; enums := values; comment := c |}.

Definition plainColumn (n f : string) : PostgresColumn :=
  {| col_name := n; format := f; data_type := f; is_nullable := false;
     is_generated := false; is_identity := false; default_value := None;
     check := None |}.

(** A composite type with an attribute of an array type. *)
Definition ex_tags : PostgresType := plainType 1009 "_text".
Definition ex_post : PostgresType := compositeType 50 "post" [("tags", 1009)].

(** The catalog of the end-to-end scenario, with an array type and its
    base type added. *)
Definition ex_status : PostgresType := enumType 1 "status" ["active"; "done"] None.
Definition ex_task : PostgresType :=
  compositeType 2 "task" [("status", 1); ("parent", 2)].
Definition ex_int4 : PostgresType := plainType 23 "int4".
Definition ex_int4_array : PostgresType := plainType 1007 "_int4".
Definition ex_catalog : list PostgresType := [ex_int4_array; ex_task; ex_status; ex_int4].

(** Two composite types that reference each other. *)
Definition ex_node : PostgresType := compositeType 10 "node" [("edge", 11)].
Definition ex_edge : PostgresType := compositeType 11 "edge" [("target", 10)].

(** * Vocabulary of the required types *)

(** The type the catalog resolves an id or a name to. *)
Definition typeWithId (allTypes : list PostgresType) (i : Z) (T : PostgresType) : Prop :=
  Map_get Z.eqb (typesById allTypes) i = Some T.

Definition typeNamed (allTypes : list PostgresType) (n : string) (T : PostgresType) : Prop :=
  Map_get String.eqb (typesByName allTypes) n = Some T.

(** The id [i] is that of the type a column's format names, or of the
    base type of an array format. *)
Definition directlyReferenced (allTypes : list PostgresType)
    (columns : list PostgresColumn) (i : Z) : Prop :=
  exists c T,
    In c columns /\ id T = i
    /\ (typeNamed allTypes (format c) T
        \/ (startsWithUnderscore (format c) = true
            /\ typeNamed allTypes (slice1 (format c)) T)).

(** The type with id [i] has an attribute of the type with id [j], or is
    array-marked with the base type of id [j]. *)
Definition requires (allTypes : list PostgresType) (i j : Z) : Prop :=
  exists T,
    typeWithId allTypes i T
    /\ (In j (map type_id (attributes T))
        \/ (isArrayType T = true
            /\ exists B, typeNamed allTypes (slice1 (name T)) B /\ id B = j)).

(** [T] is a type of the catalog that a directly referenced type reaches
    through attribute and array-to-base references. *)
Definition inClosure (allTypes : list PostgresType) (columns : list PostgresColumn)
    (T : PostgresType) : Prop :=
  exists r i,
    directlyReferenced allTypes columns r
    /\ Relation_Operators.clos_refl_trans Z (requires allTypes) r i
    /\ typeWithId allTypes i T.

(** What a call of [collectDependencies] that returns does to the set:
    it only grows; every id it adds is an id of the catalog, reached from
    one of the [roots], and has all its required ids in the set. *)
Definition collected (allTypes : list PostgresType) (roots : Z -> Prop)
    (S S' : list Z) : Prop :=
  incl S S'
  /\ (NoDup S -> NoDup S')
  /\ forall v, In v S' -> ~ In v S ->
       Map_get Z.eqb (typesById allTypes) v <> None
       /\ (exists r, roots r /\ Relation_Operators.clos_refl_trans Z (requires allTypes) r v)
       /\ (forall w, requires allTypes v w ->
                     Map_get Z.eqb (typesById allTypes) w <> None -> In w S').

(** * Example columns and schemas *)

(** A table with an identity column and a plain column of the same
    format, neither nullable, and a column of another table. *)
Definition ex_id_column : PostgresColumn :=
  {| col_name := "id"; format := "int4"; data_type := "integer"; is_nullable := false;
     is_generated := false; is_identity := true; default_value := None;
     check := None |}.
Definition ex_qty_column : PostgresColumn := plainColumn "qty" "int4".
Definition ex_rank_column : PostgresColumn := plainColumn "rank" "int4".

(** A column whose format is an array type the catalog does not list. *)
Definition ex_ids_column : PostgresColumn := plainColumn "ids" "_int4".

(** [{"type": "object",
      "properties": {"title": {"type": "string"}, "note": {"type": "string"}},
      "required": ["title"]}] *)
Definition ex_schema : json :=
  JObject [("type", JString "object");
           ("properties",
            JObject [("title", JObject [("type", JString "string")]);
                     ("note", JObject [("type", JString "string")])]);
           ("required", JArray [JString "title"])].

Definition emptyWorld000 : Part000.World :=
  {| Part000.ptdMap := []; Part000.console := [] |}.

Definition emptyWorldTs : DartTs.World :=
  {| DartTs.ptdMap := []; DartTs.console := [] |}.

(** [{"type": "object",
      "properties": {"title": {"type": "string"},
                     "required": {"type": "boolean"}},
      "required": ["title", "required"]}]: an object with a property
    that is itself named [required]. *)
Definition ex_schema_required_property : json :=
  JObject [("type", JString "object");
           ("properties",
            JObject [("title", JObject [("type", JString "string")]);
                     ("required", JObject [("type", JString "boolean")])]);
           ("required", JArray [JString "title"; JString "required"])].

(** An enum whose comment is not JSON, and one whose comment is. *)
Definition ex_mood : PostgresType :=
  enumType 70 "mood" ["happy"; "sad"] (Some "how the user feels").

(** [{"translation": {"en": {"happy": "Happy", "sad": "Sad"},
                      "it": {"happy": "Felice", "sad": "Triste"}}}] *)
Definition ex_translation : json :=
  JObject [("translation",
            JObject [("en", JObject [("happy", JString "Happy"); ("sad", JString "Sad")]);
                     ("it", JObject [("happy", JString "Felice"); ("sad", JString "Triste")])])].

(** The same with a key that is no value of the enum. *)
Definition ex_translation_extra : json :=
  JObject [("translation",
            JObject [("en", JObject [("happy", JString "Happy"); ("angry", JString "Angry")]);
                     ("it", JObject [("happy", JString "Felice"); ("sad", JString "Triste")])])].

(** * Vocabulary of the further properties *)

(** All the characters of a string are letters or digits. *)
Fixpoint allAlnum (s : string) : bool :=
  match s with
  | EmptyString => true
  | String c rest => isAlnum c && allAlnum rest
  end.

(** The position of the first occurrence of a key. *)
Fixpoint indexOf (k : Z) (l : list Z) : Z :=
  match l with
  | [] => 0
  | x :: rest => if k =? x then 0 else 1 + indexOf k rest
  end.

(** No type of the list has an attribute whose type comes later in the
    list. *)
Fixpoint dependencyOrdered (types : list PostgresType) : bool :=
  match types with
  | [] => true
  | T :: rest =>
      forallb (fun d => negb (existsb (Z.eqb d) (map id rest)))
              (map type_id (attributes T))
      && dependencyOrdered rest
  end.

(** The node of a type the walk has finished with. *)
Definition visitedNode (t : PostgresType) : TypeNode := setVisited true (newTypeNode t).

(** The node map when the walk has finished with the types of [done] and
    has not reached those of [todo]. *)
Definition walked (done todo : list PostgresType) : list (Z * TypeNode) :=
  (map (fun t => (id t, visitedNode t)) done
   ++ map (fun t => (id t, newTypeNode t)) todo)%list.

(** The format of the column names no type of the catalog. *)
Definition formatUnresolved (allTypes : list PostgresType) (c : PostgresColumn) : bool :=
  match Map_get String.eqb (typesByName allTypes) (format c) with
  | Some _ => false
  | None => true
  end.

(** * Vocabulary of the registry *)

(** A generated column, an identity column and a column with a default
    value may be left out of an insert. *)
Definition optionalOnInsert (c : PostgresColumn) : bool :=
  is_generated c || is_identity c
  || match default_value c with Some _ => true | None => false end.

(** The names of the properties that every object inherits from
    [Object.prototype].  The registry and the static map of the builtin
    types are plain objects: looking up one of these names in them finds
    the inherited property where the embedding, which holds the own
    properties, finds none.  The statements that rest on a lookup that
    may fail are about names that are none of these. *)
Definition inheritedName (k : string) : bool :=
  existsb (String.eqb k)
    ["constructor"; "hasOwnProperty"; "isPrototypeOf"; "propertyIsEnumerable";
     "toLocaleString"; "toString"; "valueOf"; "__defineGetter__"; "__defineSetter__";
     "__lookupGetter__"; "__lookupSetter__"; "__proto__"].

(** The name under which the mapper looks a type up in the static map. *)
Definition sanitizedTypeName (t : PostgresType) : string :=
  if startsWithUnderscore (name t) then slice1 (name t) else name t.

(** No type of the catalog is looked up under an inherited name. *)
Definition ownNames (allTypes : list PostgresType) : bool :=
  forallb (fun t => negb (inheritedName (sanitizedTypeName t))) allTypes.

(** No name of a type of the catalog is the decimal text of the id of a
    type of the catalog: the two keys of a type never meet those of
    another. *)
Definition namesApartFromIds (allTypes : list PostgresType) : bool :=
  forallb (fun T =>
             forallb (fun U => negb (String.eqb (name T) (numberKey (id U)))) allTypes)
          allTypes.

(** No entry of the registry is a [NullDartType]. *)
Definition plainEntries000 (m : Part000.PostgresToDartMap) : Prop :=
  Forall (fun e => Part000.isNullDartType (snd (snd e)) = false) m.

Definition plainEntriesTs (m : DartTs.PostgresToDartMap) : Prop :=
  Forall (fun e => DartTs.isNullDartType (snd (snd e)) = false) m.

(** * Vocabulary of the JSON-schema builder *)

(** What a step that only adds to the registry and to the console leaves:
    every key stays a key, and the console is extended. *)
Definition grows000 (w w' : Part000.World) : Prop :=
  (forall k, Part000.hasKey (Part000.ptdMap w) k = true ->
             Part000.hasKey (Part000.ptdMap w') k = true)
  /\ exists lines, Part000.console w' = (Part000.console w ++ lines)%list.

(** A computation that comes to an end and only adds. *)
Definition steady {A : Type} (m : eff Part000.World A) : Prop :=
  forall w, fst (m w) <> OutOfFuel /\ grows000 w (snd (m w)).

(** The loop of the builder over the properties of an object schema,
    with its body as a parameter, and the body of that loop. *)
Section ForEachProperty.
Variable body : string * json -> Part000.PostgresToDartMap ->
                eff Part000.World Part000.PostgresToDartMap.

Fixpoint forEachProperty (entries : list (string * json))
    (classProps : Part000.PostgresToDartMap)
  : eff Part000.World Part000.PostgresToDartMap :=
  match entries with
  | [] => ret classProps
  | entry :: rest =>
      do classProps <- body entry classProps;
      forEachProperty rest classProps
  end.
End ForEachProperty.

Definition propertyStep (JSON_stringify : json -> string) (fuel : nat) (properties : json)
    (entry : string * json) (classProps : Part000.PostgresToDartMap)
  : eff Part000.World Part000.PostgresToDartMap :=
  let '(p, sub) := entry in
  do newType <- Part000.buildDartTypeFromJsonschema JSON_stringify fuel sub (Some p);
  do hasRequired <- lift (js_in "required" properties);
  do optional <-
    (if hasRequired then
       do listed <- lift (js_in_opt p (js_get properties "required"));
       ret (negb listed)
     else ret false);
  let newType := if optional then Part000.NullDartType newType else newType in
  do _ <- Part000.register p newType;
  ret (Map_set String.eqb classProps p (None, newType)).

(** * Vocabulary of the enum comment *)

(** The translation holds a table for the locale, and no key of the
    table is foreign to the values of the enum. *)
Definition localeCovered (translation : list (string * json)) (values : list string)
    (locale : string) : bool :=
  match Map_get String.eqb translation locale with
  | Some (JObject table) => forallb (fun k => existsb (String.eqb k) values) (map fst table)
  | _ => false
  end.

(** The translation holds, for the locale, a table or nothing. *)
Definition tableOrNothing (translation : list (string * json)) (locale : string) : Prop :=
  Map_get String.eqb translation locale = None
  \/ exists table, Map_get String.eqb translation locale = Some (JObject table).

(** * Vocabulary of the names *)

(** The name ends with a character outside [[a-zA-Z0-9]]. *)
Fixpoint endsWithSeparator (name : string) : bool :=
  match name with
  | EmptyString => false
  | String c EmptyString => negb (isAlnum c)
  | String _ rest => endsWithSeparator rest
  end.

(** The names [formatForDartClassName] accepts: not empty, a letter or a
    digit at both ends, and no two separators in a row. *)
Definition formattableName (name : string) : bool :=
  negb (String.eqb name EmptyString)
  && negb (startsWithSeparator name)
  && negb (endsWithSeparator name)
  && negb (hasAdjacentSeparators name).

(** The letters and digits of a name, in their order. *)
Fixpoint alnumChars (s : string) : string :=
  match s with
  | EmptyString => EmptyString
  | String c rest => if isAlnum c then String c (alnumChars rest) else alnumChars rest
  end.

(** The text with every letter in upper case. *)
Fixpoint upperCase (s : string) : string :=
  match s with
  | EmptyString => EmptyString
  | String c rest => String (toUpperCase c) (upperCase rest)
  end.

(** * Vocabulary of the rendering *)

(** The names of the enums whose class name the type of a value
    interpolates. *)
Fixpoint enumNames000 (t : Part000.DartType) : list string :=
  match t with
  | Part000.ListDartType c | Part000.NullObject c => enumNames000 c
  | Part000.MapDartType k v => (enumNames000 k ++ enumNames000 v)%list
  | Part000.EnumObject originalName _ => [originalName]
  | _ => []
  end.

Fixpoint enumNamesTs (t : DartTs.DartType) : list string :=
  match t with
  | DartTs.ListDartType c | DartTs.NullObject c => enumNamesTs c
  | DartTs.MapDartType k v => (enumNamesTs k ++ enumNamesTs v)%list
  | DartTs.EnumObject originalName _ _ => [originalName]
  | _ => []
  end.

(** * Name formatting *)

Lemma startsWithSeparator_empty_piece (s : string) :
  startsWithSeparator s = true -> In EmptyString (splitNonAlnum s).
Proof.
  destruct s as [| c rest]; simpl; [discriminate |].
  destruct (isAlnum c); simpl; [discriminate | auto].
Qed.

(** Two adjacent separators leave an empty piece after the first piece. *)
Lemma hasAdjacentSeparators_empty_tail (s : string) :
  hasAdjacentSeparators s = true -> In EmptyString (tl (splitNonAlnum s)).
Proof.
  induction s as [| c1 rest IH]; [discriminate |].
  cbn [hasAdjacentSeparators].
  destruct rest as [| c2 rest']; [discriminate |].
  intros H.
  change (splitNonAlnum (String c1 (String c2 rest')))
    with (if isAlnum c1
          then match splitNonAlnum (String c2 rest') with
               | w :: ws => String c1 w :: ws
               | [] => [String c1 EmptyString]
               end
          else EmptyString :: splitNonAlnum (String c2 rest')).
  apply orb_true_iff in H. destruct H as [H | H].
  - apply andb_true_iff in H. destruct H as [H1 H2].
    apply negb_true_iff in H1. apply negb_true_iff in H2.
    rewrite H1. cbn [tl splitNonAlnum]. rewrite H2. left. reflexivity.
  - specialize (IH H). destruct (isAlnum c1).
    + destruct (splitNonAlnum (String c2 rest')) as [| w ws]; [contradiction |].
      exact IH.
    + cbn [tl]. destruct (splitNonAlnum (String c2 rest')) as [| w ws]; [contradiction |].
      right. exact IH.
Qed.

Lemma hasAdjacentSeparators_empty_piece (s : string) :
  hasAdjacentSeparators s = true -> In EmptyString (splitNonAlnum s).
Proof.
  intros H. apply hasAdjacentSeparators_empty_tail in H.
  destruct (splitNonAlnum s); [contradiction | right; exact H].
Qed.

(** Capitalizing the pieces throws as soon as one of them is empty, and
    returns otherwise. *)
Lemma mapM_capitalizeWord_throw (words : list string) :
  In EmptyString words -> mapM capitalizeWord words = Throw undefinedToUpperCase.
Proof.
  induction words as [| w ws IH]; [contradiction |].
  intros [Hw | Hin].
  - subst w. reflexivity.
  - cbn [mapM]. destruct w as [| c r]; [reflexivity |].
    cbn [capitalizeWord bind]. rewrite (IH Hin). reflexivity.
Qed.

Lemma mapM_capitalizeWord_ok (words : list string) :
  Forall (fun w => w <> EmptyString) words ->
  exists out, mapM capitalizeWord words = Ok out.
Proof.
  induction 1 as [| w ws Hw _ IH]; [exists []; reflexivity |].
  destruct IH as [out IH]. destruct w as [| c r]; [congruence |].
  exists (String (toUpperCase c) r :: out). cbn [mapM capitalizeWord bind].
  rewrite IH. reflexivity.
Qed.

Lemma mapM_capitalizeWord_inv (words out : list string) :
  mapM capitalizeWord words = Ok out ->
  Forall (fun w => w <> EmptyString) words.
Proof.
  revert out. induction words as [| w ws IH]; intros out H; [constructor |].
  destruct w as [| c r]; [discriminate |].
  cbn [mapM capitalizeWord bind] in H.
  destruct (mapM capitalizeWord ws) as [out' | e |] eqn:E; try discriminate.
  constructor; [discriminate | eauto].
Qed.

(** C10.  [formatForDartClassName] returns a string exactly when no piece
    of the split name is empty; a name that begins with a character
    outside [[a-zA-Z0-9]] or that holds two such characters in a row has
    an empty piece, and then [formatForDartClassName], and with it
    [formatForDartPropertyName], throws the [TypeError] of calling
    [toUpperCase] on [undefined]. *)
Theorem formatForDartClassName_empty_piece_throws (name : string) :
  ((exists s, formatForDartClassName name = Ok s)
   <-> Forall (fun w => w <> EmptyString) (splitNonAlnum name))
  /\ (startsWithSeparator name = true \/ hasAdjacentSeparators name = true ->
      In EmptyString (splitNonAlnum name)
      /\ formatForDartClassName name =
           Throw (TypeError "Cannot read properties of undefined (reading 'toUpperCase')")
      /\ formatForDartPropertyName name =
           Throw (TypeError "Cannot read properties of undefined (reading 'toUpperCase')")).
Proof.
  split.
  - unfold formatForDartClassName. split.
    + intros [s H].
      destruct (mapM capitalizeWord (splitNonAlnum name)) as [out | e |] eqn:E;
        try discriminate.
      eapply mapM_capitalizeWord_inv; eassumption.
    + intros H. destruct (mapM_capitalizeWord_ok _ H) as [out E].
      rewrite E. eexists. reflexivity.
  - intros H.
    assert (Hin : In EmptyString (splitNonAlnum name)).
    { destruct H as [H | H];
        [apply startsWithSeparator_empty_piece | apply hasAdjacentSeparators_empty_piece];
        exact H. }
    split; [exact Hin |].
    assert (E : formatForDartClassName name = Throw undefinedToUpperCase).
    { unfold formatForDartClassName.
      rewrite (mapM_capitalizeWord_throw _ Hin). reflexivity. }
    split; [exact E |].
    unfold formatForDartPropertyName. rewrite E. reflexivity.
Qed.

Lemma formatForDartClassName_empty_piece_throws_witness :
  (startsWithSeparator "_int4" = true \/ hasAdjacentSeparators "_int4" = true)
  /\ formatForDartClassName "_int4" =
       Throw (TypeError "Cannot read properties of undefined (reading 'toUpperCase')")
  /\ hasAdjacentSeparators "order__line" = true
  /\ formatForDartPropertyName "order__line" =
       Throw (TypeError "Cannot read properties of undefined (reading 'toUpperCase')").
Proof.
  split; [left; reflexivity |].
  split.
  - apply (formatForDartClassName_empty_piece_throws "_int4"). left. reflexivity.
  - split; [reflexivity |].
    apply (formatForDartClassName_empty_piece_throws "order__line"). right. reflexivity.
Defined.

(** * Loops *)

Section Loops.
Context {A S : Type} (body : A -> S -> outcome S).

(** A relation between states that is reflexive, transitive and kept by
    every turn of the loop is kept by the loop. *)
Lemma forEachM_ok_rel (P : S -> S -> Prop) (xs : list A) :
  (forall s, P s s) ->
  (forall s1 s2 s3, P s1 s2 -> P s2 s3 -> P s1 s3) ->
  (forall x s s', In x xs -> body x s = Ok s' -> P s s') ->
  forall s s', forEachM body xs s = Ok s' -> P s s'.
Proof.
  intros Hrefl Htrans. induction xs as [| x rest IH]; intros Hbody s s' H.
  - injection H as <-. apply Hrefl.
  - cbn [forEachM bind] in H. destruct (body x s) as [s1 | e |] eqn:E; try discriminate.
    eapply Htrans.
    + eapply Hbody; [left; reflexivity | exact E].
    + apply IH; [| exact H]. intros y t t' Hy. apply Hbody. right. exact Hy.
Qed.

(** The same with an invariant [I] of the states, and a fact [Q x] that
    the turn for [x] establishes and the later turns keep. *)
Lemma forEachM_ok_each (I : S -> Prop) (P : S -> S -> Prop) (Q : A -> S -> Prop)
    (xs : list A) :
  (forall s, P s s) ->
  (forall s1 s2 s3, P s1 s2 -> P s2 s3 -> P s1 s3) ->
  (forall x s s', Q x s -> P s s' -> Q x s') ->
  (forall x s s', In x xs -> I s -> body x s = Ok s' -> I s' /\ P s s' /\ Q x s') ->
  forall s s', I s -> forEachM body xs s = Ok s' ->
               I s' /\ P s s' /\ forall x, In x xs -> Q x s'.
Proof.
  intros Hrefl Htrans Hmono. induction xs as [| x rest IH]; intros Hbody s s' Hs H.
  - injection H as <-. repeat split; auto. intros x [].
  - cbn [forEachM bind] in H. destruct (body x s) as [s1 | e |] eqn:E; try discriminate.
    destruct (Hbody x s s1 (or_introl eq_refl) Hs E) as (Hs1 & HP1 & HQ1).
    destruct (IH (fun y t t' Hy => Hbody y t t' (or_intror Hy)) s1 s' Hs1 H)
      as (Hs' & HP & HQ).
    repeat split; [exact Hs' | eapply Htrans; eassumption |].
    intros y [<- | Hy]; [eapply Hmono; eassumption | apply HQ; exact Hy].
Qed.

(** A loop runs out of fuel or throws only if one of its turns does. *)
Lemma forEachM_not_ok (I : S -> Prop) (xs : list A) :
  (forall x s s', In x xs -> I s -> body x s = Ok s' -> I s') ->
  forall s r, I s -> forEachM body xs s = r -> (forall s', r <> Ok s') ->
  exists x s1, In x xs /\ I s1 /\ body x s1 = r.
Proof.
  induction xs as [| x rest IH]; intros Hbody s r Hs H Hr.
  - cbn in H. subst r. exfalso. eapply Hr. reflexivity.
  - cbn [forEachM bind] in H. destruct (body x s) as [s1 | e |] eqn:E.
    + destruct (IH (fun y t t' Hy => Hbody y t t' (or_intror Hy)) s1 r) as (y & t & Hy & Ht & Ey);
        auto.
      { eapply Hbody; [left; reflexivity | exact Hs | exact E]. }
      exists y, t. split; [right; exact Hy | split; assumption].
    + subst r. exists x, s. split; [left; reflexivity | split; assumption].
    + subst r. exists x, s. split; [left; reflexivity | split; assumption].
Qed.
End Loops.

(** * The node map *)

Lemma get_updateNode_same (f : TypeNode -> TypeNode) (m : list (Z * TypeNode)) (k : Z) :
  Map_get Z.eqb (updateNode f m k) k = option_map f (Map_get Z.eqb m k).
Proof.
  induction m as [| [k' n] rest IH]; [reflexivity |].
  cbn [updateNode Map_get]. destruct (k =? k') eqn:E.
  - cbn [Map_get]. rewrite E. reflexivity.
  - cbn [Map_get]. rewrite E. exact IH.
Qed.

Lemma get_updateNode_other (f : TypeNode -> TypeNode) (m : list (Z * TypeNode)) (k k' : Z) :
  k <> k' -> Map_get Z.eqb (updateNode f m k) k' = Map_get Z.eqb m k'.
Proof.
  intros Hne. induction m as [| [k0 n] rest IH]; [reflexivity |].
  cbn [updateNode Map_get]. destruct (k =? k0) eqn:E.
  - apply Z.eqb_eq in E. subst k0. cbn [Map_get].
    destruct (k' =? k) eqn:E'; [apply Z.eqb_eq in E'; congruence | reflexivity].
  - cbn [Map_get]. destruct (k' =? k0); [reflexivity | exact IH].
Qed.

Lemma updateNode_twice (f g : TypeNode -> TypeNode) (m : list (Z * TypeNode)) (k : Z) :
  updateNode f (updateNode g m k) k = updateNode (fun n => f (g n)) m k.
Proof.
  induction m as [| [k' n] rest IH]; [reflexivity |].
  cbn [updateNode]. destruct (k =? k') eqn:E; cbn [updateNode]; rewrite E.
  - reflexivity.
  - rewrite IH. reflexivity.
Qed.

Lemma updateNode_fixed (f : TypeNode -> TypeNode) (m : list (Z * TypeNode)) (k : Z) :
  (forall n, Map_get Z.eqb m k = Some n -> f n = n) -> updateNode f m k = m.
Proof.
  induction m as [| [k' n] rest IH]; intros H; [reflexivity |].
  cbn [updateNode]. cbn [Map_get] in H. destruct (k =? k') eqn:E.
  - rewrite (H n eq_refl). reflexivity.
  - rewrite (IH H). reflexivity.
Qed.

Lemma eraseVisited_setVisited (b : bool) (m : list (Z * TypeNode)) (k : Z) :
  eraseVisited (updateNode (setVisited b) m k) = eraseVisited m.
Proof.
  induction m as [| [k' n] rest IH]; [reflexivity |].
  cbn [updateNode]. destruct (k =? k'); cbn [eraseVisited map fst snd].
  - reflexivity.
  - f_equal. exact IH.
Qed.

Lemma eraseVisited_setInStack (b : bool) (m : list (Z * TypeNode)) (k : Z) :
  eraseVisited (updateNode (setInStack b) m k) = updateNode (setInStack b) (eraseVisited m) k.
Proof.
  induction m as [| [k' n] rest IH]; [reflexivity |].
  cbn [updateNode eraseVisited map fst snd]. destruct (k =? k'); cbn [eraseVisited map fst snd].
  - reflexivity.
  - f_equal. exact IH.
Qed.

Lemma get_eraseVisited (m : list (Z * TypeNode)) (k : Z) :
  Map_get Z.eqb (eraseVisited m) k = option_map (setVisited false) (Map_get Z.eqb m k).
Proof.
  induction m as [| [k' n] rest IH]; [reflexivity |].
  cbn [eraseVisited map Map_get fst snd]. destruct (k =? k'); [reflexivity | exact IH].
Qed.

(** Two maps that differ in the [visited] marks only hold the same
    types, dependencies and stack marks. *)
Lemma eraseVisited_get (m m' : list (Z * TypeNode)) (k : Z) (n : TypeNode) :
  eraseVisited m' = eraseVisited m -> Map_get Z.eqb m k = Some n ->
  exists n', Map_get Z.eqb m' k = Some n' /\ type n' = type n
             /\ dependencies n' = dependencies n /\ inStack n' = inStack n.
Proof.
  intros He Hg.
  assert (H : Map_get Z.eqb (eraseVisited m') k = Map_get Z.eqb (eraseVisited m) k)
    by (rewrite He; reflexivity).
  rewrite !get_eraseVisited, Hg in H.
  destruct (Map_get Z.eqb m' k) as [n' |]; [| discriminate].
  exists n'. cbn in H. injection H as H1 H2 H3. auto.
Qed.

Lemma eraseVisited_get_none (m m' : list (Z * TypeNode)) (k : Z) :
  eraseVisited m' = eraseVisited m -> Map_get Z.eqb m k = None -> Map_get Z.eqb m' k = None.
Proof.
  intros He Hg.
  assert (H : Map_get Z.eqb (eraseVisited m') k = Map_get Z.eqb (eraseVisited m) k)
    by (rewrite He; reflexivity).
  rewrite !get_eraseVisited, Hg in H.
  destruct (Map_get Z.eqb m' k); [discriminate | reflexivity].
Qed.

Lemma eraseVisited_isInStack (m m' : list (Z * TypeNode)) (k : Z) :
  eraseVisited m' = eraseVisited m -> isInStack m' k = isInStack m k.
Proof.
  intros He. unfold isInStack. destruct (Map_get Z.eqb m k) as [n |] eqn:E.
  - destruct (eraseVisited_get m m' k n He E) as (n' & Hg & _ & _ & Hs).
    rewrite Hg. exact Hs.
  - rewrite (eraseVisited_get_none m m' k He E). reflexivity.
Qed.

Lemma eraseVisited_unstacked (m m' : list (Z * TypeNode)) :
  eraseVisited m' = eraseVisited m -> unstacked m' = unstacked m.
Proof.
  revert m'. induction m as [| [k n] rest IH]; intros [| [k' n'] rest'] He;
    try discriminate; [reflexivity |].
  cbn [eraseVisited map fst snd] in He. injection He as Hk Ht Hd Hs Hrest.
  unfold unstacked in *. cbn [filter snd].
  rewrite Hs. specialize (IH rest' Hrest).
  destruct (negb (inStack n)); cbn [List.length]; rewrite IH; reflexivity.
Qed.

Lemma isVisited_setInStack (b : bool) (m : list (Z * TypeNode)) (k k' : Z) :
  isVisited (updateNode (setInStack b) m k) k' = isVisited m k'.
Proof.
  unfold isVisited. destruct (Z.eq_dec k k') as [<- | Hne].
  - rewrite get_updateNode_same. destruct (Map_get Z.eqb m k); reflexivity.
  - rewrite get_updateNode_other by exact Hne. reflexivity.
Qed.


Lemma isVisited_setVisited_other (b : bool) (m : list (Z * TypeNode)) (k k' : Z) :
  k <> k' -> isVisited (updateNode (setVisited b) m k) k' = isVisited m k'.
Proof.
  intros Hne. unfold isVisited. rewrite get_updateNode_other by exact Hne. reflexivity.
Qed.

Lemma isInStack_setInStack_other (b : bool) (m : list (Z * TypeNode)) (k k' : Z) :
  k <> k' -> isInStack (updateNode (setInStack b) m k) k' = isInStack m k'.
Proof.
  intros Hne. unfold isInStack. rewrite get_updateNode_other by exact Hne. reflexivity.
Qed.

Lemma isVisited_setVisited_same (b : bool) (m : list (Z * TypeNode)) (k : Z) (n : TypeNode) :
  Map_get Z.eqb m k = Some n -> isVisited (updateNode (setVisited b) m k) k = b.
Proof.
  intros H. unfold isVisited. rewrite get_updateNode_same, H. reflexivity.
Qed.


(** * What [dfs] leaves in place *)

Lemma frame_refl (st : SortState) : frame st st.
Proof.
  repeat split; auto. exists []. rewrite app_nil_r. reflexivity.
Qed.

Lemma frame_trans (s1 s2 s3 : SortState) : frame s1 s2 -> frame s2 s3 -> frame s1 s3.
Proof.
  intros (E1 & V1 & K1 & new1 & N1) (E2 & V2 & K2 & new2 & N2).
  repeat split.
  - congruence.
  - auto.
  - intros k Hk. rewrite K2, K1; auto.
    rewrite (eraseVisited_isInStack _ _ k E1). exact Hk.
  - exists (new1 ++ new2)%list. rewrite N2, N1, app_assoc. reflexivity.
Qed.

(** Entering a node and leaving it puts the stack marks back. *)
Lemma leave_after_enter (m m2 : list (Z * TypeNode)) (k : Z) (node : TypeNode) :
  Map_get Z.eqb m k = Some node -> inStack node = false ->
  eraseVisited m2 = eraseVisited (updateNode (setInStack true) m k) ->
  eraseVisited (updateNode (setInStack false) (updateNode (setVisited true) m2 k) k)
  = eraseVisited m.
Proof.
  intros Hg Hs He.
  rewrite eraseVisited_setInStack, eraseVisited_setVisited, He, eraseVisited_setInStack.
  rewrite updateNode_twice. apply updateNode_fixed.
  intros n Hn. rewrite get_eraseVisited, Hg in Hn. injection Hn as <-.
  destruct node as [t d v s]. cbn in Hs. subst s. reflexivity.
Qed.

Lemma dfs_frame (fuel : nat) :
  forall nodeId st st', dfs fuel nodeId st = Ok st' -> frame st st'.
Proof.
  induction fuel as [| fuel IH]; intros k st st' H; [discriminate |].
  cbn [dfs] in H.
  destruct (Map_get Z.eqb (typeMap st) k) as [node |] eqn:Hg;
    [| injection H as <-; apply frame_refl].
  destruct (inStack node) eqn:Hs; [discriminate |].
  destruct (visited node) eqn:Hv; [injection H as <-; apply frame_refl |].
  match type of H with
  | bind (forEachM _ _ ?s1) _ = _ => set (st1 := s1) in *
  end.
  destruct (forEachM (dfs fuel) (dependencies node) st1) as [st2 | e |] eqn:Hloop;
    try discriminate.
  cbn [bind] in H. injection H as <-.
  assert (F : frame st1 st2).
  { eapply (forEachM_ok_rel (dfs fuel) frame);
      [apply frame_refl | apply frame_trans | | exact Hloop].
    intros x s s' _ Hx. eapply IH. exact Hx. }
  destruct F as (E & V & K & new & N). subst st1. cbn [typeMap sorted] in *.
  repeat split; cbn [typeMap sorted].
  - eapply leave_after_enter; eassumption.
  - intros j Hj. rewrite isVisited_setInStack.
    destruct (Z.eq_dec k j) as [<- | Hne].
    + destruct (eraseVisited_get _ _ k (setInStack true node) E) as (n2 & Hn2 & _).
      { rewrite get_updateNode_same, Hg. reflexivity. }
      eapply isVisited_setVisited_same. exact Hn2.
    + rewrite isVisited_setVisited_other by exact Hne.
      apply V. rewrite isVisited_setInStack. exact Hj.
  - intros j Hj. rewrite isVisited_setInStack.
    assert (Hne : k <> j).
    { intros <-. unfold isInStack in Hj. rewrite Hg in Hj. congruence. }
    rewrite isVisited_setVisited_other by exact Hne.
    rewrite K; [apply isVisited_setInStack |].
    rewrite isInStack_setInStack_other by exact Hne. exact Hj.
  - exists (new ++ [type node])%list. rewrite N, app_assoc. reflexivity.
Qed.


(** * [dfs] has fuel enough *)

Lemma unstacked_enter (m : list (Z * TypeNode)) (k : Z) (node : TypeNode) :
  Map_get Z.eqb m k = Some node -> inStack node = false ->
  S (unstacked (updateNode (setInStack true) m k)) = unstacked m.
Proof.
  unfold unstacked. induction m as [| [k' n] rest IH]; intros Hg Hs; [discriminate |].
  cbn [Map_get] in Hg. cbn [updateNode]. destruct (k =? k') eqn:E.
  - injection Hg as ->. cbn [filter snd setInStack inStack negb]. rewrite Hs.
    reflexivity.
  - cbn [filter snd]. destruct (negb (inStack n)); cbn [List.length];
      rewrite <- (IH Hg Hs); reflexivity.
Qed.

Lemma unstacked_le_length (m : list (Z * TypeNode)) : (unstacked m <= List.length m)%nat.
Proof.
  unfold unstacked. apply filter_length_le.
Qed.

Lemma dfs_fuel (fuel : nat) :
  forall nodeId st, (unstacked (typeMap st) < fuel)%nat -> dfs fuel nodeId st <> OutOfFuel.
Proof.
  induction fuel as [| fuel IH]; intros k st Hlt; [lia |].
  cbn [dfs].
  destruct (Map_get Z.eqb (typeMap st) k) as [node |] eqn:Hg; [| discriminate].
  destruct (inStack node) eqn:Hs; [discriminate |].
  destruct (visited node) eqn:Hv; [discriminate |].
  match goal with
  | |- bind (forEachM _ _ ?s1) _ <> _ => set (st1 := s1)
  end.
  destruct (forEachM (dfs fuel) (dependencies node) st1) as [st2 | e |] eqn:Hloop;
    cbn [bind]; try discriminate.
  exfalso.
  destruct (forEachM_not_ok (dfs fuel)
              (fun s => eraseVisited (typeMap s) = eraseVisited (typeMap st1))
              (dependencies node)) with (s := st1) (r := @OutOfFuel SortState)
    as (x & s1 & _ & Hs1 & Hx); auto.
  - intros x s s' _ Hs0 Hx. apply dfs_frame in Hx. destruct Hx as (E & _). congruence.
  - discriminate.
  - revert Hx. apply IH. rewrite (eraseVisited_unstacked _ _ Hs1).
    subst st1. cbn [typeMap].
    pose proof (unstacked_enter _ _ _ Hg Hs). lia.
Qed.

Lemma visitKey_fuel (fuel : nat) (nodeId : Z) (st : SortState) :
  (unstacked (typeMap st) < fuel)%nat -> visitKey fuel nodeId st <> OutOfFuel.
Proof.
  intros Hlt. unfold visitKey.
  destruct (Map_get Z.eqb (typeMap st) nodeId) as [node |]; [| discriminate].
  destruct (visited node); [discriminate | apply dfs_fuel; exact Hlt].
Qed.

Lemma visitKey_frame (fuel : nat) (nodeId : Z) (st st' : SortState) :
  visitKey fuel nodeId st = Ok st' -> frame st st'.
Proof.
  unfold visitKey.
  destruct (Map_get Z.eqb (typeMap st) nodeId) as [node |]; [| discriminate].
  destruct (visited node); [intros H; injection H as <-; apply frame_refl |].
  apply dfs_frame.
Qed.

(** * The invariant of the walk *)

Lemma before_app_r {A : Type} (x y : A) (l l' : list A) :
  before x y l -> before x y (l ++ l').
Proof.
  intros (l1 & l2 & l3 & ->). exists l1, l2, (l3 ++ l')%list.
  rewrite <- !app_assoc. cbn. rewrite <- app_assoc. reflexivity.
Qed.

Lemma before_snoc {A : Type} (x y : A) (l : list A) :
  In x l -> before x y (l ++ [y]).
Proof.
  intros H. apply in_split in H. destruct H as (l1 & l2 & ->).
  exists l1, l2, []. rewrite <- app_assoc. reflexivity.
Qed.

Lemma NoDup_snoc {A : Type} (x : A) (l : list A) :
  NoDup l -> ~ In x l -> NoDup (l ++ [x]).
Proof.
  induction 1 as [| y l Hy Hl IH]; intros Hx; cbn.
  - constructor; [intros [] | constructor].
  - constructor.
    + rewrite in_app_iff. intros [H | [H | []]]; [contradiction |].
      apply Hx. left. congruence.
    + apply IH. intros H. apply Hx. right. exact H.
Qed.

Lemma before_in {A : Type} (x y : A) (l : list A) :
  before x y l -> In x l /\ In y l.
Proof.
  intros (l1 & l2 & l3 & ->). split.
  - apply in_or_app. right. left. reflexivity.
  - apply in_or_app. right. right. apply in_or_app. right. left. reflexivity.
Qed.

Lemma get_setInStack (b : bool) (m : list (Z * TypeNode)) (k j : Z) (n : TypeNode) :
  Map_get Z.eqb (updateNode (setInStack b) m k) j = Some n ->
  exists n0, Map_get Z.eqb m j = Some n0 /\ type n = type n0
             /\ dependencies n = dependencies n0 /\ visited n = visited n0.
Proof.
  destruct (Z.eq_dec k j) as [<- | Hne].
  - rewrite get_updateNode_same. destruct (Map_get Z.eqb m k) as [n0 |]; [| discriminate].
    intros H. injection H as <-. exists n0. auto.
  - rewrite get_updateNode_other by exact Hne. intros H. exists n. auto.
Qed.

Lemma get_setInStack_rev (b : bool) (m : list (Z * TypeNode)) (k j : Z) (n0 : TypeNode) :
  Map_get Z.eqb m j = Some n0 ->
  exists n, Map_get Z.eqb (updateNode (setInStack b) m k) j = Some n /\ type n = type n0
            /\ dependencies n = dependencies n0 /\ visited n = visited n0.
Proof.
  intros H. destruct (Z.eq_dec k j) as [<- | Hne].
  - rewrite get_updateNode_same, H. eexists. split; [reflexivity | auto].
  - rewrite get_updateNode_other by exact Hne. exists n0. auto.
Qed.

Lemma sortInv_setInStack (b : bool) (st : SortState) (k : Z) :
  sortInv st ->
  sortInv {| typeMap := updateNode (setInStack b) (typeMap st) k; sorted := sorted st |}.
Proof.
  intros [Hk Hs Hn Hb]. constructor; cbn [typeMap sorted].
  - intros j n Hj. apply get_setInStack in Hj. destruct Hj as (n0 & Hj & Ht & _).
    rewrite Ht. eauto.
  - intros T. rewrite Hs. split.
    + intros (n0 & Hg & Hv & Ht).
      destruct (get_setInStack_rev b _ k _ _ Hg) as (n & Hg' & Ht' & _ & Hv').
      exists n. repeat split; congruence.
    + intros (n & Hg & Hv & Ht).
      destruct (get_setInStack _ _ _ _ _ Hg) as (n0 & Hg' & Ht' & _ & Hv').
      exists n0. repeat split; congruence.
  - exact Hn.
  - intros j n d nd Hj Hv Hd Hnd.
    destruct (get_setInStack _ _ _ _ _ Hj) as (n0 & Hj' & Ht & Hdeps & Hv').
    destruct (get_setInStack _ _ _ _ _ Hnd) as (nd0 & Hnd' & Htd & _).
    rewrite Ht, Htd. eapply Hb; eauto; congruence.
Qed.

(** The map a node is left in, seen from any key. *)
Lemma get_leave (m : list (Z * TypeNode)) (k j : Z) :
  Map_get Z.eqb (updateNode (setInStack false) (updateNode (setVisited true) m k) k) j
  = if k =? j
    then option_map (fun n => setInStack false (setVisited true n)) (Map_get Z.eqb m k)
    else Map_get Z.eqb m j.
Proof.
  destruct (k =? j) eqn:E.
  - apply Z.eqb_eq in E. subst j. rewrite !get_updateNode_same.
    destruct (Map_get Z.eqb m k); reflexivity.
  - apply Z.eqb_neq in E. rewrite !get_updateNode_other by exact E. reflexivity.
Qed.

(** Whether a key is a node does not change along a frame. *)
Lemma frame_present (st st' : SortState) (k : Z) :
  frame st st' ->
  (Map_get Z.eqb (typeMap st) k <> None <-> Map_get Z.eqb (typeMap st') k <> None).
Proof.
  intros (E & _). split; intros H.
  - destruct (Map_get Z.eqb (typeMap st) k) as [n |] eqn:Hg; [| congruence].
    destruct (eraseVisited_get _ _ _ _ E Hg) as (n' & -> & _). discriminate.
  - destruct (Map_get Z.eqb (typeMap st') k) as [n |] eqn:Hg; [| congruence].
    destruct (eraseVisited_get _ _ _ _ (eq_sym E) Hg) as (n' & -> & _). discriminate.
Qed.

Lemma dfs_inv (fuel : nat) :
  forall nodeId st st',
    sortInv st -> dfs fuel nodeId st = Ok st' ->
    sortInv st'
    /\ (Map_get Z.eqb (typeMap st) nodeId <> None -> isVisited (typeMap st') nodeId = true).
Proof.
  induction fuel as [| fuel IH]; intros k st st' Hinv H; [discriminate |].
  cbn [dfs] in H.
  destruct (Map_get Z.eqb (typeMap st) k) as [node |] eqn:Hg;
    [| injection H as <-; split; [exact Hinv | congruence]].
  destruct (inStack node) eqn:Hs; [discriminate |].
  destruct (visited node) eqn:Hv.
  { injection H as <-. split; [exact Hinv |]. intros _. unfold isVisited. rewrite Hg. exact Hv. }
  match type of H with
  | bind (forEachM _ _ ?s1) _ = _ => set (st1 := s1) in *
  end.
  destruct (forEachM (dfs fuel) (dependencies node) st1) as [st2 | e |] eqn:Hloop;
    try discriminate.
  cbn [bind] in H. injection H as <-.
  (* the loop over the dependencies *)
  destruct (forEachM_ok_each (dfs fuel) sortInv frame
              (fun d s => Map_get Z.eqb (typeMap s) d <> None -> isVisited (typeMap s) d = true)
              (dependencies node) frame_refl frame_trans) with (s := st1) (s' := st2)
    as (Hinv2 & F & Hdeps); auto.
  { intros d s s' HQ Fr Hp. pose proof Fr as (_ & V & _).
    apply V, HQ. apply (frame_present s s' d Fr). exact Hp. }
  { intros d s s' _ Hs0 Hd. destruct (IH d s s' Hs0 Hd) as (Hs' & Hvis).
    pose proof (dfs_frame _ _ _ _ Hd) as Fr.
    split; [exact Hs' | split; [exact Fr |]].
    intros Hp. apply Hvis. apply (frame_present s s' d Fr). exact Hp. }
  { apply (sortInv_setInStack true st k Hinv). }
  pose proof F as (E & V & K & new & N).
  (* the node of [k] after the loop *)
  assert (Hg1 : Map_get Z.eqb (typeMap st1) k = Some (setInStack true node)).
  { subst st1. cbn [typeMap]. rewrite get_updateNode_same, Hg. reflexivity. }
  destruct (eraseVisited_get _ _ _ _ E Hg1) as (n2 & Hg2 & Ht2 & Hd2 & Hs2).
  cbn [setInStack type dependencies inStack] in Ht2, Hd2, Hs2.
  assert (Hv2 : visited n2 = false).
  { assert (Hk := K k). unfold isInStack, isVisited in Hk.
    rewrite Hg1, Hg2 in Hk. cbn in Hk. rewrite Hk; auto. }
  assert (Hidk : id (type node) = k) by (eapply (inv_keyed st Hinv); exact Hg).
  destruct Hinv2 as [Hk2 Hsrt2 Hnd2 Hb2].
  split.
  - constructor; cbn [typeMap sorted].
    + (* keyed *)
      intros j n Hj. rewrite get_leave in Hj. destruct (k =? j) eqn:Ekj.
      * apply Z.eqb_eq in Ekj. subst j. rewrite Hg2 in Hj. injection Hj as <-.
        cbn. congruence.
      * eauto.
    + (* the output holds the visited nodes *)
      intros T. rewrite in_app_iff, Hsrt2, get_leave. split.
      * intros [(n & Hn & Hvn & Htn) | [<- | []]].
        -- destruct (k =? id T) eqn:Ekj.
           ++ apply Z.eqb_eq in Ekj. rewrite <- Ekj in Hn. congruence.
           ++ exists n. auto.
        -- rewrite Hidk, Z.eqb_refl, Hg2. eexists. split; [reflexivity |].
           cbn. auto.
      * intros (n & Hn & Hvn & Htn). destruct (k =? id T) eqn:Ekj.
        -- right. left. rewrite Hg2 in Hn. injection Hn as <-. cbn in Htn. congruence.
        -- left. exists n. auto.
    + (* once each *)
      rewrite map_app. cbn [map]. apply NoDup_snoc; [exact Hnd2 |].
      intros Hin. apply in_map_iff in Hin. destruct Hin as (T & HidT & HT).
      apply Hsrt2 in HT. destruct HT as (n & Hn & Hvn & _).
      rewrite HidT, Hidk, Hg2 in Hn. congruence.
    + (* after its dependencies *)
      intros j n d nd Hj Hvj Hd Hnd. rewrite get_leave in Hj, Hnd.
      assert (Hnd' : exists nd2, Map_get Z.eqb (typeMap st2) d = Some nd2
                                 /\ type nd = type nd2).
      { destruct (k =? d) eqn:Ekd.
        - apply Z.eqb_eq in Ekd. subst d. rewrite Hg2 in Hnd. injection Hnd as <-.
          exists n2. auto.
        - exists nd. auto. }
      destruct Hnd' as (nd2 & Hnd2' & Htnd). rewrite Htnd.
      destruct (k =? j) eqn:Ekj.
      * apply Z.eqb_eq in Ekj. subst j. rewrite Hg2 in Hj. injection Hj as <-.
        cbn [setInStack setVisited type dependencies] in *. rewrite Ht2.
        apply before_snoc. apply Hsrt2. exists nd2.
        rewrite (Hk2 _ _ Hnd2'). repeat split; auto.
        assert (Hvd := Hdeps d). rewrite Hd2 in Hd. specialize (Hvd Hd).
        unfold isVisited in Hvd. rewrite Hnd2' in Hvd. apply Hvd. discriminate.
      * apply before_app_r. eapply Hb2; eauto.
  - intros _. cbn [typeMap]. unfold isVisited. rewrite get_leave, Z.eqb_refl, Hg2.
    reflexivity.
Qed.

(** * A throw of [dfs] names a node on a cycle *)

Lemma get_skeleton (m : list (Z * TypeNode)) (k : Z) :
  Map_get Z.eqb (skeleton m) k
  = option_map (fun n => (type n, dependencies n)) (Map_get Z.eqb m k).
Proof.
  induction m as [| [k' n] rest IH]; [reflexivity |].
  cbn [skeleton map Map_get fst snd]. destruct (k =? k'); [reflexivity | exact IH].
Qed.

Lemma skeleton_get (m g : list (Z * TypeNode)) (k : Z) (n : TypeNode) :
  skeleton m = skeleton g -> Map_get Z.eqb m k = Some n ->
  exists n', Map_get Z.eqb g k = Some n' /\ type n' = type n
             /\ dependencies n' = dependencies n.
Proof.
  intros He Hg.
  assert (H : Map_get Z.eqb (skeleton g) k = Map_get Z.eqb (skeleton m) k)
    by (rewrite He; reflexivity).
  rewrite !get_skeleton, Hg in H.
  destruct (Map_get Z.eqb g k) as [n' |]; [| discriminate].
  exists n'. cbn in H. injection H as H1 H2. auto.
Qed.

Lemma skeleton_eraseVisited (m : list (Z * TypeNode)) : skeleton (eraseVisited m) = skeleton m.
Proof.
  unfold skeleton, eraseVisited. rewrite map_map. apply map_ext. intros [k n]. reflexivity.
Qed.

Lemma eraseVisited_skeleton (m m' : list (Z * TypeNode)) :
  eraseVisited m' = eraseVisited m -> skeleton m' = skeleton m.
Proof.
  intros H. rewrite <- (skeleton_eraseVisited m'), H. apply skeleton_eraseVisited.
Qed.

Lemma skeleton_setInStack (b : bool) (m : list (Z * TypeNode)) (k : Z) :
  skeleton (updateNode (setInStack b) m k) = skeleton m.
Proof.
  induction m as [| [k' n] rest IH]; [reflexivity |].
  cbn [updateNode]. destruct (k =? k'); cbn [skeleton map fst snd].
  - reflexivity.
  - f_equal. exact IH.
Qed.

Lemma dfs_throw_present (fuel : nat) (k : Z) (st : SortState) (e : exn) :
  dfs fuel k st = Throw e -> Map_get Z.eqb (typeMap st) k <> None.
Proof.
  destruct fuel; [discriminate |]. cbn [dfs].
  destruct (Map_get Z.eqb (typeMap st) k); discriminate.
Qed.

Lemma circularDependency_type (n n' : TypeNode) :
  type n = type n' -> circularDependency n = circularDependency n'.
Proof.
  unfold circularDependency. intros ->. reflexivity.
Qed.

Lemma dfs_throw (fuel : nat) (g : list (Z * TypeNode)) :
  forall nodeId st e,
    skeleton (typeMap st) = skeleton g -> dfs fuel nodeId st = Throw e ->
    exists j node,
      Map_get Z.eqb g j = Some node /\ e = circularDependency node
      /\ ((isInStack (typeMap st) j = true /\ reaches g nodeId j) \/ onCycle g j).
Proof.
  induction fuel as [| fuel IH]; intros k st e Hsk H; [discriminate |].
  cbn [dfs] in H.
  destruct (Map_get Z.eqb (typeMap st) k) as [node |] eqn:Hg; [| discriminate].
  destruct (skeleton_get _ _ _ _ Hsk Hg) as (ng & Hng & Htg & Hdg).
  destruct (inStack node) eqn:Hs.
  { injection H as <-. exists k, ng. split; [exact Hng |].
    split; [apply circularDependency_type; congruence |].
    left. split; [| constructor]. unfold isInStack. rewrite Hg. exact Hs. }
  destruct (visited node) eqn:Hv; [discriminate |].
  match type of H with
  | bind (forEachM _ _ ?s1) _ = _ => set (st1 := s1) in *
  end.
  destruct (forEachM (dfs fuel) (dependencies node) st1) as [st2 | e' |] eqn:Hloop;
    try discriminate.
  cbn [bind] in H. injection H as ->.
  destruct (forEachM_not_ok (dfs fuel)
              (fun s => eraseVisited (typeMap s) = eraseVisited (typeMap st1))
              (dependencies node)) with (s := st1) (r := @Throw SortState e)
    as (x & s1 & Hx & Hs1 & Ex); auto.
  { intros x s s' _ Hs0 Hx. apply dfs_frame in Hx. destruct Hx as (E & _). congruence. }
  { discriminate. }
  assert (Hsk1 : skeleton (typeMap s1) = skeleton g).
  { rewrite (eraseVisited_skeleton _ _ Hs1). subst st1. cbn [typeMap].
    rewrite skeleton_setInStack. exact Hsk. }
  destruct (IH x s1 e Hsk1 Ex) as (j & nj & Hnj & He & Hcase).
  assert (Hedge : edge g k x).
  { exists ng. split; [exact Hng |]. split; [congruence |].
    pose proof (dfs_throw_present _ _ _ _ Ex) as Hp.
    destruct (Map_get Z.eqb (typeMap s1) x) as [nx |] eqn:Hgx; [| congruence].
    destruct (skeleton_get _ _ _ _ Hsk1 Hgx) as (nx' & -> & _). discriminate. }
  exists j, nj. split; [exact Hnj |]. split; [exact He |].
  destruct Hcase as [(Hstk & Hreach) | Hcyc]; [| right; exact Hcyc].
  rewrite (eraseVisited_isInStack _ _ j Hs1) in Hstk. subst st1. cbn [typeMap] in Hstk.
  destruct (Z.eq_dec k j) as [<- | Hne].
  - right. exists x. split; assumption.
  - left. rewrite isInStack_setInStack_other in Hstk by exact Hne.
    split; [exact Hstk | econstructor; eassumption].
Qed.

(** * Maps built from a list *)

Section MapFacts.
Context {K V : Type} (eqb : K -> K -> bool).
Hypothesis eqb_eq : forall a b, eqb a b = true <-> a = b.

Lemma eqb_refl_K (a : K) : eqb a a = true.
Proof. apply eqb_eq. reflexivity. Qed.

Lemma Map_get_set (m : list (K * V)) (k k' : K) (v : V) :
  Map_get eqb (Map_set eqb m k v) k' = if eqb k' k then Some v else Map_get eqb m k'.
Proof.
  induction m as [| [k0 v0] rest IH]; [reflexivity |].
  cbn [Map_set]. destruct (eqb k k0) eqn:E.
  - apply eqb_eq in E. subst k0. cbn [Map_get]. destruct (eqb k' k); reflexivity.
  - cbn [Map_get]. rewrite IH. destruct (eqb k' k0) eqn:E0; [| reflexivity].
    destruct (eqb k' k) eqn:E1; [| reflexivity].
    apply eqb_eq in E0, E1. subst. rewrite eqb_refl_K in E. discriminate.
Qed.

Lemma Map_keys_get (m : list (K * V)) (k : K) :
  In k (Map_keys m) <-> Map_get eqb m k <> None.
Proof.
  unfold Map_keys. induction m as [| [k0 v0] rest IH]; cbn [map Map_get fst In].
  - split; [intros [] | congruence].
  - destruct (eqb k k0) eqn:E.
    + apply eqb_eq in E. split; [discriminate | auto].
    + rewrite IH. split; [intros [H | H]; [| exact H] | auto].
      subst k0. rewrite eqb_refl_K in E. discriminate.
Qed.

Section FromList.
Context {A : Type} (key : A -> K) (val : A -> V).

Lemma fromList_get (l : list A) :
  forall m k v,
    Map_get eqb (fromList eqb key val l m) k = Some v ->
    (exists a, In a l /\ key a = k /\ val a = v) \/ Map_get eqb m k = Some v.
Proof.
  induction l as [| a rest IH]; intros m k v H; [right; exact H |].
  cbn [fromList fold_left] in H. apply IH in H. destruct H as [(b & Hb & Hk & Hv) | H].
  - left. exists b. split; [right; exact Hb | auto].
  - rewrite Map_get_set in H. destruct (eqb k (key a)) eqn:E.
    + apply eqb_eq in E. injection H as <-. left. exists a.
      split; [left; reflexivity | auto].
    + right. exact H.
Qed.

Lemma fromList_present (l : list A) :
  forall m k,
    (Map_get eqb m k <> None \/ exists a, In a l /\ key a = k) ->
    Map_get eqb (fromList eqb key val l m) k <> None.
Proof.
  induction l as [| a rest IH]; intros m k H.
  - destruct H as [H | (a & [] & _)]. exact H.
  - cbn [fromList fold_left]. apply IH. rewrite Map_get_set.
    destruct (eqb k (key a)) eqn:E; [left; discriminate |].
    destruct H as [H | (b & [<- | Hb] & Hk)].
    + left. exact H.
    + subst k. rewrite eqb_refl_K in E. discriminate.
    + right. exists b. auto.
Qed.

(** With keys that differ, each element is found under its key. *)
Lemma fromList_get_nodup (l : list A) (a : A) :
  NoDup (map key l) -> In a l -> Map_get eqb (fromList eqb key val l []) (key a) = Some (val a).
Proof.
  intros Hnd Hin.
  destruct (Map_get eqb (fromList eqb key val l []) (key a)) as [v |] eqn:E.
  - apply fromList_get in E. destruct E as [(b & Hb & Hk & Hv) | E]; [| discriminate].
    assert (b = a); [| congruence].
    clear - Hnd Hin Hb Hk. induction l as [| c rest IH]; [contradiction |].
    cbn [map] in Hnd. inversion Hnd as [| ? ? Hc Hrest]; subst.
    destruct Hin as [-> | Hin], Hb as [-> | Hb]; auto.
    + exfalso. apply Hc. rewrite <- Hk. apply in_map. exact Hb.
    + exfalso. apply Hc. rewrite Hk. apply in_map. exact Hin.
  - exfalso. revert E. apply fromList_present. right. exists a. auto.
Qed.
End FromList.
End MapFacts.

Lemma initTypeMap_get_inv (types : list PostgresType) (k : Z) (n : TypeNode) :
  Map_get Z.eqb (initTypeMap types) k = Some n ->
  exists t, In t types /\ id t = k /\ n = newTypeNode t.
Proof.
  intros H. apply (fromList_get Z.eqb Z.eqb_eq id newTypeNode) in H.
  destruct H as [(t & Ht & Hk & Hn) | H]; [| discriminate].
  exists t. auto.
Qed.

Lemma initTypeMap_get (types : list PostgresType) (t : PostgresType) :
  NoDup (map id types) -> In t types ->
  Map_get Z.eqb (initTypeMap types) (id t) = Some (newTypeNode t).
Proof.
  apply (fromList_get_nodup Z.eqb Z.eqb_eq id newTypeNode).
Qed.

(** [new Set(xs)] holds the elements of [xs]. *)
Lemma Set_has_In (s : list Z) (x : Z) : Set_has s x = true <-> In x s.
Proof.
  unfold Set_has. rewrite existsb_exists. split.
  - intros (y & Hy & E). apply Z.eqb_eq in E. congruence.
  - intros H. exists x. split; [exact H | apply Z.eqb_refl].
Qed.

Lemma Set_add_In (s : list Z) (x y : Z) : In y (Set_add s x) <-> In y s \/ y = x.
Proof.
  unfold Set_add. destruct (Set_has s x) eqn:E.
  - apply Set_has_In in E. split; [auto |]. intros [H | ->]; assumption.
  - rewrite in_app_iff. cbn. intuition congruence.
Qed.

Lemma Set_of_In (xs : list Z) (y : Z) : In y (Set_of xs) <-> In y xs.
Proof.
  unfold Set_of.
  assert (H : forall s, In y (fold_left Set_add xs s) <-> In y s \/ In y xs).
  { induction xs as [| x rest IH]; intros s; cbn [fold_left In].
    - tauto.
    - rewrite IH, Set_add_In. intuition congruence. }
  rewrite H. cbn. tauto.
Qed.

Lemma newTypeNode_dependencies (t : PostgresType) (d : Z) :
  In d (dependencies (newTypeNode t)) <-> In d (map type_id (attributes t)) /\ d <> id t.
Proof.
  cbn [newTypeNode dependencies]. rewrite Set_of_In, filter_In, negb_true_iff, Z.eqb_neq.
  tauto.
Qed.

(** * The loop over the keys *)

Lemma initTypeMap_fresh (types : list PostgresType) (k : Z) (n : TypeNode) :
  Map_get Z.eqb (initTypeMap types) k = Some n ->
  visited n = false /\ inStack n = false /\ id (type n) = k.
Proof.
  intros H. apply initTypeMap_get_inv in H. destruct H as (t & _ & Hk & ->). auto.
Qed.

Lemma sortInv_init (types : list PostgresType) :
  sortInv {| typeMap := initTypeMap types; sorted := [] |}.
Proof.
  constructor; cbn [typeMap sorted].
  - intros k n H. apply (initTypeMap_fresh types k n H).
  - intros T. split; [intros [] |]. intros (n & H & Hv & _).
    apply initTypeMap_fresh in H. destruct H as (H & _). congruence.
  - constructor.
  - intros k n d nd H Hv. apply initTypeMap_fresh in H. destruct H as (H & _). congruence.
Qed.

Lemma visitKey_inv (fuel : nat) (k : Z) (st st' : SortState) :
  sortInv st -> visitKey fuel k st = Ok st' ->
  sortInv st' /\ frame st st' /\ isVisited (typeMap st') k = true.
Proof.
  intros Hinv H. pose proof (visitKey_frame _ _ _ _ H) as F.
  unfold visitKey in H.
  destruct (Map_get Z.eqb (typeMap st) k) as [node |] eqn:Hg; [| discriminate].
  destruct (visited node) eqn:Hv.
  - injection H as <-. split; [exact Hinv | split; [exact F |]].
    unfold isVisited. rewrite Hg. exact Hv.
  - destruct (dfs_inv _ _ _ _ Hinv H) as (Hinv' & Hvis).
    split; [exact Hinv' | split; [exact F |]]. apply Hvis. congruence.
Qed.

(** The three outcomes of [sortTypesByDependency]: it never runs out of
    fuel; an error names a node on a cycle; and a returned list is the
    sorted walk order, in which every node stands after its dependencies. *)
Lemma sortTypesByDependency_cases (types : list PostgresType) :
  match sortTypesByDependency types with
  | OutOfFuel => False
  | Throw e =>
      exists j node,
        Map_get Z.eqb (initTypeMap types) j = Some node
        /\ e = circularDependency node /\ onCycle (initTypeMap types) j
  | Ok out =>
      exists st,
        out = Array_sort arraysLast (sorted st) /\ sortInv st
        /\ skeleton (typeMap st) = skeleton (initTypeMap types)
        /\ forall k, Map_get Z.eqb (typeMap st) k <> None -> isVisited (typeMap st) k = true
  end.
Proof.
  unfold sortTypesByDependency.
  set (tm := initTypeMap types).
  set (st0 := {| typeMap := tm; sorted := [] |}).
  set (fuel := S (List.length tm)).
  assert (Hstep : forall x s s',
             In x (Map_keys tm) ->
             eraseVisited (typeMap s) = eraseVisited tm ->
             visitKey fuel x s = Ok s' -> eraseVisited (typeMap s') = eraseVisited tm).
  { intros x s s' _ Hs Hx. apply visitKey_frame in Hx. destruct Hx as (E & _). congruence. }
  destruct (forEachM (visitKey fuel) (Map_keys tm) st0) as [st | e |] eqn:Hloop;
    cbn [bind].
  - (* returns *)
    destruct (forEachM_ok_each (visitKey fuel) sortInv frame
                (fun k s => isVisited (typeMap s) k = true)
                (Map_keys tm) frame_refl frame_trans) with (s := st0) (s' := st)
      as (Hinv & F & Hall); auto.
    { intros k s s' HQ (_ & V & _). auto. }
    { intros k s s' _. apply visitKey_inv. }
    { apply sortInv_init. }
    exists st. split; [reflexivity |]. split; [exact Hinv |].
    pose proof F as (E & _). split; [apply eraseVisited_skeleton; exact E |].
    intros k Hk. apply Hall. apply (Map_keys_get Z.eqb Z.eqb_eq).
    apply (frame_present st0 st k F). exact Hk.
  - (* throws *)
    destruct (forEachM_not_ok (visitKey fuel)
                (fun s => eraseVisited (typeMap s) = eraseVisited tm)
                (Map_keys tm) Hstep st0 (Throw e))
      as (x & s1 & Hx & Hs1 & Ex); auto; [discriminate |].
    unfold visitKey in Ex.
    destruct (Map_get Z.eqb (typeMap s1) x) as [node |] eqn:Hg.
    + destruct (visited node); [discriminate |].
      destruct (dfs_throw fuel tm x s1 e (eraseVisited_skeleton _ _ Hs1) Ex)
        as (j & nj & Hnj & He & [(Hstk & _) | Hcyc]).
      * rewrite (eraseVisited_isInStack _ _ j Hs1) in Hstk.
        unfold isInStack in Hstk. rewrite Hnj in Hstk.
        apply initTypeMap_fresh in Hnj. destruct Hnj as (_ & Hnj & _). congruence.
      * exists j, nj. auto.
    + exfalso. apply (Map_keys_get Z.eqb Z.eqb_eq) in Hx.
      apply Hx. apply (eraseVisited_get_none _ _ x (eq_sym Hs1) Hg).
  - (* fuel *)
    destruct (forEachM_not_ok (visitKey fuel)
                (fun s => eraseVisited (typeMap s) = eraseVisited tm)
                (Map_keys tm) Hstep st0 OutOfFuel)
      as (x & s1 & Hx & Hs1 & Ex); auto; [discriminate |].
    revert Ex. apply visitKey_fuel. rewrite (eraseVisited_unstacked _ _ Hs1).
    pose proof (unstacked_le_length tm). subst fuel. lia.
Qed.

(** * The final sort *)

Lemma insertSorted_array (x : PostgresType) (l : list PostgresType) :
  isArrayType x = true -> insertSorted arraysLast x l = (l ++ [x])%list.
Proof.
  intros Hx. induction l as [| y rest IH]; [reflexivity |].
  cbn [insertSorted]. unfold arraysLast at 1. unfold isArrayType in Hx. rewrite Hx.
  cbn. rewrite IH. reflexivity.
Qed.

Lemma insertSorted_plain (x : PostgresType) (plain arrays : list PostgresType) :
  isArrayType x = false ->
  Forall (fun t => isArrayType t = false) plain ->
  Forall (fun t => isArrayType t = true) arrays ->
  insertSorted arraysLast x (plain ++ arrays)%list = (plain ++ x :: arrays)%list.
Proof.
  intros Hx Hp Ha. unfold isArrayType in Hx.
  induction Hp as [| y rest Hy _ IH]; cbn [app].
  - destruct Ha as [| y rest Hy _]; [reflexivity |].
    cbn [insertSorted]. unfold arraysLast. unfold isArrayType in Hy. rewrite Hx, Hy.
    reflexivity.
  - cbn [insertSorted]. unfold arraysLast at 1. unfold isArrayType in Hy. rewrite Hx, Hy.
    cbn. rewrite IH. reflexivity.
Qed.

(** With the comparator of the template, the sort moves the array-marked
    types behind the others and keeps the order inside each group. *)
Lemma Array_sort_arraysLast (l : list PostgresType) :
  Array_sort arraysLast l = arraysMovedLast l.
Proof.
  unfold Array_sort, arraysMovedLast.
  assert (H : forall plain arrays,
             Forall (fun t => isArrayType t = false) plain ->
             Forall (fun t => isArrayType t = true) arrays ->
             fold_left (fun acc x => insertSorted arraysLast x acc) l (plain ++ arrays)%list
             = ((plain ++ filter (fun t => negb (isArrayType t)) l)
                ++ (arrays ++ filter isArrayType l))%list).
  { induction l as [| x rest IH]; intros plain arrays Hp Ha; cbn [fold_left filter].
    - rewrite !app_nil_r. reflexivity.
    - destruct (isArrayType x) eqn:Hx; cbn [negb].
      + rewrite insertSorted_array by exact Hx. rewrite <- app_assoc.
        rewrite IH; [| exact Hp | apply Forall_app; split; [exact Ha | repeat constructor; exact Hx]].
        rewrite <- (app_assoc arrays). reflexivity.
      + rewrite insertSorted_plain by assumption.
        change (plain ++ x :: arrays)%list with (plain ++ [x] ++ arrays)%list.
        rewrite app_assoc.
        rewrite IH; [| apply Forall_app; split; [exact Hp | repeat constructor; exact Hx] | exact Ha].
        rewrite <- (app_assoc plain). reflexivity. }
  apply (H [] []); constructor.
Qed.

Lemma arraysMovedLast_Permutation (l : list PostgresType) :
  Permutation (arraysMovedLast l) l.
Proof.
  unfold arraysMovedLast. induction l as [| x rest IH]; [constructor |].
  cbn [filter]. destruct (isArrayType x); cbn [negb].
  - apply Permutation_sym. apply Permutation_cons_app. apply Permutation_sym. exact IH.
  - cbn [app]. constructor. exact IH.
Qed.

Lemma before_filter {A : Type} (p : A -> bool) (x y : A) (l : list A) :
  before x y l -> p x = true -> p y = true -> before x y (filter p l).
Proof.
  intros (l1 & l2 & l3 & ->) Hx Hy.
  exists (filter p l1), (filter p l2), (filter p l3).
  rewrite filter_app. cbn [filter]. rewrite Hx, filter_app. cbn [filter]. rewrite Hy.
  reflexivity.
Qed.

Lemma before_app_l {A : Type} (x y : A) (l l' : list A) :
  before x y l -> before x y (l' ++ l).
Proof.
  intros (l1 & l2 & l3 & ->). exists (l' ++ l1)%list, l2, l3.
  rewrite <- app_assoc. reflexivity.
Qed.

Lemma before_app_lr {A : Type} (x y : A) (l l' : list A) :
  In x l -> In y l' -> before x y (l ++ l').
Proof.
  intros Hx Hy. apply in_split in Hx, Hy.
  destruct Hx as (a1 & a2 & ->), Hy as (b1 & b2 & ->).
  exists a1, (a2 ++ b1)%list, b2. rewrite <- !app_assoc. reflexivity.
Qed.

(** The sort keeps an order between two types unless it moves the first
    behind the second. *)
Lemma before_arraysMovedLast (D T : PostgresType) (l : list PostgresType) :
  before D T l -> (isArrayType D = true -> isArrayType T = true) ->
  before D T (arraysMovedLast l).
Proof.
  intros Hb Himp. unfold arraysMovedLast.
  destruct (isArrayType D) eqn:HD.
  - apply before_app_l. apply before_filter; auto.
  - destruct (isArrayType T) eqn:HT.
    + destruct (before_in _ _ _ Hb) as (HinD & HinT).
      apply before_app_lr; apply filter_In; split; auto. rewrite HD. reflexivity.
    + apply before_app_r. apply before_filter; auto; [rewrite HD | rewrite HT]; reflexivity.
Qed.

Lemma plain_before_array (B A : PostgresType) (l : list PostgresType) :
  In B l -> In A l -> isArrayType B = false -> isArrayType A = true ->
  before B A (arraysMovedLast l).
Proof.
  intros HB HA Hb Ha. unfold arraysMovedLast.
  apply before_app_lr; apply filter_In; split; auto. rewrite Hb. reflexivity.
Qed.

Lemma before_antisym {A : Type} (f : A -> Z) (x y : A) (l : list A) :
  NoDup (map f l) -> before x y l -> before y x l -> False.
Proof.
  intros Hnd (l1 & l2 & l3 & ->) (m1 & m2 & m3 & E).
  assert (Hxy : f x <> f y).
  { intros Hf. rewrite map_app in Hnd. apply NoDup_app_remove_l in Hnd.
    cbn [map] in Hnd. inversion Hnd as [| ? ? Hx _]; subst. apply Hx.
    rewrite map_app. apply in_or_app. right. left. congruence. }
  (* positions of the keys decide the order *)
  assert (Hsplit : forall (k : Z) (u1 u2 v1 v2 : list Z),
             (u1 ++ k :: u2 = v1 ++ k :: v2)%list -> NoDup (u1 ++ k :: u2) -> u1 = v1).
  { intros k u1. induction u1 as [| a u1 IH]; intros u2 v1 v2 Eq Hn.
    - destruct v1 as [| b v1]; [reflexivity |]. cbn in Eq. injection Eq as <- Eq.
      exfalso. cbn in Hn. inversion Hn as [| ? ? Hk _]; subst. apply Hk.
      apply in_or_app. right. left. reflexivity.
    - destruct v1 as [| b v1].
      + cbn in Eq. injection Eq as -> Eq. exfalso. cbn in Hn.
        inversion Hn as [| ? ? Hk _]; subst. apply Hk. apply in_or_app. right. left.
        reflexivity.
      + cbn in Eq. injection Eq as <- Eq. f_equal. cbn in Hn.
        inversion Hn as [| ? ? _ Hn']; subst. eapply IH; eassumption. }
  pose proof (f_equal (map f) E) as Em. rewrite !map_app in Em. cbn [map] in Em.
  rewrite !map_app in Em. cbn [map] in Em.
  rewrite map_app in Hnd. cbn [map] in Hnd. rewrite map_app in Hnd. cbn [map] in Hnd.
  (* [f x] stands at one place only *)
  assert (E1 : map f l1 = (map f m1 ++ f y :: map f m2)%list).
  { apply (Hsplit (f x) _ (map f l2 ++ f y :: map f l3)%list _ (map f m3)).
    - rewrite Em, <- app_assoc. reflexivity.
    - exact Hnd. }
  rewrite E1 in Hnd. rewrite <- app_assoc in Hnd. cbn [app] in Hnd.
  apply NoDup_app_remove_l in Hnd. inversion Hnd as [| ? ? Hy _]; subst. apply Hy.
  apply in_or_app. right. right. apply in_or_app. right. left. reflexivity.
Qed.

(** * The dependency sort, on the types *)

Lemma NoDup_map_inj {A B : Type} (f : A -> B) (l : list A) (x y : A) :
  NoDup (map f l) -> In x l -> In y l -> f x = f y -> x = y.
Proof.
  induction l as [| a rest IH]; intros Hnd Hx Hy Hf; [contradiction |].
  cbn [map] in Hnd. inversion Hnd as [| ? ? Ha Hrest]; subst.
  destruct Hx as [-> | Hx], Hy as [-> | Hy]; auto.
  - exfalso. apply Ha. rewrite Hf. apply in_map. exact Hy.
  - exfalso. apply Ha. rewrite <- Hf. apply in_map. exact Hx.
Qed.

Lemma sortTypesByDependency_ok (types out : list PostgresType) :
  NoDup (map id types) -> sortTypesByDependency types = Ok out ->
  exists l,
    out = arraysMovedLast l /\ NoDup (map id l)
    /\ (forall T, In T l <-> In T types)
    /\ (forall T D, In T types -> In D types -> references T D -> id D <> id T ->
                    before D T l).
Proof.
  intros Hnd H. pose proof (sortTypesByDependency_cases types) as C. rewrite H in C.
  destruct C as (st & -> & Hinv & Hsk & Hall).
  assert (Hnode : forall T, In T types ->
            exists n, Map_get Z.eqb (typeMap st) (id T) = Some n /\ type n = T
                      /\ dependencies n = dependencies (newTypeNode T) /\ visited n = true).
  { intros T HT. pose proof (initTypeMap_get types T Hnd HT) as Hg.
    destruct (skeleton_get _ _ _ _ (eq_sym Hsk) Hg) as (n & Hn & Ht & Hd).
    exists n. repeat split; auto.
    specialize (Hall (id T)). unfold isVisited in Hall. rewrite Hn in Hall.
    apply Hall. discriminate. }
  exists (sorted st). split; [apply Array_sort_arraysLast |].
  split; [apply (inv_nodup st Hinv) |]. split.
  - intros T. rewrite (inv_sorted st Hinv). split.
    + intros (n & Hn & _ & Ht).
      destruct (skeleton_get _ _ _ _ Hsk Hn) as (n0 & Hn0 & Ht0 & _).
      apply initTypeMap_get_inv in Hn0. destruct Hn0 as (t & Hin & _ & ->).
      cbn in Ht0. congruence.
    + intros HT. destruct (Hnode T HT) as (n & Hn & Ht & _ & Hv). exists n. auto.
  - intros T D HT HD Href Hne.
    destruct (Hnode T HT) as (n & Hn & Ht & Hd & Hv).
    destruct (Hnode D HD) as (nd & Hnd' & Htd & _).
    rewrite <- Ht, <- Htd.
    apply (inv_before st Hinv (id T) n (id D) nd); auto.
    rewrite Hd. apply newTypeNode_dependencies. split; [exact Href | exact Hne].
Qed.

Lemma edge_dependsOn (types : list PostgresType) (a b : Z) :
  edge (initTypeMap types) a b ->
  exists Ta Tb,
    typeAt (initTypeMap types) a Ta /\ typeAt (initTypeMap types) b Tb
    /\ dependsOn types Ta Tb.
Proof.
  intros (n & Hn & Hd & Hb).
  destruct (Map_get Z.eqb (initTypeMap types) b) as [nb |] eqn:Hnb; [| congruence].
  pose proof (initTypeMap_get_inv _ _ _ Hn) as (Ta & HTa & Ha & ->).
  pose proof (initTypeMap_get_inv _ _ _ Hnb) as (Tb & HTb & Hb' & ->).
  apply newTypeNode_dependencies in Hd. destruct Hd as (Hd & Hne).
  exists Ta, Tb. split; [exists (newTypeNode Ta); auto |].
  split; [exists (newTypeNode Tb); auto |].
  unfold dependsOn, references. subst a b. auto.
Qed.

Lemma typeAt_fun (m : list (Z * TypeNode)) (k : Z) (T T' : PostgresType) :
  typeAt m k T -> typeAt m k T' -> T = T'.
Proof.
  intros (n & Hn & <-) (n' & Hn' & <-). congruence.
Qed.

Lemma reaches_dependsOn (types : list PostgresType) (b c : Z) :
  reaches (initTypeMap types) b c ->
  forall Tb, typeAt (initTypeMap types) b Tb ->
  exists Tc, typeAt (initTypeMap types) c Tc
             /\ Relation_Operators.clos_refl_trans PostgresType (dependsOn types) Tb Tc.
Proof.
  induction 1 as [a | a b c Hedge _ IH]; intros Ta HTa.
  - exists Ta. split; [exact HTa | apply Relation_Operators.rt_refl].
  - destruct (edge_dependsOn _ _ _ Hedge) as (Ta' & Tb & HTa' & HTb & Hdep).
    rewrite (typeAt_fun _ _ _ _ HTa HTa').
    destruct (IH Tb HTb) as (Tc & HTc & Hrt).
    exists Tc. split; [exact HTc |].
    eapply Relation_Operators.rt_trans; [apply Relation_Operators.rt_step; exact Hdep | exact Hrt].
Qed.

Lemma clos_trans_rt {A : Type} (R : A -> A -> Prop) (x y z : A) :
  Relation_Operators.clos_trans A R x y ->
  Relation_Operators.clos_refl_trans A R y z ->
  Relation_Operators.clos_trans A R x z.
Proof.
  intros Hxy Hyz. revert x Hxy. induction Hyz as [y z H | y | y w z _ IH1 _ IH2]; intros x Hxy.
  - eapply Relation_Operators.t_trans; [exact Hxy | apply Relation_Operators.t_step; exact H].
  - exact Hxy.
  - apply IH2, IH1, Hxy.
Qed.

Lemma onCycle_dependsOn (types : list PostgresType) (j : Z) (node : TypeNode) :
  Map_get Z.eqb (initTypeMap types) j = Some node ->
  onCycle (initTypeMap types) j ->
  In (type node) types
  /\ Relation_Operators.clos_trans PostgresType (dependsOn types) (type node) (type node).
Proof.
  intros Hn (b & Hedge & Hreach).
  destruct (edge_dependsOn _ _ _ Hedge) as (Tj & Tb & HTj & HTb & Hdep).
  assert (Tj = type node) as -> by (eapply typeAt_fun; [exact HTj | exists node; auto]).
  split; [apply Hdep |].
  destruct (reaches_dependsOn _ _ _ Hreach Tb HTb) as (Tj' & HTj' & Hrt).
  rewrite (typeAt_fun _ _ _ _ HTj' HTj) in Hrt.
  eapply clos_trans_rt; [apply Relation_Operators.t_step; exact Hdep | exact Hrt].
Qed.

Lemma sortTypesByDependency_throw (types : list PostgresType) (e : exn) :
  sortTypesByDependency types = Throw e ->
  exists T, In T types /\ e = circularDependencyOf T
            /\ Relation_Operators.clos_trans PostgresType (dependsOn types) T T.
Proof.
  intros H. pose proof (sortTypesByDependency_cases types) as C. rewrite H in C.
  destruct C as (j & node & Hn & -> & Hcyc).
  destruct (onCycle_dependsOn _ _ _ Hn Hcyc) as (Hin & Hct).
  exists (type node). auto.
Qed.

Lemma sortTypesByDependency_fuel (types : list PostgresType) :
  sortTypesByDependency types <> OutOfFuel.
Proof.
  intros H. pose proof (sortTypesByDependency_cases types) as C. rewrite H in C. exact C.
Qed.

Lemma acyclic_by_rank (types : list PostgresType) (rank : PostgresType -> Z) :
  (forall T D, dependsOn types T D -> rank D < rank T) -> acyclic types.
Proof.
  intros Hrank T Hcyc.
  assert (H : forall x y,
             Relation_Operators.clos_trans PostgresType (dependsOn types) x y ->
             rank y < rank x).
  { induction 1 as [x y Hxy | x y z _ IH1 _ IH2]; [apply Hrank; exact Hxy | lia]. }
  specialize (H T T Hcyc). lia.
Qed.

(** C1, as stated, fails where a composite type has an attribute of an
    array type: the final sort moves the array type behind the type that
    refers to it.  It also fails on two types that refer to each other,
    where the sorter throws; on an array type of an array-marked base,
    which the sort leaves where they are; and on two types of one id, of
    which the map keeps the second. *)
Lemma sortTypesByDependency_array_attribute_counterexample :
  (sortTypesByDependency [ex_post; ex_tags] = Ok [ex_post; ex_tags]
   /\ In ex_post [ex_post; ex_tags] /\ In ex_tags [ex_post; ex_tags]
   /\ references ex_post ex_tags /\ ex_tags <> ex_post
   /\ ~ before ex_tags ex_post [ex_post; ex_tags])
  /\ sortTypesByDependency [ex_node; ex_edge] = Throw (circularDependencyOf ex_node)
  /\ (sortTypesByDependency [plainType 1 "__x"; plainType 2 "_x"]
      = Ok [plainType 1 "__x"; plainType 2 "_x"]
      /\ name (plainType 2 "_x") = slice1 (name (plainType 1 "__x")))
  /\ sortTypesByDependency [plainType 1 "a"; plainType 1 "b"] = Ok [plainType 1 "b"].
Proof.
  split; [| repeat split; reflexivity].
  split; [reflexivity |].
  split; [left; reflexivity |].
  split; [right; left; reflexivity |].
  split; [left; reflexivity |].
  split; [discriminate |].
  intros H. apply (before_antisym id ex_post ex_tags [ex_post; ex_tags]).
  - repeat constructor; cbn; intuition discriminate.
  - exists [], [], []. reflexivity.
  - exact H.
Qed.

(** On types with pairwise distinct ids and no cycle of attribute
    references the sorter returns; see [sortTypesByDependency_ok] for the
    list it returns. *)
Lemma sortTypesByDependency_returns (types : list PostgresType) :
  acyclic types -> exists out, sortTypesByDependency types = Ok out.
Proof.
  intros Hacyc. destruct (sortTypesByDependency types) as [out | e |] eqn:H.
  - exists out. reflexivity.
  - exfalso. apply sortTypesByDependency_throw in H. destruct H as (T & _ & _ & Hcyc).
    exact (Hacyc T Hcyc).
  - exfalso. exact (sortTypesByDependency_fuel types H).
Qed.

Lemma sortTypesByDependency_permutation (types out : list PostgresType) :
  NoDup (map id types) -> sortTypesByDependency types = Ok out -> Permutation out types.
Proof.
  intros Hnd H.
  destruct (sortTypesByDependency_ok _ _ Hnd H) as (l & -> & Hndl & Hin & _).
  eapply Permutation_trans; [apply arraysMovedLast_Permutation |].
  apply NoDup_Permutation; [| | exact Hin]; eapply NoDup_map_inv; eassumption.
Qed.

(** C1, amended.  For types with pairwise distinct ids and no cycle of
    attribute references, [sortTypesByDependency] returns the types of
    the list, each once; a type [D] that an attribute of another type [T]
    refers to stands strictly before [T], unless [D] is array-marked and
    [T] is not; and an array-marked type stands strictly after its base
    type when the base type is in the list and is not array-marked. *)
Theorem sortTypesByDependency_order (types : list PostgresType) :
  NoDup (map id types) ->
  acyclic types ->
  exists out,
    sortTypesByDependency types = Ok out
    /\ Permutation out types
    /\ (forall T D,
          In T types -> In D types -> references T D -> D <> T ->
          (isArrayType D = true -> isArrayType T = true) ->
          before D T out)
    /\ (forall A B,
          In A types -> In B types -> isArrayType A = true ->
          name B = slice1 (name A) -> isArrayType B = false ->
          before B A out).
Proof.
  intros Hnd Hacyc.
  destruct (sortTypesByDependency_returns types Hacyc) as (out & H).
  exists out. split; [exact H |].
  split; [apply sortTypesByDependency_permutation; assumption |].
  destruct (sortTypesByDependency_ok _ _ Hnd H) as (l & -> & Hndl & Hin & Hbefore).
  split.
  - intros T D HT HD Href Hne Harr. apply before_arraysMovedLast; [| exact Harr].
    apply Hbefore; auto. intros Hid. apply Hne.
    apply (NoDup_map_inj id types); auto.
  - intros A B HA HB Ha _ Hb. apply plain_before_array; auto; apply Hin; assumption.
Qed.

Lemma sortTypesByDependency_order_witness :
  exists out,
    sortTypesByDependency ex_catalog = Ok out
    /\ Permutation out ex_catalog
    /\ (forall T D,
          In T ex_catalog -> In D ex_catalog -> references T D -> D <> T ->
          (isArrayType D = true -> isArrayType T = true) ->
          before D T out)
    /\ (forall A B,
          In A ex_catalog -> In B ex_catalog -> isArrayType A = true ->
          name B = slice1 (name A) -> isArrayType B = false ->
          before B A out).
Proof.
  apply (sortTypesByDependency_order ex_catalog).
  - repeat constructor; cbn; intuition discriminate.
  - apply (acyclic_by_rank ex_catalog id).
    intros T D (HT & HD & Href & Hne). unfold references in Href.
    cbn in HT. destruct HT as [<- | [<- | [<- | [<- | []]]]]; cbn in Href;
      try contradiction.
    destruct Href as [Href | [Href | []]]; cbn in Hne |- *; lia.
Defined.

(** Two types that refer to each other make the sorter throw. *)
Lemma mutual_reference_sort (types : list PostgresType) (A B : PostgresType) :
  NoDup (map id types) -> In A types -> In B types -> A <> B ->
  references A B -> references B A ->
  exists T,
    In T types
    /\ Relation_Operators.clos_trans PostgresType (dependsOn types) T T
    /\ sortTypesByDependency types = Throw (circularDependencyOf T).
Proof.
  intros Hnd HA HB Hne HAB HBA.
  assert (Hid : id B <> id A).
  { intros Hid. apply Hne. symmetry. apply (NoDup_map_inj id types); auto. }
  destruct (sortTypesByDependency types) as [out | e |] eqn:H.
  - exfalso.
    destruct (sortTypesByDependency_ok _ _ Hnd H) as (l & _ & Hndl & _ & Hbefore).
    apply (before_antisym id A B l Hndl); apply Hbefore; auto.
  - apply sortTypesByDependency_throw in H. destruct H as (T & HT & -> & Hcyc).
    exists T. auto.
  - exfalso. exact (sortTypesByDependency_fuel types H).
Qed.

(** * The closure of the required types *)

Section Closure.
Variable allTypes : list PostgresType.
Local Abbreviation byId := (typesById allTypes).
Local Abbreviation byName := (typesByName allTypes).

Lemma typesById_get (i : Z) (T : PostgresType) :
  Map_get Z.eqb byId i = Some T -> In T allTypes /\ id T = i.
Proof.
  intros H. apply (fromList_get Z.eqb Z.eqb_eq id (fun t => t)) in H.
  destruct H as [(t & Ht & Hk & ->) | H]; [auto | discriminate].
Qed.

Lemma typesByName_get (n : string) (T : PostgresType) :
  Map_get String.eqb byName n = Some T -> In T allTypes /\ name T = n.
Proof.
  intros H. apply (fromList_get String.eqb String.eqb_eq name (fun t => t)) in H.
  destruct H as [(t & Ht & Hk & ->) | H]; [auto | discriminate].
Qed.

Lemma typesById_present (T : PostgresType) :
  In T allTypes -> Map_get Z.eqb byId (id T) <> None.
Proof.
  intros H. apply (fromList_present Z.eqb Z.eqb_eq id (fun t => t)).
  right. exists T. auto.
Qed.

Lemma collected_refl (roots : Z -> Prop) (S : list Z) : collected allTypes roots S S.
Proof.
  split; [apply incl_refl |]. split; [auto |]. intros v Hv Hn. contradiction.
Qed.

Lemma collected_trans (roots : Z -> Prop) (S1 S2 S3 : list Z) :
  collected allTypes roots S1 S2 -> collected allTypes roots S2 S3 ->
  collected allTypes roots S1 S3.
Proof.
  intros (I1 & N1 & C1) (I2 & N2 & C2).
  split; [eapply incl_tran; eassumption |]. split; [auto |].
  intros v Hv Hn. destruct (in_dec Z.eq_dec v S2) as [Hin | Hout].
  - destruct (C1 v Hin Hn) as (Hval & Hr & Hw). repeat split; auto.
  - apply C2; assumption.
Qed.

Lemma collected_weaken (roots roots' : Z -> Prop) (S S' : list Z) :
  (forall r, roots r -> roots' r) ->
  collected allTypes roots S S' -> collected allTypes roots' S S'.
Proof.
  intros Hr (I & N & C). split; [exact I |]. split; [exact N |].
  intros v Hv Hn. destruct (C v Hv Hn) as (Hval & (r & Hroot & Hreach) & Hw).
  repeat split; auto. exists r. auto.
Qed.

Lemma collectDependencies_collected (fuel : nat) :
  forall i S S',
    collectDependencies byId byName fuel i S = Ok S' ->
    collected allTypes (eq i) S S'
    /\ (Map_get Z.eqb byId i <> None -> In i S').
Proof.
  induction fuel as [| fuel IH]; intros i S S' H; [discriminate |].
  cbn [collectDependencies] in H.
  destruct (Set_has S i) eqn:Hhas.
  { injection H as <-. split; [apply collected_refl |]. intros _.
    apply Set_has_In. exact Hhas. }
  assert (HiS : ~ In i S) by (rewrite <- Set_has_In; congruence).
  destruct (Map_get Z.eqb byId i) as [t |] eqn:Ht.
  2:{ injection H as <-. split; [apply collected_refl | congruence]. }
  set (S1 := Set_add S i) in *.
  assert (HS1 : forall x, In x S1 <-> In x S \/ x = i) by (intros x; apply Set_add_In).
  destruct (forEachM (collectDependencies byId byName fuel) (map type_id (attributes t)) S1)
    as [S2 | e |] eqn:Hloop; try discriminate.
  cbn [bind] in H.
  destruct (forEachM_ok_each (collectDependencies byId byName fuel) (fun _ => True)
              (collected allTypes (fun r => In r (map type_id (attributes t))))
              (fun x s => Map_get Z.eqb byId x <> None -> In x s)
              (map type_id (attributes t)) (collected_refl _) (collected_trans _))
    with (s := S1) (s' := S2) as (_ & C12 & Hattrs); auto.
  { intros x s s' HQ (I & _) Hx. apply I. auto. }
  { intros x s s' Hx _ Hc. destruct (IH x s s' Hc) as (C & Hin).
    split; [exact I |]. split; [| exact Hin].
    eapply collected_weaken; [| exact C]. intros r <-. exact Hx. }
  (* the step from [i] to an attribute type, and to the base type *)
  assert (Hstep : forall w, In w (map type_id (attributes t)) -> requires allTypes i w).
  { intros w Hw. exists t. split; [exact Ht | left; exact Hw]. }
  (* the set after the attributes and the base type *)
  assert (Hfinal : forall S3,
             collected allTypes (fun r => requires allTypes i r) S2 S3 ->
             (forall w, requires allTypes i w ->
                        Map_get Z.eqb byId w <> None -> In w S3) ->
             collected allTypes (eq i) S S3 /\ (Some t <> None -> In i S3)).
  { intros S3 (I23 & N23 & C23) Hsucc.
    destruct C12 as (I12 & N12 & C12).
    assert (HiS3 : In i S3) by (apply I23, I12, HS1; auto).
    split; [| auto]. split; [| split].
    - intros x Hx. apply I23, I12, HS1. auto.
    - intros HN. apply N23, N12. unfold S1, Set_add. rewrite Hhas.
      apply NoDup_snoc; assumption.
    - intros v Hv Hn. destruct (Z.eq_dec v i) as [-> | Hvi].
      + split; [congruence |].
        split; [exists i; split; [reflexivity | apply Relation_Operators.rt_refl] |].
        exact Hsucc.
      + assert (Hn1 : ~ In v S1) by (rewrite HS1; tauto).
        destruct (in_dec Z.eq_dec v S2) as [Hin2 | Hout2].
        * destruct (C12 v Hin2 Hn1) as (Hval & (r & Hr & Hreach) & Hw).
          split; [exact Hval |]. split; [| intros w Hvw Hwv; apply I23; auto].
          exists i. split; [reflexivity |].
          eapply Relation_Operators.rt_trans;
            [apply Relation_Operators.rt_step, Hstep, Hr | exact Hreach].
        * destruct (C23 v Hv Hout2) as (Hval & (r & Hr & Hreach) & Hw).
          split; [exact Hval |]. split; [| exact Hw].
          exists i. split; [reflexivity |].
          eapply Relation_Operators.rt_trans;
            [apply Relation_Operators.rt_step, Hr | exact Hreach]. }
  destruct (startsWithUnderscore (name t)) eqn:Harr.
  - destruct (Map_get String.eqb byName (slice1 (name t))) as [b |] eqn:Hb.
    + destruct (IH _ _ _ H) as (C & Hin). apply Hfinal.
      * eapply collected_weaken; [| exact C]. intros r <-.
        exists t. split; [exact Ht |]. right. split; [exact Harr |]. exists b. auto.
      * intros w (t' & Ht' & Hw) Hval. unfold typeWithId in Ht'.
        assert (t' = t) as -> by congruence.
        destruct Hw as [Hw | (_ & b' & Hb' & <-)].
        -- destruct C as (I & _). apply I, Hattrs; auto.
        -- unfold typeNamed in Hb'.
           assert (b' = b) as -> by congruence. apply Hin. exact Hval.
    + injection H as <-. apply Hfinal; [apply collected_refl |].
      intros w (t' & Ht' & Hw) Hval. unfold typeWithId in Ht'.
      assert (t' = t) as -> by congruence.
      destruct Hw as [Hw | (_ & b' & Hb' & _)]; [apply Hattrs; auto |].
      unfold typeNamed in Hb'. congruence.
  - injection H as <-. apply Hfinal; [apply collected_refl |].
    intros w (t' & Ht' & Hw) Hval. unfold typeWithId in Ht'.
    assert (t' = t) as -> by congruence.
    destruct Hw as [Hw | (Harr' & _)]; [apply Hattrs; auto |].
    unfold isArrayType in Harr'. congruence.
Qed.


Lemma collectDependencies_no_throw (fuel : nat) :
  forall i S e, collectDependencies byId byName fuel i S <> Throw e.
Proof.
  induction fuel as [| fuel IH]; intros i S e; [discriminate |].
  cbn [collectDependencies].
  destruct (Set_has S i); [discriminate |].
  destruct (Map_get Z.eqb byId i) as [t |]; [| discriminate].
  destruct (forEachM (collectDependencies byId byName fuel) (map type_id (attributes t))
              (Set_add S i)) as [S2 | e' |] eqn:Hloop; cbn [bind].
  - destruct (startsWithUnderscore (name t)); [| discriminate].
    destruct (Map_get String.eqb byName (slice1 (name t))); [apply IH | discriminate].
  - exfalso.
    destruct (forEachM_not_ok (collectDependencies byId byName fuel) (fun _ => True)
                (map type_id (attributes t))) with (s := Set_add S i) (r := @Throw (list Z) e')
      as (x & s1 & _ & _ & Hx); auto; [discriminate |].
    exact (IH _ _ _ Hx).
  - discriminate.
Qed.

(** The ids of the catalog that are not in the set yet bound the depth of
    the recursion. *)
Lemma collectDependencies_fuel (fuel : nat) :
  forall i S,
    NoDup S -> incl S (Map_keys byId) ->
    (List.length byId - List.length S < fuel)%nat ->
    collectDependencies byId byName fuel i S <> OutOfFuel.
Proof.
  assert (Hlen : forall S, NoDup S -> incl S (Map_keys byId) ->
                           (List.length S <= List.length byId)%nat).
  { intros S HN HI. pose proof (NoDup_incl_length HN HI) as H.
    unfold Map_keys in H. rewrite length_map in H. exact H. }
  assert (Hkeep : forall fuel x s s',
             collectDependencies byId byName fuel x s = Ok s' ->
             NoDup s /\ incl s (Map_keys byId) ->
             (NoDup s' /\ incl s' (Map_keys byId))
             /\ (List.length s <= List.length s')%nat).
  { intros fuel' x s s' Hc (HN & HI).
    destruct (collectDependencies_collected _ _ _ _ Hc) as ((I & N & C) & _).
    assert (HI' : incl s' (Map_keys byId)).
    { intros v Hv. destruct (in_dec Z.eq_dec v s) as [Hin | Hout]; [auto |].
      apply (Map_keys_get Z.eqb Z.eqb_eq). apply (C v Hv Hout). }
    repeat split; auto. apply NoDup_incl_length; auto. }
  induction fuel as [| fuel IH]; intros i S HN HI Hlt; [lia |].
  cbn [collectDependencies].
  destruct (Set_has S i) eqn:Hhas; [discriminate |].
  assert (HiS : ~ In i S) by (rewrite <- Set_has_In; congruence).
  destruct (Map_get Z.eqb byId i) as [t |] eqn:Ht; [| discriminate].
  set (S1 := Set_add S i).
  assert (HN1 : NoDup S1).
  { unfold S1, Set_add. rewrite Hhas. apply NoDup_snoc; assumption. }
  assert (HI1 : incl S1 (Map_keys byId)).
  { intros v Hv. apply Set_add_In in Hv. destruct Hv as [Hv | ->]; [auto |].
    apply (Map_keys_get Z.eqb Z.eqb_eq). congruence. }
  assert (HL1 : List.length S1 = Datatypes.S (List.length S)).
  { unfold S1, Set_add. rewrite Hhas, length_app. cbn. lia. }
  pose proof (Hlen S1 HN1 HI1) as Hle1.
  destruct (forEachM (collectDependencies byId byName fuel) (map type_id (attributes t)) S1)
    as [S2 | e' |] eqn:Hloop; cbn [bind].
  - destruct (startsWithUnderscore (name t)); [| discriminate].
    destruct (Map_get String.eqb byName (slice1 (name t))) as [b |]; [| discriminate].
    destruct (forEachM_ok_each (collectDependencies byId byName fuel)
                (fun s => NoDup s /\ incl s (Map_keys byId))
                (fun s s' => (List.length s <= List.length s')%nat)
                (fun _ _ => True) (map type_id (attributes t)))
      with (s := S1) (s' := S2) as ((HN2 & HI2) & HL2 & _); auto; try lia.
    { intros x s s' _ Hs Hc. destruct (Hkeep _ _ _ _ Hc Hs). auto. }
    apply IH; auto. lia.
  - discriminate.
  - exfalso.
    destruct (forEachM_not_ok (collectDependencies byId byName fuel)
                (fun s => (NoDup s /\ incl s (Map_keys byId))
                          /\ (List.length S1 <= List.length s)%nat)
                (map type_id (attributes t))) with (s := S1) (r := @OutOfFuel (list Z))
      as (x & s1 & _ & ((HNs & HIs) & HLs) & Hx); auto; [| discriminate |].
    { intros x s s' _ (Hs & HL) Hc. destruct (Hkeep _ _ _ _ Hc Hs). split; [auto | lia]. }
    revert Hx. apply IH; auto. lia.
Qed.

(** The ids one column adds to the set of the directly referenced ids. *)
Lemma addDirectTypes_In (c : PostgresColumn) (ids : list Z) (lines : list logLine) (i : Z) :
  In i (fst (addDirectTypes byName c (ids, lines)))
  <-> In i ids
      \/ exists T,
           id T = i
           /\ (typeNamed allTypes (format c) T
               \/ (startsWithUnderscore (format c) = true
                   /\ typeNamed allTypes (slice1 (format c)) T)).
Proof.
  unfold addDirectTypes, typeNamed.
  destruct (Map_get String.eqb byName (format c)) as [t |] eqn:Hf;
    destruct (startsWithUnderscore (format c)) eqn:Hu;
    destruct (Map_get String.eqb byName (slice1 (format c))) as [b |] eqn:Hb;
    cbn [fst]; rewrite ?Set_add_In; split.
  all: try (intros [[H | ->] | ->];
            [left; exact H | right; exists t; auto | right; exists b; auto]).
  all: try (intros [H | ->]; [left; exact H | right; exists t; auto]; fail).
  all: try (intros [H | ->]; [left; exact H | right; exists b; auto]; fail).
  all: try (intros H; left; exact H).
  all: intros [H | (T & <- & [HT | (Hu' & HT)])]; auto; try discriminate;
    injection HT as <-; auto.
Qed.

(** The set of the directly referenced ids. *)
Lemma directTypes_In (columns : list PostgresColumn) (i : Z) :
  In i (fst (directTypes byName columns)) <-> directlyReferenced allTypes columns i.
Proof.
  unfold directTypes, directlyReferenced.
  assert (H : forall acc,
             In i (fst (fold_left (fun acc c => addDirectTypes byName c acc) columns acc))
             <-> In i (fst acc)
                 \/ exists c T,
                      In c columns /\ id T = i
                      /\ (typeNamed allTypes (format c) T
                          \/ (startsWithUnderscore (format c) = true
                              /\ typeNamed allTypes (slice1 (format c)) T))).
  { induction columns as [| c rest IH]; intros acc; cbn [fold_left].
    - split; [auto |]. intros [H | (c & T & [] & _)]. exact H.
    - rewrite IH. clear IH. destruct acc as [ids lines]. rewrite addDirectTypes_In.
      cbn [fst]. split.
      + intros [[H | (T & HT & Hcase)] | (c' & T & Hc' & HT & Hcase)].
        * left. exact H.
        * right. exists c, T. split; [left; reflexivity | auto].
        * right. exists c', T. split; [right; exact Hc' | auto].
      + intros [H | (c' & T & [<- | Hc'] & HT & Hcase)].
        * left. left. exact H.
        * left. right. exists T. auto.
        * right. exists c', T. auto. }
  rewrite H. cbn. tauto.
Qed.


Lemma mapM_getById (ids : list Z) :
  (forall i, In i ids -> Map_get Z.eqb byId i <> None) ->
  exists ts,
    mapM (getById byId) ids = Ok ts
    /\ map id ts = ids
    /\ forall T, In T ts <-> exists i, In i ids /\ Map_get Z.eqb byId i = Some T.
Proof.
  induction ids as [| i rest IH]; intros Hval.
  - exists []. split; [reflexivity |]. split; [reflexivity |].
    intros T. split; [intros [] | intros (i & [] & _)].
  - destruct IH as (ts & Hts & Hids & Hin); [intros j Hj; apply Hval; right; exact Hj |].
    destruct (Map_get Z.eqb byId i) as [t |] eqn:Ht;
      [| exfalso; apply (Hval i); [left; reflexivity | exact Ht]].
    exists (t :: ts). cbn [mapM]. unfold getById at 1. rewrite Ht. cbn [bind].
    rewrite Hts. cbn [bind]. split; [reflexivity |]. split.
    + cbn [map]. rewrite Hids. f_equal. apply (typesById_get i t Ht).
    + intros T. cbn [In]. rewrite Hin. split.
      * intros [<- | (j & Hj & HT)]; [exists i; auto | exists j; auto].
      * intros (j & [Hj | Hj] & HT); [left; subst j; rewrite Ht in HT; congruence
                                      | right; exists j; auto].
Qed.

(** A set that holds the required ids of all its ids holds what they
    reach. *)
Lemma collected_closed (roots : Z -> Prop) (ids : list Z) (r i : Z) :
  collected allTypes roots [] ids ->
  clos_refl_trans Z (requires allTypes) r i ->
  In r ids -> Map_get Z.eqb byId i <> None -> In i ids.
Proof.
  intros (_ & _ & C) Hreach. apply clos_rt_rt1n in Hreach.
  induction Hreach as [r | r y i Hstep Hrest IH]; intros Hr Hval; [exact Hr |].
  apply IH; [| exact Hval].
  destruct (C r Hr (fun H => H)) as (_ & _ & Hw). apply Hw; [exact Hstep |].
  destruct Hrest as [| z i (T & HT & _) _]; [exact Hval |].
  unfold typeWithId in HT. rewrite HT. discriminate.
Qed.

(** The list handed to the sorter: the function returns, and the list
    holds, once each, the types of the closure. *)
Lemma requiredTypesOf_closure (columns : list PostgresColumn) :
  exists required,
    requiredTypesOf allTypes columns = Ok required
    /\ NoDup (map id required)
    /\ forall T, In T required <-> inClosure allTypes columns T.
Proof.
  unfold requiredTypesOf, requiredTypes.
  set (direct := fst (directTypes byName columns)).
  set (fuel := S (List.length byId)).
  assert (Hkeep : forall x s s',
             In x direct -> NoDup s /\ incl s (Map_keys byId) ->
             collectDependencies byId byName fuel x s = Ok s' ->
             NoDup s' /\ incl s' (Map_keys byId)).
  { intros x s s' _ (HN & HI) Hc.
    destruct (collectDependencies_collected _ _ _ _ Hc) as ((I & N & C) & _).
    split; [auto |]. intros v Hv.
    destruct (in_dec Z.eq_dec v s) as [Hin | Hout]; [auto |].
    apply (Map_keys_get Z.eqb Z.eqb_eq). apply (C v Hv Hout). }
  assert (Hstart : NoDup (@nil Z) /\ incl (@nil Z) (Map_keys byId)).
  { split; [constructor | intros v []]. }
  destruct (forEachM (collectDependencies byId byName fuel) direct []) as [ids | e |] eqn:Hloop.
  - destruct (forEachM_ok_each (collectDependencies byId byName fuel) (fun _ => True)
                (collected allTypes (fun r => In r direct))
                (fun x s => Map_get Z.eqb byId x <> None -> In x s)
                direct (collected_refl _) (collected_trans _))
      with (s := @nil Z) (s' := ids) as (_ & C & Hroots); auto.
    { intros x s s' HQ (I & _) Hx. apply I. auto. }
    { intros x s s' Hx _ Hc. destruct (collectDependencies_collected _ _ _ _ Hc) as (C & Hin).
      split; [exact I |]. split; [| exact Hin].
      eapply collected_weaken; [| exact C]. intros r <-. exact Hx. }
    pose proof C as (_ & HN & Hnew).
    destruct (mapM_getById ids) as (ts & Hts & Hids & Hin).
    { intros i Hi. apply (Hnew i Hi). intros []. }
    exists ts. cbn [bind]. split; [exact Hts |]. split.
    + rewrite Hids. apply HN. constructor.
    + intros T. rewrite Hin. unfold inClosure. split.
      * intros (i & Hi & HT). destruct (Hnew i Hi (fun H => H)) as (_ & (r & Hr & Hreach) & _).
        exists r, i. split; [apply directTypes_In; exact Hr | auto].
      * intros (r & i & Hdirect & Hreach & HT). exists i. split; [| exact HT].
        apply (collected_closed _ ids r i C Hreach); [| unfold typeWithId in HT; congruence].
        apply Hroots; [apply directTypes_In; exact Hdirect |].
        destruct Hdirect as (c & T' & _ & <- & Hnamed).
        apply typesById_present.
        destruct Hnamed as [Hn | (_ & Hn)]; apply (typesByName_get _ _ Hn).
  - exfalso.
    destruct (forEachM_not_ok (collectDependencies byId byName fuel)
                (fun s => NoDup s /\ incl s (Map_keys byId)) direct Hkeep [] (Throw e))
      as (x & s1 & _ & _ & Hx); auto; [discriminate |].
    exact (collectDependencies_no_throw _ _ _ _ Hx).
  - exfalso.
    destruct (forEachM_not_ok (collectDependencies byId byName fuel)
                (fun s => NoDup s /\ incl s (Map_keys byId)) direct Hkeep [] OutOfFuel)
      as (x & s1 & _ & (HN & HI) & Hx); auto; [discriminate |].
    revert Hx. apply collectDependencies_fuel; auto. subst fuel. lia.
Qed.

End Closure.

Lemma getRequiredTypes_sorts (allTypes : list PostgresType) (columns : list PostgresColumn) :
  snd (getRequiredTypes allTypes columns)
  = bind (requiredTypesOf allTypes columns) sortTypesByDependency.
Proof.
  unfold getRequiredTypes, requiredTypesOf.
  destruct (directTypes (typesByName allTypes) columns) as [ids lines]. reflexivity.
Qed.

(** In a catalog whose types differ in their ids and in their names, an
    id or a name resolves to the type of the catalog that bears it. *)
Lemma typeWithId_In (allTypes : list PostgresType) (i : Z) (T : PostgresType) :
  NoDup (map id allTypes) ->
  (typeWithId allTypes i T <-> In T allTypes /\ id T = i).
Proof.
  intros Hnd. unfold typeWithId. split.
  - apply typesById_get.
  - intros (HT & <-). apply (fromList_get_nodup Z.eqb Z.eqb_eq id (fun t => t)); assumption.
Qed.

Lemma typeNamed_In (allTypes : list PostgresType) (n : string) (T : PostgresType) :
  NoDup (map name allTypes) ->
  (typeNamed allTypes n T <-> In T allTypes /\ name T = n).
Proof.
  intros Hnd. unfold typeNamed. split.
  - apply typesByName_get.
  - intros (HT & <-).
    apply (fromList_get_nodup String.eqb String.eqb_eq name (fun t => t)); assumption.
Qed.

(** What [getRequiredTypes] returns is the list of the required types,
    sorted. *)
Lemma getRequiredTypes_required (allTypes : list PostgresType)
    (columns : list PostgresColumn) :
  exists required,
    requiredTypesOf allTypes columns = Ok required
    /\ NoDup (map id required)
    /\ (forall T, In T required <-> inClosure allTypes columns T)
    /\ snd (getRequiredTypes allTypes columns) = sortTypesByDependency required.
Proof.
  destruct (requiredTypesOf_closure allTypes columns) as (required & Hreq & Hnd & Hin).
  exists required. split; [exact Hreq |]. split; [exact Hnd |]. split; [exact Hin |].
  rewrite getRequiredTypes_sorts, Hreq. reflexivity.
Qed.

Lemma getRequiredTypes_returned (allTypes : list PostgresType)
    (columns : list PostgresColumn) (out : list PostgresType) :
  snd (getRequiredTypes allTypes columns) = Ok out ->
  NoDup out /\ forall T, In T out <-> inClosure allTypes columns T.
Proof.
  destruct (getRequiredTypes_required allTypes columns) as (required & _ & Hnd & Hin & E).
  rewrite E. intros Hout.
  pose proof (sortTypesByDependency_permutation _ _ Hnd Hout) as P.
  split.
  - eapply Permutation_NoDup; [symmetry; exact P |]. eapply NoDup_map_inv. exact Hnd.
  - intros T. rewrite <- Hin. split; apply Permutation_in; [| symmetry]; exact P.
Qed.


(** * Circular dependencies *)

Lemma registerRequiredTypes_throw (allTypes : list PostgresType)
    (columns : list PostgresColumn) (e : exn) :
  snd (getRequiredTypes allTypes columns) = Throw e ->
  (forall w,
      fst (Part000.registerRequiredTypes allTypes columns w) = Throw e
      /\ Part000.ptdMap (snd (Part000.registerRequiredTypes allTypes columns w))
         = Part000.ptdMap w)
  /\ (forall JSON_parse w,
         fst (DartTs.registerRequiredTypes JSON_parse allTypes columns w) = Throw e
         /\ DartTs.ptdMap (snd (DartTs.registerRequiredTypes JSON_parse allTypes columns w))
            = DartTs.ptdMap w).
Proof.
  intros H. unfold Part000.registerRequiredTypes, DartTs.registerRequiredTypes.
  destruct (getRequiredTypes allTypes columns) as [lines r]. cbn [snd] in H. subst r.
  split; intros; split; reflexivity.
Qed.

(** C2.  Two distinct types that refer to each other through an
    attribute make the generator throw the circular-dependency error,
    which names a type that lies on a cycle of attribute references:
    [sortTypesByDependency] throws it on every list with pairwise
    distinct ids that holds the two types, so it returns no list;
    [getRequiredTypes] throws it whenever the two types are among the
    types the columns require, and so does the part of [apply] that
    registers the required types, which leaves the registry as it was. *)
Theorem mutual_reference_throws (A B : PostgresType) :
  A <> B -> references A B -> references B A ->
  (forall types,
      NoDup (map id types) -> In A types -> In B types ->
      exists T,
        In T types
        /\ clos_trans PostgresType (dependsOn types) T T
        /\ sortTypesByDependency types = Throw (circularDependencyOf T))
  /\ (forall allTypes columns,
        inClosure allTypes columns A -> inClosure allTypes columns B ->
        exists T,
          inClosure allTypes columns T
          /\ snd (getRequiredTypes allTypes columns) = Throw (circularDependencyOf T)
          /\ (forall w,
                fst (Part000.registerRequiredTypes allTypes columns w)
                = Throw (circularDependencyOf T)
                /\ Part000.ptdMap (snd (Part000.registerRequiredTypes allTypes columns w))
                   = Part000.ptdMap w)
          /\ (forall JSON_parse w,
                fst (DartTs.registerRequiredTypes JSON_parse allTypes columns w)
                = Throw (circularDependencyOf T)
                /\ DartTs.ptdMap
                     (snd (DartTs.registerRequiredTypes JSON_parse allTypes columns w))
                   = DartTs.ptdMap w)).
Proof.
  intros Hne HAB HBA. split.
  - intros types Hnd HA HB. apply (mutual_reference_sort types A B); assumption.
  - intros allTypes columns HA HB.
    destruct (getRequiredTypes_required allTypes columns)
      as (required & _ & Hnd & Hin & E).
    destruct (mutual_reference_sort required A B) as (T & HT & _ & Hthrow); auto;
      try (apply Hin; assumption).
    exists T. split; [apply Hin; exact HT |].
    rewrite <- E in Hthrow. split; [exact Hthrow |].
    apply registerRequiredTypes_throw. exact Hthrow.
Qed.

Lemma mutual_reference_throws_witness :
  exists T,
    In T [ex_status; ex_node; ex_edge]
    /\ clos_trans PostgresType (dependsOn [ex_status; ex_node; ex_edge]) T T
    /\ sortTypesByDependency [ex_status; ex_node; ex_edge] = Throw (circularDependencyOf T).
Proof.
  apply (mutual_reference_throws ex_node ex_edge).
  - discriminate.
  - left. reflexivity.
  - left. reflexivity.
  - repeat constructor; cbn; intuition discriminate.
  - right. left. reflexivity.
  - right. right. left. reflexivity.
Defined.

(** * The classes of [DartType] *)

(** C8.  In both revisions, wrapping in [NullDartType] twice builds the
    object that wrapping once builds, so the type name and the decode
    expression of the two are the same. *)
Theorem NullDartType_idempotent :
  (forall (X : DartTs.DartType) (p : string),
      DartTs.NullDartType (DartTs.NullDartType X) = DartTs.NullDartType X
      /\ DartTs.generateType (DartTs.NullDartType (DartTs.NullDartType X))
         = DartTs.generateType (DartTs.NullDartType X)
      /\ DartTs.generateJsonDecoding (DartTs.NullDartType (DartTs.NullDartType X)) p
         = DartTs.generateJsonDecoding (DartTs.NullDartType X) p)
  /\ (forall (X : Part000.DartType) (p : string),
        Part000.NullDartType (Part000.NullDartType X) = Part000.NullDartType X
        /\ Part000.generateType (Part000.NullDartType (Part000.NullDartType X))
           = Part000.generateType (Part000.NullDartType X)
        /\ Part000.generateJsonDecoding (Part000.NullDartType (Part000.NullDartType X)) p
           = Part000.generateJsonDecoding (Part000.NullDartType X) p).
Proof.
  split; intros X p.
  - assert (E : DartTs.NullDartType (DartTs.NullDartType X) = DartTs.NullDartType X)
      by (destruct X; reflexivity).
    rewrite E. auto.
  - assert (E : Part000.NullDartType (Part000.NullDartType X) = Part000.NullDartType X)
      by (destruct X; reflexivity).
    rewrite E. auto.
Qed.

(** In [part_000] the decode expression of a list decodes the element
    variable [v], and the encode expression maps the element encoding
    over the list. *)
Lemma Part000_ListDartType_distributes (E : Part000.DartType) (p d e : string) :
  Part000.generateJsonDecoding E "v" = Ok d ->
  Part000.generateJsonEncoding E = Ok e ->
  Part000.generateJsonDecoding (Part000.ListDartType E) p
  = Ok ("(" ++ p ++ " as List<dynamic>).map((v) => " ++ d ++ ").toList()")
  /\ Part000.generateJsonEncoding (Part000.ListDartType E)
     = Ok (".map((v) => v" ++ e ++ ").toList()").
Proof.
  intros Hd He. cbn [Part000.generateJsonDecoding Part000.generateJsonEncoding].
  rewrite Hd, He. split; reflexivity.
Qed.

(** C9, at the input where [dart.ts] departs from it.  In [dart.ts] the decode expression of a list of
    dates hands the whole input to the element decoding inside the
    [map], and the encode expression is the element encoding, not a
    [map] over the list; [part_000] does both as C9 states. *)
Theorem DartTs_ListDartType_decodes_whole_input :
  DartTs.generateJsonDecoding (DartTs.ListDartType DartTs.DatetimeDartType)
                              "jsonObject['days']"
  = Ok "(jsonObject['days'] as List<dynamic>).map((v) => DateTime.parse(jsonObject['days'])).toList()"
  /\ DartTs.generateJsonEncoding (DartTs.ListDartType DartTs.DatetimeDartType)
     = Ok ".toIso8601String()"
  /\ Part000.generateJsonDecoding (Part000.ListDartType Part000.DatetimeDartType)
                                  "jsonObject['days']"
     = Ok "(jsonObject['days'] as List<dynamic>).map((v) => DateTime.parse(v)).toList()"
  /\ Part000.generateJsonEncoding (Part000.ListDartType Part000.DatetimeDartType)
     = Ok ".map((v) => v.toIso8601String()).toList()".
Proof.
  repeat split; reflexivity.
Qed.

(** * The insert variant of a column type *)

(** In [part_000] the type of a column is computed from the registry
    without writing to it: for a column that is not nullable, the base
    type is the registered type [t] itself (so it is nullable only if
    the registered type is), and the insert variant of a generated,
    identity or defaulted column is a new [NullDartType] around it. *)
Lemma Part000_insert_variant (column : PostgresColumn) (ptdMap : Part000.PostgresToDartMap)
    (t : Part000.DartType) :
  is_nullable column = false ->
  is_generated column = true \/ is_identity column = true \/ default_value column <> None ->
  Part000.buildDartTypeFromPostgresColumn column ptdMap false = Ok t ->
  Part000.buildDartTypeFromPostgresColumn column ptdMap true = Ok (Part000.NullDartType t)
  /\ Part000.isNullDartType (Part000.NullDartType t) = true
  /\ (Part000.entryType ptdMap (format column) = Ok t
      \/ Part000.entryType ptdMap (col_name column) = Ok t).
Proof.
  intros Hn Hflag. unfold Part000.buildDartTypeFromPostgresColumn. rewrite Hn.
  assert (Hf : (is_generated column || is_identity column
                || match default_value column with Some _ => true | None => false end)
               = true).
  { destruct Hflag as [-> | [-> | Hd]]; [reflexivity | |].
    - destruct (is_generated column); reflexivity.
    - destruct (default_value column); [apply orb_true_r | congruence]. }
  rewrite Hf. cbn [orb andb].
  destruct (Part000.entryType ptdMap (format column)) as [t0 | e |] eqn:E0;
    cbn [bind]; try discriminate.
  destruct (String.eqb (format column) "jsonb" && Part000.hasKey ptdMap (col_name column)).
  - destruct (Part000.entryType ptdMap (col_name column)) as [t1 | e |] eqn:E1;
      cbn [bind]; try discriminate.
    intros H. injection H as <-. split; [reflexivity |].
    split; [destruct t1; reflexivity | right; reflexivity].
  - cbn [bind]. intros H. injection H as <-. split; [reflexivity |].
    split; [destruct t0; reflexivity | left; reflexivity].
Qed.

(** C4, at the input where [dart.ts] departs from it.  In [dart.ts] the [forInsert] block of a row class
    writes the registry: with the catalog type [int4] registered as
    [int], the class of a table with the identity column [id] and the
    plain column [qty] declares both fields as [int], then replaces the
    registry entry of [int4] by [NullDartType(int)], so that [qty] too
    becomes an optional [int?] parameter of [forInsert], and so that the
    next row class declares the field of its plain [int4] column [rank]
    as [int?].  [part_000] computes both variants of [qty] as [int]
    from the same registry. *)
Theorem DartTs_forInsert_mutates_registry (JSON_parse : string -> outcome json) :
  let w := snd (DartTs.registerRequiredTypes JSON_parse [ex_int4]
                  [ex_id_column; ex_qty_column; ex_rank_column] emptyWorldTs) in
  let r := DartTs.rowClassTypes true [ex_id_column; ex_qty_column] (DartTs.ptdMap w) in
  DartTs.entryType (DartTs.ptdMap w) "int4" = Ok (DartTs.BuiltinDartType kw_int)
  /\ fst r = Ok (["int id"; "int qty"], ["int? id"; "int? qty"])
  /\ DartTs.entryType (snd r) "int4"
     = Ok (DartTs.NullObject (DartTs.BuiltinDartType kw_int))
  /\ fst (DartTs.rowClassTypes false [ex_rank_column] (snd r)) = Ok (["int? rank"], [])
  /\ (let w0 := snd (Part000.registerRequiredTypes [ex_int4]
                       [ex_id_column; ex_qty_column; ex_rank_column] emptyWorld000) in
      Part000.buildDartTypeFromPostgresColumn ex_qty_column (Part000.ptdMap w0) false
      = Ok (Part000.BuiltinDartType kw_int)
      /\ Part000.buildDartTypeFromPostgresColumn ex_qty_column (Part000.ptdMap w0) true
         = Ok (Part000.BuiltinDartType kw_int)
      /\ Part000.buildDartTypeFromPostgresColumn ex_id_column (Part000.ptdMap w0) true
         = Ok (Part000.NullObject (Part000.BuiltinDartType kw_int))).
Proof.
  repeat split; reflexivity.
Qed.

(** * The JSON-schema builder *)

(** C7, at the input where [part_000] departs from it.  With the name hint [meta], the schema with the
    properties [title] and [note], of which only [title] is listed as
    required, gives a class whose two properties are plain [String]s:
    [note] is not wrapped in [NullDartType], because the test reads
    [schema.properties.required] where the list is [schema.required].
    Conversely, when a property is itself named [required], every
    property that is no key of that property's schema is wrapped, listed
    as required or not.  The properties are registered under their own
    names, and without a name hint the builder logs and returns the map
    type. *)
Theorem Part000_jsonschema_required_ignored (JSON_stringify : json -> string) :
  Part000.buildDartTypeFromJsonschema JSON_stringify (jsonFuel ex_schema) ex_schema
                                      (Some "meta") emptyWorld000
  = (Ok (Part000.JsonschemaObject "Meta"
           [("title", (None, Part000.BuiltinDartType kw_String));
            ("note", (None, Part000.BuiltinDartType kw_String))]),
     {| Part000.ptdMap :=
          [("title", (None, Part000.BuiltinDartType kw_String));
           ("note", (None, Part000.BuiltinDartType kw_String))];
        Part000.console := [] |})
  /\ fst (Part000.buildDartTypeFromJsonschema JSON_stringify
            (jsonFuel ex_schema_required_property) ex_schema_required_property
            (Some "meta") emptyWorld000)
     = Ok (Part000.JsonschemaObject "Meta"
             [("title", (None, Part000.NullObject (Part000.BuiltinDartType kw_String)));
              ("required", (None, Part000.NullObject (Part000.BuiltinDartType kw_bool)))])
  /\ Part000.buildDartTypeFromJsonschema JSON_stringify (jsonFuel ex_schema) ex_schema
                                         None emptyWorld000
     = (Ok Part000.StringToDynamic,
        {| Part000.ptdMap := [];
           Part000.console := [NoNameProvided (JSON_stringify ex_schema)] |}).
Proof.
  repeat split; reflexivity.
Qed.

(** * The enum comment *)

(** In [part_000] the enum class drops the comment: no translation is
    ever attached. *)
Lemma Part000_enum_comment_dropped (name : string) (values : list string)
    (comment : option string) :
  Part000.EnumDartConstruct name values comment = Part000.EnumObject name values.
Proof. reflexivity. Qed.

(** Whether all the keys of a table are values of the enum. *)
Lemma no_foreign_key (keys enumValues : list string) :
  Nat.eqb (List.length (filter (fun k => negb (existsb (String.eqb k) enumValues)) keys)) 0
  = forallb (fun k => existsb (String.eqb k) enumValues) keys.
Proof.
  induction keys as [| k rest IH]; [reflexivity |].
  cbn [filter forallb]. destruct (existsb (String.eqb k) enumValues); cbn [negb andb].
  - exact IH.
  - reflexivity.
Qed.

Lemma js_in_object (k : string) (fields : list (string * json)) (v : json) :
  Map_get String.eqb fields k = Some v -> js_in k (JObject fields) = Ok true.
Proof.
  intros H. cbn [js_in]. f_equal. induction fields as [| [k' v'] rest IH]; [discriminate |].
  cbn [Map_get] in H. cbn [existsb fst]. destruct (String.eqb k k'); [reflexivity |].
  cbn [orb]. apply IH. exact H.
Qed.

(** In [dart.ts], a comment that parses to an object whose [translation]
    holds a table for [en] and one for [it] is attached exactly when no
    key of the two tables is foreign to the values of the enum;
    otherwise the enum is built without it and a line is logged. *)
Lemma DartTs_enum_comment_validated (JSON_parse : string -> outcome json)
    (enumName text : string) (values : list string) (console : list logLine)
    (fields translation en it : list (string * json)) :
  JSON_parse text = Ok (JObject fields) ->
  Map_get String.eqb fields "translation" = Some (JObject translation) ->
  Map_get String.eqb translation "en" = Some (JObject en) ->
  Map_get String.eqb translation "it" = Some (JObject it) ->
  DartTs.EnumDartConstruct JSON_parse enumName values (Some text) console
  = if forallb (fun k => existsb (String.eqb k) values) (map fst en)
       && forallb (fun k => existsb (String.eqb k) values) (map fst it)
    then (Ok (DartTs.EnumObject enumName values (Some (JObject fields))), console)
    else (Ok (DartTs.EnumObject enumName values None),
          (console ++ [InvalidEnumComment enumName text])%list).
Proof.
  intros Hparse Htr Hen Hit.
  unfold DartTs.EnumDartConstruct, bindE, lift. rewrite Hparse.
  unfold DartTs.isEnumDartComment. rewrite (js_in_object _ _ _ Htr). cbn [bind negb].
  unfold DartTs.isTranslation, DartTs.SUPPORTED_LOCALES. cbn [mapM js_get].
  rewrite Htr. cbn [js_in_opt js_get_opt js_get].
  rewrite (js_in_object _ _ _ Hen), (js_in_object _ _ _ Hit), Hen, Hit.
  cbn [bind Object_keys]. rewrite !no_foreign_key. cbn [forallb].
  rewrite andb_true_r.
  destruct (forallb (fun k => existsb (String.eqb k) values) (map fst en)
            && forallb (fun k => existsb (String.eqb k) values) (map fst it));
    reflexivity.
Qed.

(** C5, at the input where [dart.ts] departs from it.  In [dart.ts] the constructor of the enum class calls
    [JSON.parse] on the comment outside any [try]: for a comment that is
    not JSON the [SyntaxError] leaves the constructor, and with it
    [buildDartTypeFromPostgresType] and the loop of [apply] that
    registers the types; no enum is built and nothing is logged.  A
    comment that parses to a value other than an object with a usable
    [translation] throws a [TypeError] in the same way. *)
Theorem DartTs_enum_comment_parse_failure (JSON_parse : string -> outcome json)
    (msg : string) :
  JSON_parse "how the user feels" = Throw (SyntaxError msg) ->
  (forall enumName values console,
      DartTs.EnumDartConstruct JSON_parse enumName values
        (Some "how the user feels") console
      = (Throw (SyntaxError msg), console))
  /\ DartTs.buildDartTypeFromPostgresType JSON_parse ex_mood [] []
     = (Throw (SyntaxError msg), [])
  /\ DartTs.registerRequiredTypes JSON_parse [ex_mood] [plainColumn "mood" "mood"]
       emptyWorldTs
     = (Throw (SyntaxError msg), emptyWorldTs).
Proof.
  intros Hparse.
  assert (H : forall enumName values console,
             DartTs.EnumDartConstruct JSON_parse enumName values
               (Some "how the user feels") console
             = (Throw (SyntaxError msg), console)).
  { intros. unfold DartTs.EnumDartConstruct, bindE, lift. rewrite Hparse. reflexivity. }
  split; [exact H |]. split.
  - unfold DartTs.buildDartTypeFromPostgresType, DartTs.EnumDartConstruct, bindE, lift.
    cbn. rewrite Hparse. reflexivity.
  - unfold DartTs.registerRequiredTypes. cbn.
    unfold DartTs.registerType, DartTs.buildDartTypeFromPostgresType,
      DartTs.EnumDartConstruct, bindE, lift.
    cbn. rewrite Hparse. reflexivity.
Qed.

Lemma DartTs_enum_comment_parse_failure_witness :
  DartTs.buildDartTypeFromPostgresType
    (fun _ => Throw (SyntaxError "Unexpected token h")) ex_mood [] []
  = (Throw (SyntaxError "Unexpected token h"), []).
Proof.
  apply (DartTs_enum_comment_parse_failure
           (fun _ => Throw (SyntaxError "Unexpected token h")) "Unexpected token h").
  reflexivity.
Defined.

(** A comment such as [42] or [{"translation": null}] parses, and the
    test of its shape throws. *)
Lemma DartTs_enum_comment_not_an_object (JSON_parse : string -> outcome json)
    (enumName text : string) (values : list string) (console : list logLine) :
  JSON_parse text = Ok (JNumber 42)
  \/ JSON_parse text = Ok (JObject [("translation", JNull)]) ->
  exists m,
    DartTs.EnumDartConstruct JSON_parse enumName values (Some text) console
    = (Throw (TypeError m), console).
Proof.
  intros [H | H]; unfold DartTs.EnumDartConstruct, bindE, lift; rewrite H; cbn;
    eexists; reflexivity.
Qed.

(** The translation of the example is attached; with a key that is no
    value of the enum it is rejected and a line is logged. *)
Lemma DartTs_enum_comment_examples (JSON_parse : string -> outcome json) (text : string) :
  (JSON_parse text = Ok ex_translation ->
   DartTs.EnumDartConstruct JSON_parse "mood" ["happy"; "sad"] (Some text) []
   = (Ok (DartTs.EnumObject "mood" ["happy"; "sad"] (Some ex_translation)), []))
  /\ (JSON_parse text = Ok ex_translation_extra ->
      DartTs.EnumDartConstruct JSON_parse "mood" ["happy"; "sad"] (Some text) []
      = (Ok (DartTs.EnumObject "mood" ["happy"; "sad"] None),
         [InvalidEnumComment "mood" text])).
Proof.
  split; intros H; unfold DartTs.EnumDartConstruct, bindE, lift; rewrite H; reflexivity.
Qed.

(** * A column whose format names no type of the catalog *)

(** The ids a loop over the columns collects do not depend on the lines
    logged so far, and the lines are only added to. *)
Lemma directTypes_fold_ids (byName : list (string * PostgresType))
    (columns : list PostgresColumn) (ids : list Z) (l1 l2 : list logLine) :
  fst (fold_left (fun acc c => addDirectTypes byName c acc) columns (ids, l1))
  = fst (fold_left (fun acc c => addDirectTypes byName c acc) columns (ids, l2)).
Proof.
  revert ids l1 l2. induction columns as [| c rest IH]; intros ids l1 l2; [reflexivity |].
  cbn [fold_left]. unfold addDirectTypes at 2 4.
  destruct (Map_get String.eqb byName (format c));
    destruct (if startsWithUnderscore (format c)
              then Map_get String.eqb byName (slice1 (format c)) else None);
    apply IH.
Qed.

Lemma directTypes_fold_lines (byName : list (string * PostgresType))
    (columns : list PostgresColumn) (acc : list Z * list logLine) (l : logLine) :
  In l (snd acc) ->
  In l (snd (fold_left (fun acc c => addDirectTypes byName c acc) columns acc)).
Proof.
  revert acc. induction columns as [| c rest IH]; intros acc H; [exact H |].
  cbn [fold_left]. apply IH. destruct acc as [ids lines]. unfold addDirectTypes.
  cbn [snd] in H.
  destruct (Map_get String.eqb byName (format c));
    destruct (if startsWithUnderscore (format c)
              then Map_get String.eqb byName (slice1 (format c)) else None);
    cbn [snd]; auto; apply in_or_app; left; exact H.
Qed.

Lemma addDirectTypes_unresolved (byName : list (string * PostgresType))
    (c : PostgresColumn) (ids : list Z) (lines : list logLine) :
  Map_get String.eqb byName (format c) = None ->
  addDirectTypes byName c (ids, lines)
  = (match (if startsWithUnderscore (format c)
            then Map_get String.eqb byName (slice1 (format c)) else None) with
     | Some b => Set_add ids (id b)
     | None => ids
     end,
     (lines ++ [TypeNotFoundForColumn c])%list).
Proof.
  intros H. unfold addDirectTypes. rewrite H.
  destruct (if startsWithUnderscore (format c)
            then Map_get String.eqb byName (slice1 (format c)) else None); reflexivity.
Qed.

Lemma getRequiredTypes_console (allTypes : list PostgresType)
    (columns : list PostgresColumn) :
  fst (getRequiredTypes allTypes columns)
  = snd (directTypes (typesByName allTypes) columns).
Proof.
  unfold getRequiredTypes.
  destruct (directTypes (typesByName allTypes) columns) as [ids lines]. reflexivity.
Qed.




(** * Examples of required types *)

(** The end-to-end scenario: the one column of format [task] requires
    [status] and [task], in this order; the array type and its base type,
    which no column refers to, are left out. *)
Lemma getRequiredTypes_scenario :
  getRequiredTypes ex_catalog [plainColumn "status_col" "task"]
  = ([], Ok [ex_status; ex_task]).
Proof. reflexivity. Qed.

(** Columns of the formats [task] and [_int4]: the composite type brings
    its attribute type, the array type its base type, and the array type
    comes last. *)
Lemma getRequiredTypes_example :
  getRequiredTypes (ex_tags :: ex_catalog)
    [plainColumn "job" "task"; plainColumn "sizes" "_int4"]
  = ([], Ok [ex_status; ex_task; ex_int4; ex_int4_array]).
Proof. reflexivity. Qed.

(** * Further properties of the name formatting *)

Lemma toUpperCase_alnum (c : ascii) : isAlnum c = true -> isAlnum (toUpperCase c) = true.
Proof.
  destruct c as [[] [] [] [] [] [] [] []]; vm_compute; intros H; congruence.
Qed.

Lemma toLowerCase_alnum (c : ascii) : isAlnum c = true -> isAlnum (toLowerCase c) = true.
Proof.
  destruct c as [[] [] [] [] [] [] [] []]; vm_compute; intros H; congruence.
Qed.

Lemma toUpperCase_twice (c : ascii) : toUpperCase (toUpperCase c) = toUpperCase c.
Proof.
  destruct c as [[] [] [] [] [] [] [] []]; reflexivity.
Qed.

Lemma toLowerCase_upper_lower (c : ascii) :
  toLowerCase (toUpperCase (toLowerCase c)) = toLowerCase c.
Proof.
  destruct c as [[] [] [] [] [] [] [] []]; reflexivity.
Qed.

Lemma append_empty_r (s : string) : (s ++ EmptyString)%string = s.
Proof.
  induction s as [| c rest IH]; [reflexivity |]. cbn. rewrite IH. reflexivity.
Qed.

Lemma allAlnum_app (s t : string) : allAlnum (s ++ t) = allAlnum s && allAlnum t.
Proof.
  induction s as [| c rest IH]; [reflexivity |].
  cbn [append allAlnum]. rewrite IH, andb_assoc. reflexivity.
Qed.

(** The pieces of a split hold letters and digits only. *)
Lemma splitNonAlnum_alnum (s : string) :
  Forall (fun w => allAlnum w = true) (splitNonAlnum s).
Proof.
  induction s as [| c rest IH]; [repeat constructor |].
  cbn [splitNonAlnum]. destruct (isAlnum c) eqn:Hc.
  - destruct (splitNonAlnum rest) as [| w ws].
    + repeat constructor. cbn. rewrite Hc. reflexivity.
    + inversion IH as [| ? ? Hw Hws]; subst. constructor; [| exact Hws].
      cbn. rewrite Hc, Hw. reflexivity.
  - constructor; [reflexivity | exact IH].
Qed.

(** A string of letters and digits is one piece. *)
Lemma splitNonAlnum_one_piece (s : string) : allAlnum s = true -> splitNonAlnum s = [s].
Proof.
  induction s as [| c rest IH]; [reflexivity |].
  cbn [allAlnum splitNonAlnum]. intros H. apply andb_true_iff in H. destruct H as [Hc Hr].
  rewrite Hc, (IH Hr). reflexivity.
Qed.

Lemma mapM_capitalizeWord_alnum (words out : list string) :
  Forall (fun w => allAlnum w = true) words ->
  mapM capitalizeWord words = Ok out ->
  allAlnum (join EmptyString out) = true
  /\ (words <> [] ->
      exists c r, hd EmptyString words = String c r
                  /\ exists r', join EmptyString out = String (toUpperCase c) r').
Proof.
  intros Hall. revert out. induction Hall as [| w ws Hw _ IH]; intros out H.
  - injection H as <-. split; [reflexivity | congruence].
  - destruct w as [| c r]; [discriminate |].
    cbn [mapM capitalizeWord bind] in H.
    destruct (mapM capitalizeWord ws) as [out' | e |] eqn:E; try discriminate.
    cbn [bind] in H. injection H as <-.
    destruct (IH out' eq_refl) as (Hout' & _).
    cbn [allAlnum] in Hw. apply andb_true_iff in Hw. destruct Hw as [Hc Hr].
    assert (Hj : join EmptyString (String (toUpperCase c) r :: out')
                 = String (toUpperCase c) (r ++ join EmptyString out')).
    { destruct out' as [| o os]; cbn [join].
      - rewrite append_empty_r. reflexivity.
      - reflexivity. }
    rewrite Hj. split.
    + cbn [allAlnum]. rewrite allAlnum_app, Hr, Hout', (toUpperCase_alnum c Hc). reflexivity.
    + intros _. exists c, r. split; [reflexivity |]. eexists. reflexivity.
Qed.

Lemma formatForDartClassName_shape (name s : string) :
  formatForDartClassName name = Ok s ->
  allAlnum s = true /\ exists c r, s = String (toUpperCase c) r.
Proof.
  unfold formatForDartClassName. intros H.
  destruct (mapM capitalizeWord (splitNonAlnum name)) as [out | e |] eqn:E;
    try discriminate.
  cbn [bind] in H. injection H as <-.
  destruct (mapM_capitalizeWord_alnum _ _ (splitNonAlnum_alnum name) E) as (Ha & Hh).
  split; [exact Ha |].
  destruct Hh as (c & r & _ & r' & Hr').
  - destruct name as [| c rest]; cbn; [congruence |].
    destruct (isAlnum c); [destruct (splitNonAlnum rest) |]; congruence.
  - exists c, r'. exact Hr'.
Qed.

Lemma formatForDartClassName_fixed (c : ascii) (r : string) :
  allAlnum (String c r) = true ->
  formatForDartClassName (String c r) = Ok (String (toUpperCase c) r).
Proof.
  intros H. unfold formatForDartClassName.
  rewrite (splitNonAlnum_one_piece _ H). reflexivity.
Qed.

(** X1.  A class name that [formatForDartClassName] returns is not empty,
    holds letters and digits only, and does not start with a lower-case
    letter. *)
Theorem formatForDartClassName_identifier (name s : string) :
  formatForDartClassName name = Ok s ->
  allAlnum s = true
  /\ exists c r, s = String c r /\ toUpperCase c = c.
Proof.
  intros H. destruct (formatForDartClassName_shape _ _ H) as (Ha & c & r & ->).
  split; [exact Ha |]. exists (toUpperCase c), r. split; [reflexivity |].
  apply toUpperCase_twice.
Qed.

Lemma formatForDartClassName_identifier_witness :
  formatForDartClassName "user_profile" = Ok "UserProfile"
  /\ allAlnum "UserProfile" = true
  /\ exists c r, "UserProfile" = String c r /\ toUpperCase c = c.
Proof.
  split; [reflexivity |].
  exact (formatForDartClassName_identifier "user_profile" "UserProfile" eq_refl).
Defined.

(** X2.  The two formatters are idempotent: a name that one of them
    returns is returned unchanged when it is formatted again. *)
Theorem formatForDart_idempotent (name s : string) :
  (formatForDartClassName name = Ok s -> formatForDartClassName s = Ok s)
  /\ (formatForDartPropertyName name = Ok s -> formatForDartPropertyName s = Ok s).
Proof.
  split; intros H.
  - destruct (formatForDartClassName_shape _ _ H) as (Ha & c & r & ->).
    rewrite (formatForDartClassName_fixed _ _ Ha), toUpperCase_twice. reflexivity.
  - unfold formatForDartPropertyName in H.
    destruct (formatForDartClassName name) as [cn | e |] eqn:E; try discriminate.
    cbn [bind] in H.
    destruct (formatForDartClassName_shape _ _ E) as (Ha & c & r & ->).
    injection H as <-.
    cbn [allAlnum] in Ha. apply andb_true_iff in Ha. destruct Ha as [Hc Hr].
    assert (Ha' : allAlnum (String (toLowerCase (toUpperCase c)) r) = true).
    { cbn [allAlnum]. rewrite (toLowerCase_alnum _ Hc), Hr. reflexivity. }
    unfold formatForDartPropertyName.
    rewrite (formatForDartClassName_fixed _ _ Ha'). cbn [bind].
    rewrite toLowerCase_upper_lower. reflexivity.
Qed.

Lemma formatForDart_idempotent_witness :
  formatForDartClassName "UserProfile" = Ok "UserProfile"
  /\ formatForDartPropertyName "userProfile" = Ok "userProfile".
Proof.
  split.
  - exact (proj1 (formatForDart_idempotent "user_profile" "UserProfile") eq_refl).
  - exact (proj2 (formatForDart_idempotent "user_profile" "userProfile") eq_refl).
Defined.

(** X3.  [formatForDartPropertyName] returns exactly when
    [formatForDartClassName] does, with the class name whose first
    character is in lower case, and throws exactly what
    [formatForDartClassName] throws: its own [toLowerCase] is never
    applied to a missing first character. *)
Theorem formatForDartPropertyName_from_class_name (name : string) :
  match formatForDartClassName name with
  | Ok className =>
      exists c r, className = String c r
                  /\ formatForDartPropertyName name = Ok (String (toLowerCase c) r)
  | Throw e => formatForDartPropertyName name = Throw e
  | OutOfFuel => False
  end.
Proof.
  unfold formatForDartPropertyName.
  destruct (formatForDartClassName name) as [cn | e |] eqn:E.
  - destruct (formatForDartClassName_shape _ _ E) as (_ & c & r & ->).
    exists (toUpperCase c), r. split; reflexivity.
  - reflexivity.
  - unfold formatForDartClassName in E.
    destruct (mapM capitalizeWord (splitNonAlnum name)) as [out | e |] eqn:E';
      try discriminate.
    clear E. revert E'. generalize (splitNonAlnum name). intros l.
    induction l as [| w ws IH]; [discriminate |].
    cbn [mapM]. destruct w; cbn [capitalizeWord bind]; [discriminate |].
    destruct (mapM capitalizeWord ws); try discriminate. intros _. apply IH. reflexivity.
Qed.

(** * Further properties of the dependency sort *)

Lemma indexOf_nonneg (k : Z) (l : list Z) : 0 <= indexOf k l.
Proof.
  induction l as [| x rest IH]; cbn [indexOf]; [lia |]. destruct (k =? x); lia.
Qed.

Lemma before_indexOf {A : Type} (f : A -> Z) (x y : A) (l : list A) :
  NoDup (map f l) -> before x y l ->
  indexOf (f x) (map f l) < indexOf (f y) (map f l).
Proof.
  intros Hnd (l1 & l2 & l3 & ->). induction l1 as [| a l1 IH].
  - cbn [app map indexOf] in *. rewrite Z.eqb_refl.
    inversion Hnd as [| ? ? Hx _]; subst.
    destruct (f y =? f x) eqn:E.
    + exfalso. apply Hx. apply Z.eqb_eq in E. rewrite <- E.
      rewrite map_app. apply in_or_app. right. left. reflexivity.
    + pose proof (indexOf_nonneg (f y) (map f (l2 ++ y :: l3))). lia.
  - cbn [app map indexOf] in *. inversion Hnd as [| ? ? Ha Hrest]; subst.
    specialize (IH Hrest).
    assert (Hx : (f x =? f a) = false).
    { apply Z.eqb_neq. intros E. apply Ha. rewrite <- E, map_app.
      apply in_or_app. right. left. reflexivity. }
    assert (Hy : (f y =? f a) = false).
    { apply Z.eqb_neq. intros E. apply Ha. rewrite <- E, map_app.
      apply in_or_app. right. right. rewrite map_app. apply in_or_app. right. left.
      reflexivity. }
    rewrite Hx, Hy. lia.
Qed.

Lemma sortTypesByDependency_ok_acyclic (types out : list PostgresType) :
  NoDup (map id types) -> sortTypesByDependency types = Ok out -> acyclic types.
Proof.
  intros Hnd H.
  destruct (sortTypesByDependency_ok _ _ Hnd H) as (l & _ & Hndl & _ & Hbefore).
  apply (acyclic_by_rank types (fun T => indexOf (id T) (map id l))).
  intros T D (HT & HD & Href & Hne).
  apply before_indexOf; [exact Hndl |]. apply Hbefore; assumption.
Qed.

(** X4.  On types with pairwise distinct ids the cycle detection is
    exact: [sortTypesByDependency] throws if and only if some type
    reaches itself through attributes of other types, the error it
    throws names a type on such a cycle, and otherwise it returns.  An
    attribute of the type's own id is no cycle. *)
Theorem sortTypesByDependency_throws_iff_cycle (types : list PostgresType) :
  NoDup (map id types) ->
  ((exists e, sortTypesByDependency types = Throw e)
   <-> exists T, clos_trans PostgresType (dependsOn types) T T)
  /\ ((exists out, sortTypesByDependency types = Ok out) <-> acyclic types)
  /\ (forall e, sortTypesByDependency types = Throw e ->
        exists T, In T types /\ e = circularDependencyOf T
                  /\ clos_trans PostgresType (dependsOn types) T T).
Proof.
  intros Hnd. split; [| split].
  - split.
    + intros (e & H). apply sortTypesByDependency_throw in H.
      destruct H as (T & _ & _ & Hcyc). exists T. exact Hcyc.
    + intros (T & Hcyc). destruct (sortTypesByDependency types) as [out | e |] eqn:H.
      * exfalso. exact (sortTypesByDependency_ok_acyclic _ _ Hnd H T Hcyc).
      * exists e. reflexivity.
      * exfalso. exact (sortTypesByDependency_fuel types H).
  - split.
    + intros (out & H). exact (sortTypesByDependency_ok_acyclic _ _ Hnd H).
    + apply sortTypesByDependency_returns.
  - apply sortTypesByDependency_throw.
Qed.

Lemma sortTypesByDependency_throws_iff_cycle_witness :
  NoDup (map id [ex_node; ex_edge])
  /\ exists T, clos_trans PostgresType (dependsOn [ex_node; ex_edge]) T T.
Proof.
  assert (Hnd : NoDup (map id [ex_node; ex_edge]))
    by (repeat constructor; cbn; intuition discriminate).
  split; [exact Hnd |].
  apply (proj1 (proj1 (sortTypesByDependency_throws_iff_cycle [ex_node; ex_edge] Hnd))).
  eexists. vm_compute. reflexivity.
Defined.

(** Of the types that share an id, the node map holds the last. *)
Section LastWins.
Context {K V A : Type} (eqb : K -> K -> bool) (key : A -> K) (val : A -> V).
Hypothesis eqb_eq : forall a b, eqb a b = true <-> a = b.

Lemma fromList_get_last (l : list A) :
  forall m k v,
    Map_get eqb (fromList eqb key val l m) k = Some v ->
    (exists l1 a l2, l = (l1 ++ a :: l2)%list /\ key a = k /\ val a = v
                     /\ forall b, In b l2 -> key b <> k)
    \/ (Map_get eqb m k = Some v /\ forall b, In b l -> key b <> k).
Proof.
  induction l as [| a rest IH]; intros m k v H.
  - right. split; [exact H | intros b []].
  - cbn [fromList fold_left] in H. apply IH in H.
    destruct H as [(l1 & b & l2 & -> & Hk & Hv & Hl2) | (H & Hrest)].
    + left. exists (a :: l1), b, l2. auto.
    + rewrite (Map_get_set eqb eqb_eq) in H. destruct (eqb k (key a)) eqn:E.
      * apply eqb_eq in E. injection H as <-. left. exists [], a, rest. auto.
      * right. split; [exact H |]. intros b [<- | Hb]; [| auto].
        intros Hk. rewrite Hk, (eqb_refl_K eqb eqb_eq) in E. discriminate.
Qed.

Lemma Map_set_fresh (m : list (K * V)) (k : K) (v : V) :
  ~ In k (map fst m) -> Map_set eqb m k v = (m ++ [(k, v)])%list.
Proof.
  induction m as [| [k' v'] rest IH]; intros Hn; [reflexivity |].
  cbn [Map_set map fst In app] in *. destruct (eqb k k') eqn:E.
  - apply eqb_eq in E. exfalso. auto.
  - rewrite IH by auto. reflexivity.
Qed.

Lemma fromList_nodup (l : list A) :
  forall m,
    NoDup (map fst m ++ map key l) ->
    fromList eqb key val l m = (m ++ map (fun a => (key a, val a)) l)%list.
Proof.
  induction l as [| a rest IH]; intros m Hnd.
  - cbn. rewrite app_nil_r. reflexivity.
  - cbn [fromList fold_left map] in *. fold (fromList eqb key val rest).
    assert (Ha : ~ In (key a) (map fst m)).
    { intros Hin. apply NoDup_remove_2 in Hnd. apply Hnd. apply in_or_app. left. exact Hin. }
    rewrite (Map_set_fresh m _ _ Ha).
    change (fold_left (fun m0 a0 => Map_set eqb m0 (key a0) (val a0)) rest
              (m ++ [(key a, val a)])%list)
      with (fromList eqb key val rest (m ++ [(key a, val a)])%list).
    rewrite IH.
    + rewrite <- app_assoc. reflexivity.
    + rewrite map_app. cbn [map fst]. rewrite <- app_assoc. exact Hnd.
Qed.

Lemma Map_get_app (a b : list (K * V)) (k : K) :
  Map_get eqb (a ++ b) k
  = match Map_get eqb a k with Some v => Some v | None => Map_get eqb b k end.
Proof.
  induction a as [| [k' v'] rest IH]; [reflexivity |].
  cbn [app Map_get]. destruct (eqb k k'); [reflexivity | exact IH].
Qed.

Lemma Map_get_map_none (g : A -> V) (l : list A) (k : K) :
  ~ In k (map key l) -> Map_get eqb (map (fun a => (key a, g a)) l) k = None.
Proof.
  induction l as [| a rest IH]; intros Hn; [reflexivity |].
  cbn [map Map_get In] in *. destruct (eqb k (key a)) eqn:E.
  - apply eqb_eq in E. exfalso. auto.
  - apply IH. auto.
Qed.

Lemma Map_get_map_some (g : A -> V) (l : list A) (k : K) (v : V) :
  Map_get eqb (map (fun a => (key a, g a)) l) k = Some v ->
  exists a, In a l /\ key a = k /\ v = g a.
Proof.
  induction l as [| a rest IH]; intros H; [discriminate |].
  cbn [map Map_get] in H. destruct (eqb k (key a)) eqn:E.
  - apply eqb_eq in E. injection H as <-. exists a. split; [left; reflexivity | auto].
  - destruct (IH H) as (b & Hb & Hk & Hv). exists b. split; [right; exact Hb | auto].
Qed.
End LastWins.

Lemma last_occurrence_unique {A : Type} (f : A -> Z) (x y : A) :
  forall l1 l2 l1' l2',
    (l1 ++ x :: l2 = l1' ++ y :: l2')%list -> f x = f y ->
    (forall b, In b l2 -> f b <> f x) -> (forall b, In b l2' -> f b <> f y) -> x = y.
Proof.
  induction l1 as [| a l1 IH]; intros l2 l1' l2' E Hf Hx Hy.
  - destruct l1' as [| c l1']; cbn [app] in E.
    + congruence.
    + injection E as _ E. exfalso. apply (Hx y); [| congruence].
      rewrite E. apply in_or_app. right. left. reflexivity.
  - destruct l1' as [| c l1']; cbn [app] in E.
    + injection E as _ E. exfalso. apply (Hy x); [| congruence].
      rewrite <- E. apply in_or_app. right. left. reflexivity.
    + injection E as _ E. exact (IH _ _ _ E Hf Hx Hy).
Qed.

(** X5.  Whatever list it is given, the list [sortTypesByDependency]
    returns has pairwise distinct ids, and holds exactly the types of the
    input that no later type of the input shares the id of: of the types
    with one id it keeps the last, and drops the others. *)
Theorem sortTypesByDependency_distinct_ids (types out : list PostgresType) :
  sortTypesByDependency types = Ok out ->
  NoDup (map id out)
  /\ forall T,
       In T out
       <-> exists l1 l2, types = (l1 ++ T :: l2)%list /\ forall t, In t l2 -> id t <> id T.
Proof.
  intros H. pose proof (sortTypesByDependency_cases types) as C. rewrite H in C.
  destruct C as (st & -> & Hinv & Hsk & Hall).
  rewrite Array_sort_arraysLast.
  pose proof (arraysMovedLast_Permutation (sorted st)) as Hp.
  split.
  - apply (Permutation_NoDup (l := map id (sorted st))).
    + apply Permutation_map. apply Permutation_sym. exact Hp.
    + apply (inv_nodup _ Hinv).
  - intros T. split.
    + intros HT. apply (Permutation_in _ Hp) in HT.
      apply (inv_sorted _ Hinv) in HT. destruct HT as (n & Hn & _ & Ht).
      destruct (skeleton_get _ _ _ _ Hsk Hn) as (n' & Hn' & Ht' & _).
      apply (fromList_get_last Z.eqb id newTypeNode Z.eqb_eq) in Hn'.
      destruct Hn' as [(l1 & a & l2 & E & Hk & Hv & Hlast) | (Hn' & _)]; [| discriminate].
      exists l1, l2. rewrite <- Hv in Ht'. cbn [newTypeNode type] in Ht'.
      assert (Ha : a = T) by congruence. rewrite Ha in *. auto.
    + intros (l1 & l2 & E & Hlast).
      assert (HinT : In T types) by (rewrite E; apply in_or_app; right; left; reflexivity).
      destruct (Map_get Z.eqb (initTypeMap types) (id T)) as [n' |] eqn:Hn'.
      * pose proof Hn' as Hl.
        apply (fromList_get_last Z.eqb id newTypeNode Z.eqb_eq) in Hl.
        destruct Hl as [(l1' & a & l2' & E' & Hk & Hv & Hlast') | (Hl & _)]; [| discriminate].
        assert (a = T).
        { symmetry. rewrite E in E'. apply (last_occurrence_unique id T a _ _ _ _ E'); auto.
          intros b Hb. rewrite Hk. apply Hlast'. exact Hb. }
        subst a.
        destruct (skeleton_get _ _ _ _ (eq_sym Hsk) Hn') as (n & Hn & Ht & _).
        apply (Permutation_in _ (Permutation_sym Hp)).
        apply (inv_sorted _ Hinv). exists n. split; [exact Hn |]. split.
        -- specialize (Hall (id T)). unfold isVisited in Hall. rewrite Hn in Hall.
           apply Hall. discriminate.
        -- rewrite Ht, <- Hv. reflexivity.
      * exfalso. revert Hn'. apply (fromList_present Z.eqb Z.eqb_eq id newTypeNode).
        right. exists T. auto.
Qed.

Lemma sortTypesByDependency_distinct_ids_witness :
  NoDup (map id [ex_status; ex_task])
  /\ forall T,
       In T [ex_status; ex_task]
       <-> exists l1 l2,
            [ex_task; plainType 1 "old_status"; ex_status] = (l1 ++ T :: l2)%list
            /\ forall t, In t l2 -> id t <> id T.
Proof.
  exact (sortTypesByDependency_distinct_ids
           [ex_task; plainType 1 "old_status"; ex_status] [ex_status; ex_task] eq_refl).
Defined.

(** * A list in dependency order *)

Lemma updateNode_app (f : TypeNode -> TypeNode) (a b : list (Z * TypeNode))
    (k : Z) (n : TypeNode) :
  ~ In k (map fst a) ->
  updateNode f (a ++ (k, n) :: b) k = (a ++ (k, f n) :: b)%list.
Proof.
  induction a as [| [k' n'] rest IH]; intros Hn; cbn [app updateNode map fst In] in *.
  - rewrite Z.eqb_refl. reflexivity.
  - destruct (k =? k') eqn:E.
    + apply Z.eqb_eq in E. exfalso. auto.
    + rewrite IH by auto. reflexivity.
Qed.

Lemma forEachM_unchanged {A S : Type} (body : A -> S -> outcome S) (xs : list A) (s : S) :
  (forall x, In x xs -> body x s = Ok s) -> forEachM body xs s = Ok s.
Proof.
  induction xs as [| x rest IH]; intros H; [reflexivity |].
  cbn [forEachM]. rewrite (H x (or_introl eq_refl)). cbn [bind].
  apply IH. intros y Hy. apply H. right. exact Hy.
Qed.

Lemma map_fst_keyed {V : Type} (g : PostgresType -> V) (l : list PostgresType) :
  map fst (map (fun t => (id t, g t)) l) = map id l.
Proof.
  rewrite map_map. reflexivity.
Qed.

(** The step of the walk on a type whose attribute types are all behind
    it. *)
Lemma visitKey_ordered (fuel : nat) (done todo : list PostgresType) (T : PostgresType) :
  NoDup (map id (done ++ T :: todo)) ->
  (forall d, In d (map type_id (attributes T)) -> ~ In d (map id todo)) ->
  visitKey (S (S fuel)) (id T) {| typeMap := walked done (T :: todo); sorted := done |}
  = Ok {| typeMap := walked (done ++ [T]) todo; sorted := (done ++ [T])%list |}.
Proof.
  intros Hnd Hdeps.
  assert (HT : ~ In (id T) (map id done)).
  { rewrite map_app in Hnd. cbn [map] in Hnd. apply NoDup_remove_2 in Hnd.
    intros Hin. apply Hnd. apply in_or_app. left. exact Hin. }
  assert (Hfst : ~ In (id T) (map fst (map (fun t => (id t, visitedNode t)) done))).
  { rewrite map_fst_keyed. exact HT. }
  assert (Hget : forall n rest,
             Map_get Z.eqb (map (fun t => (id t, visitedNode t)) done ++ (id T, n) :: rest)
                     (id T) = Some n).
  { intros n rest. rewrite Map_get_app, (Map_get_map_none Z.eqb id Z.eqb_eq) by exact HT.
    cbn [Map_get]. rewrite Z.eqb_refl. reflexivity. }
  unfold visitKey, walked. cbn [typeMap map]. rewrite Hget.
  cbn [newTypeNode visited]. cbn [dfs typeMap sorted]. rewrite Hget.
  cbn [inStack visited]. rewrite (updateNode_app _ _ _ _ _ Hfst).
  rewrite forEachM_unchanged.
  - cbn [bind typeMap sorted]. rewrite !(updateNode_app _ _ _ _ _ Hfst).
    rewrite map_app, <- app_assoc. reflexivity.
  - intros d Hd. cbn [dependencies] in Hd.
    apply Set_of_In, filter_In in Hd. destruct Hd as (Hd & Hne).
    apply negb_true_iff, Z.eqb_neq in Hne.
    cbn [dfs typeMap]. rewrite Map_get_app.
    destruct (Map_get Z.eqb (map (fun t => (id t, visitedNode t)) done) d) as [n |] eqn:E.
    + apply Map_get_map_some in E; [| exact Z.eqb_eq].
      destruct E as (t & _ & _ & ->). reflexivity.
    + cbn [Map_get]. apply Z.eqb_neq in Hne. rewrite Hne.
      rewrite (Map_get_map_none Z.eqb id Z.eqb_eq); [reflexivity |]. apply Hdeps. exact Hd.
Qed.

Lemma dependencyOrdered_cons (T : PostgresType) (rest : list PostgresType) :
  dependencyOrdered (T :: rest) = true ->
  (forall d, In d (map type_id (attributes T)) -> ~ In d (map id rest))
  /\ dependencyOrdered rest = true.
Proof.
  cbn [dependencyOrdered]. intros H. apply andb_true_iff in H. destruct H as [H1 H2].
  split; [| exact H2]. intros d Hd Hin.
  rewrite forallb_forall in H1. specialize (H1 d Hd).
  apply negb_true_iff in H1.
  assert (Hex : existsb (Z.eqb d) (map id rest) = true).
  { apply existsb_exists. exists d. split; [exact Hin | apply Z.eqb_refl]. }
  congruence.
Qed.

Lemma walk_ordered (fuel : nat) (todo : list PostgresType) :
  forall done,
    NoDup (map id (done ++ todo)) -> dependencyOrdered todo = true ->
    forEachM (visitKey (S (S fuel))) (map id todo)
             {| typeMap := walked done todo; sorted := done |}
    = Ok {| typeMap := walked (done ++ todo) []; sorted := (done ++ todo)%list |}.
Proof.
  induction todo as [| T rest IH]; intros done Hnd Hord.
  - rewrite app_nil_r. reflexivity.
  - apply dependencyOrdered_cons in Hord. destruct Hord as (Hdeps & Hord).
    cbn [map forEachM]. rewrite (visitKey_ordered fuel done rest T Hnd Hdeps).
    cbn [bind]. rewrite IH; [| rewrite <- app_assoc; exact Hnd | exact Hord].
    rewrite <- app_assoc. reflexivity.
Qed.

(** X6.  A list of types with pairwise distinct ids in which no type has
    an attribute of a type that comes later is returned in its own order,
    but for the array-marked types, which are moved behind the others:
    the sorter does not reorder what is in dependency order already. *)
Theorem sortTypesByDependency_keeps_dependency_order (types : list PostgresType) :
  NoDup (map id types) -> dependencyOrdered types = true ->
  sortTypesByDependency types = Ok (arraysMovedLast types).
Proof.
  intros Hnd Hord. unfold sortTypesByDependency.
  assert (Hinit : initTypeMap types = walked [] types).
  { unfold initTypeMap, walked. cbn [map app].
    apply (fromList_nodup Z.eqb id newTypeNode Z.eqb_eq types []). exact Hnd. }
  rewrite Hinit. unfold Map_keys, walked at 1 2. cbn [map app].
  rewrite map_fst_keyed, length_map.
  destruct types as [| T rest] eqn:E; [reflexivity |]. rewrite <- E in *.
  assert (Hfuel : exists fuel, S (List.length types) = S (S fuel)).
  { rewrite E. cbn [List.length]. eexists. reflexivity. }
  destruct Hfuel as (fuel & ->).
  change (map (fun t => (id t, newTypeNode t)) types) with (walked [] types).
  rewrite (walk_ordered fuel types [] Hnd Hord). cbn [bind sorted app].
  rewrite Array_sort_arraysLast. reflexivity.
Qed.

Lemma sortTypesByDependency_keeps_dependency_order_witness :
  sortTypesByDependency [ex_int4_array; ex_status; ex_task; ex_int4]
  = Ok [ex_status; ex_task; ex_int4; ex_int4_array].
Proof.
  apply (sortTypesByDependency_keeps_dependency_order
           [ex_int4_array; ex_status; ex_task; ex_int4]).
  - repeat constructor; cbn; intuition discriminate.
  - reflexivity.
Defined.

(** * Further properties of the required types *)


Lemma directlyReferenced_formats (allTypes : list PostgresType)
    (columns columns' : list PostgresColumn) (i : Z) :
  incl (map format columns) (map format columns') ->
  directlyReferenced allTypes columns i -> directlyReferenced allTypes columns' i.
Proof.
  intros Hincl (c & T & Hc & HT & Hcase).
  assert (Hf : In (format c) (map format columns')) by (apply Hincl, in_map, Hc).
  apply in_map_iff in Hf. destruct Hf as (c' & Hf & Hc').
  exists c', T. rewrite Hf. auto.
Qed.

(** X8.  The types [getRequiredTypes] returns depend on the formats of
    the columns only, and grow with them: when every format of a first
    list of columns is a format of a second, every type returned for the
    first is returned for the second.  Columns with the same formats, in
    any order and number, give the same types. *)
Theorem getRequiredTypes_formats_only (allTypes : list PostgresType)
    (columns columns' : list PostgresColumn) (out out' : list PostgresType) :
  incl (map format columns) (map format columns') ->
  snd (getRequiredTypes allTypes columns) = Ok out ->
  snd (getRequiredTypes allTypes columns') = Ok out' ->
  incl out out'
  /\ (incl (map format columns') (map format columns) -> Permutation out out').
Proof.
  intros Hincl Hout Hout'.
  destruct (getRequiredTypes_returned _ _ _ Hout) as (Hnd & Hin).
  destruct (getRequiredTypes_returned _ _ _ Hout') as (Hnd' & Hin').
  assert (Hmono : forall cs cs' T,
             incl (map format cs) (map format cs') ->
             inClosure allTypes cs T -> inClosure allTypes cs' T).
  { intros cs cs' T Hi (r & i & Hr & Hreach & HT). exists r, i.
    split; [eapply directlyReferenced_formats; eassumption | auto]. }
  split.
  - intros T HT. apply Hin'. apply (Hmono columns columns' T Hincl). apply Hin. exact HT.
  - intros Hincl'. apply NoDup_Permutation; [exact Hnd | exact Hnd' |].
    intros T. rewrite Hin, Hin'. split; apply Hmono; assumption.
Qed.

Lemma getRequiredTypes_formats_only_witness :
  incl [ex_status; ex_task] [ex_status; ex_task; ex_int4]
  /\ (incl (map format [plainColumn "job" "task"; plainColumn "n" "int4"])
           (map format [plainColumn "job" "task"]) ->
      Permutation [ex_status; ex_task] [ex_status; ex_task; ex_int4]).
Proof.
  apply (getRequiredTypes_formats_only ex_catalog
           [plainColumn "job" "task"]
           [plainColumn "job" "task"; plainColumn "n" "int4"]).
  - intros f [<- | []]. left. reflexivity.
  - reflexivity.
  - reflexivity.
Defined.

(** X9.  The list [getRequiredTypes] returns is closed and well keyed:
    its types have pairwise distinct ids; each is the type the catalog
    holds under its id; and with a type it holds the type of each of its
    attributes that the catalog knows, and, for an array-marked type,
    the base type the catalog holds under the name without the
    underscore. *)
Theorem getRequiredTypes_closed (allTypes : list PostgresType)
    (columns : list PostgresColumn) (out : list PostgresType) :
  snd (getRequiredTypes allTypes columns) = Ok out ->
  NoDup (map id out)
  /\ (forall T, In T out -> typeWithId allTypes (id T) T)
  /\ (forall T i D,
        In T out -> In i (map type_id (attributes T)) ->
        typeWithId allTypes i D -> In D out)
  /\ (forall T B D,
        In T out -> isArrayType T = true -> typeNamed allTypes (slice1 (name T)) B ->
        typeWithId allTypes (id B) D -> In D out).
Proof.
  intros Hout.
  destruct (getRequiredTypes_returned _ _ _ Hout) as (_ & Hin).
  destruct (getRequiredTypes_required allTypes columns) as (required & _ & Hnd & _ & E).
  rewrite E in Hout.
  assert (Hkey : forall T, In T out -> typeWithId allTypes (id T) T).
  { intros T HT. apply Hin in HT. destruct HT as (r & i & _ & _ & HT).
    pose proof (typesById_get allTypes i T HT) as (_ & Hi). rewrite Hi. exact HT. }
  split; [| split; [exact Hkey | split]].
  - apply (Permutation_NoDup (l := map id required)); [| exact Hnd].
    apply Permutation_map, Permutation_sym.
    exact (sortTypesByDependency_permutation _ _ Hnd Hout).
  - intros T i D HT Hi HD. pose proof (Hkey T HT) as HkT.
    apply Hin in HT. destruct HT as (r & j & Hr & Hreach & HTj).
    pose proof (typesById_get allTypes j T HTj) as (_ & Hj).
    apply Hin. exists r, i. split; [exact Hr |]. split; [| exact HD].
    eapply rt_trans; [exact Hreach |]. apply rt_step. exists T. split; [exact HTj | auto].
  - intros T B D HT Harr HB HD.
    apply Hin in HT. destruct HT as (r & j & Hr & Hreach & HTj).
    apply Hin. exists r, (id B). split; [exact Hr |]. split; [| exact HD].
    eapply rt_trans; [exact Hreach |]. apply rt_step. exists T. split; [exact HTj |].
    right. split; [exact Harr |]. exists B. auto.
Qed.

Lemma getRequiredTypes_closed_witness :
  NoDup (map id [ex_status; ex_task])
  /\ (forall T, In T [ex_status; ex_task] -> typeWithId ex_catalog (id T) T).
Proof.
  destruct (getRequiredTypes_closed ex_catalog [plainColumn "job" "task"]
              [ex_status; ex_task] eq_refl) as (Hnd & Hkey & _).
  split; assumption.
Defined.

(** * The registry *)

Section Entries.
Context {V : Type}.

Lemma Map_get_In (m : list (string * V)) (k : string) (v : V) :
  Map_get String.eqb m k = Some v -> In (k, v) m.
Proof.
  induction m as [| [k' v'] rest IH]; [discriminate |].
  cbn [Map_get]. destruct (String.eqb k k') eqn:E.
  - apply String.eqb_eq in E. intros H. injection H as <-. left. congruence.
  - intros H. right. exact (IH H).
Qed.

Lemma Map_set_Forall (P : string * V -> Prop) (m : list (string * V)) (k : string) (v : V) :
  Forall P m -> P (k, v) -> Forall P (Map_set String.eqb m k v).
Proof.
  intros Hm Hv. induction Hm as [| [k' v'] rest Hx Hrest IH]; cbn [Map_set].
  - repeat constructor. exact Hv.
  - destruct (String.eqb k k'); constructor; assumption.
Qed.

Lemma Map_get_Forall (P : string * V -> Prop) (m : list (string * V)) (k : string) (v : V) :
  Forall P m -> Map_get String.eqb m k = Some v -> P (k, v).
Proof.
  intros Hm Hg. rewrite Forall_forall in Hm. apply Hm. apply Map_get_In. exact Hg.
Qed.
End Entries.

Lemma Part000_static_map_plain :
  Forall (fun e => Part000.isNullDartType (snd e) = false) Part000.PGTYPE_TO_DARTTYPE_MAP.
Proof. repeat constructor. Qed.

(** The mapper of [part_000] builds no [NullDartType] from a registry
    that holds none. *)
Lemma Part000_mapper_plain (T : PostgresType) (m : Part000.PostgresToDartMap)
    (console console' : list logLine) (t : Part000.DartType) :
  Part000.buildDartTypeFromPostgresType T m console = (Ok t, console') ->
  Part000.isNullDartType t = false.
Proof.
  unfold Part000.buildDartTypeFromPostgresType.
  destruct (startsWithUnderscore (name T)) eqn:Harr.
  - destruct (option_map snd (Map_get String.eqb m (slice1 (name T)))) as [t0 |].
    + intros H. injection H as <- _. reflexivity.
    + destruct (Map_get String.eqb Part000.PGTYPE_TO_DARTTYPE_MAP (slice1 (name T))).
      * intros H. injection H as <- _. reflexivity.
      * destruct (0 <? List.length (enums T))%nat.
        -- intros H. injection H as <- _. reflexivity.
        -- destruct (0 <? List.length (attributes T))%nat.
           ++ unfold bindE, lift, ret.
              destruct (Part000.ClassDartConstructForCompositeType T); try discriminate.
              intros H. injection H as <- _. reflexivity.
           ++ intros H. injection H as <- _. reflexivity.
  - cbn [option_map].
    destruct (Map_get String.eqb Part000.PGTYPE_TO_DARTTYPE_MAP (name T)) as [d |] eqn:Hd.
    + intros H. injection H as <- _.
      exact (Map_get_Forall (fun e => Part000.isNullDartType (snd e) = false) _ _ _
               Part000_static_map_plain Hd).
    + destruct (0 <? List.length (enums T))%nat.
      * intros H. injection H as <- _. reflexivity.
      * destruct (0 <? List.length (attributes T))%nat.
        -- unfold bindE, lift, ret, Part000.ClassDartConstructForCompositeType.
           destruct (formatForDartClassName (name T)); cbn [bind]; try discriminate.
           intros H. injection H as <- _. reflexivity.
        -- intros H. injection H as <- _. reflexivity.
Qed.

Lemma hasKey_set (m : Part000.PostgresToDartMap) (k k' : string)
    (v : option PostgresType * Part000.DartType) :
  Part000.hasKey (Map_set String.eqb m k v) k'
  = (String.eqb k' k || Part000.hasKey m k').
Proof.
  unfold Part000.hasKey. rewrite (Map_get_set String.eqb String.eqb_eq).
  destruct (String.eqb k' k); reflexivity.
Qed.

(** One step of the loop that fills the registry. *)
Lemma Part000_registerType_ok (T : PostgresType) (w w' : Part000.World) :
  Part000.registerType T w = (Ok tt, w') ->
  Part000.hasKey (Part000.ptdMap w') (name T) = true
  /\ Part000.hasKey (Part000.ptdMap w') (numberKey (id T)) = true
  /\ (forall k, Part000.hasKey (Part000.ptdMap w) k = true ->
                Part000.hasKey (Part000.ptdMap w') k = true)
  /\ (plainEntries000 (Part000.ptdMap w) -> plainEntries000 (Part000.ptdMap w')).
Proof.
  unfold Part000.registerType.
  destruct (Part000.buildDartTypeFromPostgresType T (Part000.ptdMap w) (Part000.console w))
    as [[t | e |] console'] eqn:E; try discriminate.
  intros H. injection H as <-. cbn [Part000.ptdMap].
  split; [| split; [| split]].
  - rewrite hasKey_set, String.eqb_refl. reflexivity.
  - rewrite !hasKey_set, String.eqb_refl. apply orb_true_r.
  - intros k Hk. rewrite !hasKey_set, Hk, !orb_true_r. reflexivity.
  - intros Hplain. pose proof (Part000_mapper_plain _ _ _ _ _ E) as Ht.
    apply Map_set_Forall; [apply Map_set_Forall |]; auto.
Qed.

Lemma Part000_registerTypes_ok (types : list PostgresType) :
  forall w w',
    forEachE Part000.registerType types w = (Ok tt, w') ->
    (forall T, In T types ->
       Part000.hasKey (Part000.ptdMap w') (name T) = true
       /\ Part000.hasKey (Part000.ptdMap w') (numberKey (id T)) = true)
    /\ (forall k, Part000.hasKey (Part000.ptdMap w) k = true ->
                  Part000.hasKey (Part000.ptdMap w') k = true)
    /\ (plainEntries000 (Part000.ptdMap w) -> plainEntries000 (Part000.ptdMap w')).
Proof.
  induction types as [| T rest IH]; intros w w' H.
  - injection H as <-. split; [intros T [] | auto].
  - cbn [forEachE] in H. unfold bindE in H.
    destruct (Part000.registerType T w) as [[[] | e |] w1] eqn:E; try discriminate.
    destruct (Part000_registerType_ok _ _ _ E) as (Hn & Hi & Hk & Hp).
    destruct (IH _ _ H) as (Hall & Hk' & Hp').
    split; [| split; auto].
    intros U [<- | HU]; [split; apply Hk'; assumption | apply Hall; exact HU].
Qed.

(** What [apply] has when the loop over the required types is through. *)
Lemma Part000_registerRequiredTypes_ok (allTypes : list PostgresType)
    (columns : list PostgresColumn) (w w' : Part000.World) :
  Part000.registerRequiredTypes allTypes columns w = (Ok tt, w') ->
  exists out,
    snd (getRequiredTypes allTypes columns) = Ok out
    /\ forEachE Part000.registerType out
         {| Part000.ptdMap := Part000.ptdMap w;
            Part000.console :=
              (Part000.console w ++ fst (getRequiredTypes allTypes columns))%list |}
       = (Ok tt, w').
Proof.
  unfold Part000.registerRequiredTypes.
  destruct (getRequiredTypes allTypes columns) as [lines [out | e |]]; try discriminate.
  intros H. exists out. split; [reflexivity | exact H].
Qed.

(** A column whose format names a type of the catalog has that type
    among the required types. *)
Lemma resolved_format_required (allTypes : list PostgresType)
    (columns : list PostgresColumn) (out : list PostgresType) (c : PostgresColumn) :
  NoDup (map id allTypes) ->
  snd (getRequiredTypes allTypes columns) = Ok out ->
  In c columns -> formatUnresolved allTypes c = false ->
  exists T, In T out /\ name T = format c.
Proof.
  intros Hnd Hout Hc Hres. unfold formatUnresolved in Hres.
  destruct (Map_get String.eqb (typesByName allTypes) (format c)) as [T |] eqn:HT;
    [| discriminate].
  destruct (typesByName_get allTypes _ _ HT) as (Hin & Hname).
  exists T. split; [| exact Hname].
  apply (getRequiredTypes_returned _ _ _ Hout). exists (id T), (id T).
  split; [| split; [apply rt_refl | apply typeWithId_In; auto]].
  exists c, T. split; [exact Hc |]. split; [reflexivity |]. left. exact HT.
Qed.



(** * The insert variant *)

(** X11.  In [part_000] the insert variant of a column type is the type
    of the row, wrapped in [NullDartType] when the column is generated,
    an identity or defaulted, and left as it is otherwise; it fails
    exactly when the type of the row does, with the same error. *)
Theorem Part000_insert_variant_of_row_type (c : PostgresColumn)
    (ptdMap : Part000.PostgresToDartMap) :
  Part000.buildDartTypeFromPostgresColumn c ptdMap true
  = match Part000.buildDartTypeFromPostgresColumn c ptdMap false with
    | Ok t => Ok (if optionalOnInsert c then Part000.NullDartType t else t)
    | Throw e => Throw e
    | OutOfFuel => OutOfFuel
    end.
Proof.
  unfold Part000.buildDartTypeFromPostgresColumn. fold (optionalOnInsert c).
  destruct (Part000.entryType ptdMap (format c)) as [t0 | e |]; cbn [bind];
    try reflexivity.
  destruct (if String.eqb (format c) "jsonb" && Part000.hasKey ptdMap (col_name c)
            then Part000.entryType ptdMap (col_name c) else Ok t0) as [d | e |];
    cbn [bind]; try reflexivity.
  destruct (is_nullable c), (optionalOnInsert c); cbn [orb andb]; try reflexivity.
  destruct d; reflexivity.
Qed.

Lemma DartTs_markForInsert_step (c : PostgresColumn) (m m' : DartTs.PostgresToDartMap) :
  DartTs.markForInsert c m = Ok m' ->
  (forall k, k <> format c -> Map_get String.eqb m' k = Map_get String.eqb m k)
  /\ exists pg t,
       Map_get String.eqb m (format c) = Some (pg, t)
       /\ Map_get String.eqb m' (format c)
          = Some (pg, if optionalOnInsert c then DartTs.NullDartType t else t).
Proof.
  unfold DartTs.markForInsert. fold (optionalOnInsert c).
  destruct (Map_get String.eqb m (format c)) as [[pg t] |] eqn:E; [| discriminate].
  assert (Hset : forall v k, k <> format c ->
             Map_get String.eqb (Map_set String.eqb m (format c) v) k
             = Map_get String.eqb m k).
  { intros v k Hk. rewrite (Map_get_set String.eqb String.eqb_eq).
    apply String.eqb_neq in Hk. rewrite Hk. reflexivity. }
  destruct (DartTs.isNullDartType t) eqn:Hn; cbn [negb].
  - intros H. injection H as <-. split; [reflexivity |]. exists pg, t.
    split; [reflexivity |]. rewrite E.
    destruct t; try discriminate. destruct (optionalOnInsert c); reflexivity.
  - destruct (optionalOnInsert c).
    + intros H. injection H as <-. split; [apply Hset |]. exists pg, t.
      split; [reflexivity |].
      rewrite (Map_get_set String.eqb String.eqb_eq), String.eqb_refl. reflexivity.
    + intros H. injection H as <-. split; [reflexivity |]. exists pg, t. auto.
Qed.

(** X12.  In [dart.ts] the [forInsert] block of a row class writes the
    registry and nothing undoes it: when it is through, the entry of
    the format of every generated, identity or defaulted column of the
    class is a [NullDartType]; every entry holds the type it held, as it
    was or wrapped in [NullDartType], for the same catalog type; and the
    entries under other keys than the formats of the columns are what
    they were. *)
Theorem DartTs_forInsert_marks_formats (columns : list PostgresColumn) :
  forall ptdMap ptdMap',
    forEachM DartTs.markForInsert columns ptdMap = Ok ptdMap' ->
    (forall c, In c columns -> optionalOnInsert c = true ->
       exists pg t, Map_get String.eqb ptdMap' (format c) = Some (pg, DartTs.NullObject t))
    /\ (forall k pg t,
          Map_get String.eqb ptdMap k = Some (pg, t) ->
          Map_get String.eqb ptdMap' k = Some (pg, t)
          \/ Map_get String.eqb ptdMap' k = Some (pg, DartTs.NullDartType t))
    /\ (forall k, ~ In k (map format columns) ->
          Map_get String.eqb ptdMap' k = Map_get String.eqb ptdMap k).
Proof.
  induction columns as [| c rest IH]; intros m m' H.
  - injection H as <-. split; [intros c [] | auto].
  - cbn [forEachM] in H.
    destruct (DartTs.markForInsert c m) as [m1 | e |] eqn:E; cbn [bind] in H;
      try discriminate.
    destruct (DartTs_markForInsert_step _ _ _ E) as (Hother & pg0 & t0 & Hg & Hg1).
    destruct (IH _ _ H) as (Hmark & Hkeep & Hframe).
    assert (Hstep : forall k pg t,
               Map_get String.eqb m k = Some (pg, t) ->
               Map_get String.eqb m1 k = Some (pg, t)
               \/ Map_get String.eqb m1 k = Some (pg, DartTs.NullDartType t)).
    { intros k pg t Hk. destruct (String.eqb_spec k (format c)) as [-> | Hne].
      - rewrite Hg in Hk. injection Hk as <- <-. rewrite Hg1.
        destruct (optionalOnInsert c); auto.
      - left. rewrite Hother by exact Hne. exact Hk. }
    assert (Hnull : forall t, DartTs.NullDartType (DartTs.NullDartType t)
                              = DartTs.NullDartType t) by (intros t; destruct t; reflexivity).
    split; [| split].
    + intros d [<- | Hd] Hopt; [| exact (Hmark d Hd Hopt)].
      rewrite Hopt in Hg1.
      assert (Hn : exists u, DartTs.NullDartType t0 = DartTs.NullObject u)
        by (destruct t0; eexists; reflexivity).
      destruct Hn as (u & Hu). rewrite Hu in Hg1.
      destruct (Hkeep _ _ _ Hg1) as [Hk | Hk]; rewrite Hk; cbn [DartTs.NullDartType];
        eauto.
    + intros k pg t Hk. destruct (Hstep k pg t Hk) as [Hk1 | Hk1].
      * apply Hkeep. exact Hk1.
      * right. destruct (Hkeep _ _ _ Hk1) as [Hk2 | Hk2]; rewrite Hk2; [reflexivity |].
        rewrite Hnull. reflexivity.
    + intros k Hk. cbn [map In] in Hk. rewrite Hframe by tauto.
      apply Hother. intros ->. tauto.
Qed.

Lemma DartTs_forInsert_marks_formats_witness :
  exists pg t,
    Map_get String.eqb
      [("23", (ex_int4, DartTs.BuiltinDartType kw_int));
       ("int4", (ex_int4, DartTs.NullObject (DartTs.BuiltinDartType kw_int)))]
      (format ex_id_column)
    = Some (pg, DartTs.NullObject t).
Proof.
  destruct (DartTs_forInsert_marks_formats [ex_id_column; ex_qty_column]
              [("23", (ex_int4, DartTs.BuiltinDartType kw_int));
               ("int4", (ex_int4, DartTs.BuiltinDartType kw_int))]
              [("23", (ex_int4, DartTs.BuiltinDartType kw_int));
               ("int4", (ex_int4, DartTs.NullObject (DartTs.BuiltinDartType kw_int)))]
              eq_refl) as (Hmark & _).
  apply (Hmark ex_id_column); [left; reflexivity | reflexivity].
Defined.

(** * The schema in a check constraint *)

Lemma lastIndexOf_lower (c : ascii) (s : string) : -1 <= lastIndexOf c s.
Proof.
  induction s as [| x rest IH]; cbn [lastIndexOf]; [lia |].
  destruct (0 <=? lastIndexOf c rest) eqn:E; [apply Z.leb_le in E; lia |].
  destruct (Ascii.eqb x c); lia.
Qed.

Lemma lastIndexOf_app_last (c : ascii) (a t : string) :
  lastIndexOf c t = -1 ->
  lastIndexOf c (a ++ String c t) = Z.of_nat (String.length a).
Proof.
  intros Ht. induction a as [| x a IH].
  - cbn [append lastIndexOf String.length]. rewrite Ht. cbn. rewrite Ascii.eqb_refl.
    reflexivity.
  - cbn [append lastIndexOf String.length]. rewrite IH.
    destruct (0 <=? Z.of_nat (String.length a)) eqn:E; [lia |].
    apply Z.leb_gt in E. lia.
Qed.

Lemma lastIndexOf_app_none (c : ascii) (a b : string) :
  lastIndexOf c a = -1 -> lastIndexOf c b = -1 -> lastIndexOf c (a ++ b) = -1.
Proof.
  intros Ha Hb. induction a as [| x a IH]; [exact Hb |].
  cbn [append lastIndexOf] in *.
  destruct (0 <=? lastIndexOf c a) eqn:E.
  - apply Z.leb_le in E. lia.
  - destruct (Ascii.eqb x c); [discriminate |].
    apply Z.leb_gt in E. pose proof (lastIndexOf_lower c a) as Hl.
    rewrite IH by lia. reflexivity.
Qed.

Lemma length_append (a b : string) :
  String.length (a ++ b) = (String.length a + String.length b)%nat.
Proof.
  induction a as [| x a IH]; [reflexivity |]. cbn [append String.length]. rewrite IH.
  reflexivity.
Qed.

Lemma substring_prefix (a b : string) :
  String.substring 0 (String.length a) (a ++ b) = a.
Proof.
  induction a as [| x a IH]; [destruct b; reflexivity |].
  cbn [append String.length String.substring]. rewrite IH. reflexivity.
Qed.

(** X13.  The text that the loop of [apply] hands to [JSON.parse] for a
    check constraint [jsonb_matches_schema('] ... is what stands between
    this opening and the last closing brace, the brace included,
    whatever follows the brace; and when the constraint holds no
    closing brace at all, it is the opening itself, because
    [substring] swaps its two indices. *)
Theorem Part000_schemaText_extracts (body rest : string) :
  lastIndexOf "}" rest = -1 ->
  Part000.schemaText ("jsonb_matches_schema('" ++ body ++ "}" ++ rest) = body ++ "}"
  /\ Part000.schemaText ("jsonb_matches_schema('" ++ rest) = "jsonb_matches_schema('".
Proof.
  intros Hrest. unfold Part000.schemaText, substring. split.
  - assert (Hlast : lastIndexOf "}" ("jsonb_matches_schema('" ++ body ++ "}" ++ rest)
                    = 22 + Z.of_nat (String.length body)).
    { replace ("jsonb_matches_schema('" ++ body ++ "}" ++ rest)
        with (("jsonb_matches_schema('" ++ body) ++ String "}" rest).
      - rewrite (lastIndexOf_app_last _ _ _ Hrest), length_append.
        cbn [String.length]. lia.
      - cbn [append]. reflexivity. }
    rewrite Hlast, !length_append. cbn [String.length].
    match goal with
    | |- String.substring ?from ?len _ = _ =>
        replace from with 22%nat by lia;
        replace len with (String.length (body ++ "}"))
          by (rewrite length_append; cbn [String.length]; lia)
    end.
    cbn [append String.substring].
    replace (body ++ String "}" rest) with ((body ++ "}") ++ rest).
    + apply substring_prefix.
    + clear. induction body as [| x b IH]; [reflexivity |]. cbn [append]. rewrite IH.
      reflexivity.
  - assert (Hlast : lastIndexOf "}" ("jsonb_matches_schema('" ++ rest) = -1)
      by (apply lastIndexOf_app_none; [reflexivity | exact Hrest]).
    rewrite Hlast, length_append. cbn [String.length].
    match goal with
    | |- String.substring ?from ?len _ = _ =>
        replace from with 0%nat by lia;
        replace len with (String.length "jsonb_matches_schema('")
          by (cbn [String.length]; lia)
    end.
    apply substring_prefix.
Qed.

Lemma Part000_schemaText_extracts_witness :
  Part000.schemaText "jsonb_matches_schema('{}'::json, meta)" = "{}"
  /\ Part000.schemaText "jsonb_matches_schema(''::json, meta)" = "jsonb_matches_schema('".
Proof.
  exact (Part000_schemaText_extracts "{" "'::json, meta)" eq_refl).
Defined.

(** * The JSON-schema builder *)

Section JsonschemaBuilder.
Variable JSON_stringify : json -> string.

Local Abbreviation build := (Part000.buildDartTypeFromJsonschema JSON_stringify).

(** One unfolding of the builder on an object schema with a name. *)
Lemma build_object (fuel : nat) (schema : json) (n : string) (properties : json) :
  (exists l, schema = JArray l) \/ (exists l, schema = JObject l) ->
  whenTruthy (Part000.typeIs schema "array") (js_get schema "items") = None ->
  whenTruthy (Part000.typeIs schema "object") (js_get schema "properties")
  = Some properties ->
  build (S fuel) schema (Some n)
  = (do classProps <-
       forEachProperty (propertyStep JSON_stringify fuel properties)
                       (Part000.forInEntries properties) [];
     lift (Part000.ClassDartConstructForJsonschema n classProps)).
Proof.
  intros [(l & ->) | (l & ->)] Hi Hp; cbn [Part000.buildDartTypeFromJsonschema];
    rewrite Hi, Hp; reflexivity.
Qed.

Lemma build_array (fuel : nat) (schema : json) (name : option string) (items : json) :
  (exists l, schema = JArray l) \/ (exists l, schema = JObject l) ->
  whenTruthy (Part000.typeIs schema "array") (js_get schema "items") = Some items ->
  build (S fuel) schema name
  = (do newType <- build fuel items (Some (Part000.nameText name ++ "_element"));
     do _ <- Part000.register (Part000.nameText name ++ "_element") newType;
     ret (Part000.ListDartType newType)).
Proof.
  intros [(l & ->) | (l & ->)] Hi; cbn [Part000.buildDartTypeFromJsonschema];
    rewrite Hi; reflexivity.
Qed.
End JsonschemaBuilder.

Lemma jsonFuel_pos (v : json) : (1 <= jsonFuel v)%nat.
Proof. destruct v; cbn [jsonFuel]; lia. Qed.

Lemma jsonFuel_item (items : list json) (x : json) :
  In x items -> (jsonFuel x <= fold_right (fun x n => Nat.max (jsonFuel x) n) O items)%nat.
Proof.
  induction items as [| y rest IH]; [intros [] |].
  cbn [fold_right]. intros [-> | H]; [lia |]. specialize (IH H). lia.
Qed.

Lemma jsonFuel_field (fields : list (string * json)) (k : string) (x : json) :
  In (k, x) fields ->
  (jsonFuel x <= fold_right (fun kv n => Nat.max (jsonFuel (snd kv)) n) O fields)%nat.
Proof.
  induction fields as [| y rest IH]; [intros [] |].
  cbn [fold_right]. intros [-> | H]; [cbn [snd]; lia |]. specialize (IH H). lia.
Qed.

Lemma jsonFuel_get (schema : json) (k : string) (v : json) :
  js_get schema k = Some v -> (jsonFuel v < jsonFuel schema)%nat.
Proof.
  destruct schema; try discriminate. cbn [js_get jsonFuel]. intros H.
  apply Map_get_In in H. apply jsonFuel_field in H. lia.
Qed.

Lemma whenTruthy_some (cond : bool) (ov : option json) (v : json) :
  whenTruthy cond ov = Some v -> ov = Some v.
Proof.
  unfold whenTruthy. destruct (cond && truthy ov); [auto | discriminate].
Qed.

Lemma jsonFuel_entry (properties : json) (p : string) (sub : json) :
  In (p, sub) (Part000.forInEntries properties) ->
  (jsonFuel sub <= jsonFuel properties)%nat.
Proof.
  destruct properties; cbn [Part000.forInEntries jsonFuel]; try (intros []).
  - intros H. apply in_combine_r in H. apply in_map_iff in H.
    destruct H as (c & <- & _). cbn. lia.
  - intros H. apply in_combine_r in H. apply jsonFuel_item in H. lia.
  - intros H. apply jsonFuel_field in H. lia.
Qed.

Lemma grows000_refl (w : Part000.World) : grows000 w w.
Proof.
  split; [auto |]. exists []. rewrite app_nil_r. reflexivity.
Qed.

Lemma grows000_trans (w1 w2 w3 : Part000.World) :
  grows000 w1 w2 -> grows000 w2 w3 -> grows000 w1 w3.
Proof.
  intros (K1 & l1 & C1) (K2 & l2 & C2). split; [auto |].
  exists (l1 ++ l2)%list. rewrite C2, C1, app_assoc. reflexivity.
Qed.

Lemma steady_ret {A : Type} (a : A) : steady (ret a).
Proof. intros w. split; [discriminate | apply grows000_refl]. Qed.

Lemma steady_lift {A : Type} (o : outcome A) : o <> OutOfFuel -> steady (lift o).
Proof. intros H w. split; [exact H | apply grows000_refl]. Qed.

Lemma steady_bindE {A B : Type} (m : eff Part000.World A) (k : A -> eff Part000.World B) :
  steady m -> (forall a, steady (k a)) -> steady (bindE m k).
Proof.
  intros Hm Hk w. unfold bindE. specialize (Hm w).
  destruct (m w) as [[a | e |] w1]; cbn [fst snd] in Hm; destruct Hm as (Hf & Hg).
  - destruct (Hk a w1) as (Hf' & Hg'). split; [exact Hf' |].
    eapply grows000_trans; eassumption.
  - split; [discriminate | exact Hg].
  - contradiction.
Qed.

Lemma steady_register (k : string) (t : Part000.DartType) : steady (Part000.register k t).
Proof.
  intros w. split; [discriminate |]. split.
  - intros k' Hk. cbn [Part000.register snd Part000.ptdMap]. rewrite hasKey_set, Hk.
    apply orb_true_r.
  - exists []. cbn. rewrite app_nil_r. reflexivity.
Qed.

Lemma steady_log (l : logLine) : steady (Part000.log l).
Proof.
  intros w. split; [discriminate |]. split; [auto |]. exists [l]. reflexivity.
Qed.

Lemma formatForDartClassName_fuel (name : string) :
  formatForDartClassName name <> OutOfFuel.
Proof.
  unfold formatForDartClassName.
  assert (H : forall l, mapM capitalizeWord l <> OutOfFuel).
  { induction l as [| w ws IH]; [discriminate |].
    cbn [mapM]. destruct w; cbn [capitalizeWord bind]; [discriminate |].
    destruct (mapM capitalizeWord ws); [discriminate | discriminate | contradiction]. }
  specialize (H (splitNonAlnum name)).
  destruct (mapM capitalizeWord (splitNonAlnum name)); [discriminate | discriminate |].
  contradiction.
Qed.

Lemma js_in_fuel (k : string) (v : json) : js_in k v <> OutOfFuel.
Proof. destruct v; discriminate. Qed.

Lemma js_in_opt_fuel (k : string) (v : option json) : js_in_opt k v <> OutOfFuel.
Proof. destruct v as [v |]; [apply js_in_fuel | discriminate]. Qed.

Lemma forEachProperty_steady
    (body : string * json -> Part000.PostgresToDartMap ->
            eff Part000.World Part000.PostgresToDartMap)
    (entries : list (string * json)) :
  (forall e cp, In e entries -> steady (body e cp)) ->
  forall cp, steady (forEachProperty body entries cp).
Proof.
  induction entries as [| e rest IH]; intros Hbody cp; cbn [forEachProperty].
  - apply steady_ret.
  - apply steady_bindE; [apply Hbody; left; reflexivity |].
    intros cp'. apply IH. intros e' cp'' He'. apply Hbody. right. exact He'.
Qed.

Lemma forEachProperty_ext
    (body body' : string * json -> Part000.PostgresToDartMap ->
                  eff Part000.World Part000.PostgresToDartMap)
    (entries : list (string * json)) :
  (forall e cp w, In e entries -> body e cp w = body' e cp w) ->
  forall cp w, forEachProperty body entries cp w = forEachProperty body' entries cp w.
Proof.
  induction entries as [| e rest IH]; intros Hbody cp w; cbn [forEachProperty];
    [reflexivity |].
  unfold bindE. rewrite Hbody by (left; reflexivity).
  destruct (body' e cp w) as [[cp' | x |] w1]; try reflexivity.
  apply IH. intros e' cp'' w' He'. apply Hbody. right. exact He'.
Qed.

Section JsonschemaTotal.
Variable JSON_stringify : json -> string.

Local Abbreviation build := (Part000.buildDartTypeFromJsonschema JSON_stringify).

Lemma schema_cases (schema : json) :
  (exists l, schema = JArray l) \/ (exists l, schema = JObject l)
  \/ (forall fuel name, build (S fuel) schema name = ret Part000.StringToDynamic).
Proof.
  destruct schema; eauto; right; right; reflexivity.
Qed.

Lemma build_plain (fuel : nat) (schema : json) (name : option string) :
  (exists l, schema = JArray l) \/ (exists l, schema = JObject l) ->
  whenTruthy (Part000.typeIs schema "array") (js_get schema "items") = None ->
  whenTruthy (Part000.typeIs schema "object") (js_get schema "properties") = None ->
  exists t, build (S fuel) schema name = ret t.
Proof.
  intros [(l & ->) | (l & ->)] Hi Hp; cbn [Part000.buildDartTypeFromJsonschema];
    rewrite Hi, Hp;
    repeat match goal with
           | |- context [if ?c then _ else _] => destruct c
           end; eexists; reflexivity.
Qed.

Lemma build_nameless (fuel : nat) (schema : json) (properties : json) :
  (exists l, schema = JArray l) \/ (exists l, schema = JObject l) ->
  whenTruthy (Part000.typeIs schema "array") (js_get schema "items") = None ->
  whenTruthy (Part000.typeIs schema "object") (js_get schema "properties")
  = Some properties ->
  build (S fuel) schema None
  = (do _ <- Part000.log (NoNameProvided (JSON_stringify schema));
     ret Part000.StringToDynamic).
Proof.
  intros [(l & ->) | (l & ->)] Hi Hp; cbn [Part000.buildDartTypeFromJsonschema];
    rewrite Hi, Hp; reflexivity.
Qed.

Lemma propertyStep_steady (fuel : nat) (properties : json) (e : string * json)
    (cp : Part000.PostgresToDartMap) :
  steady (build fuel (snd e) (Some (fst e))) ->
  steady (propertyStep JSON_stringify fuel properties e cp).
Proof.
  destruct e as [p sub]. cbn [fst snd]. intros Hsub. unfold propertyStep.
  apply steady_bindE; [exact Hsub |]. intros newType.
  apply steady_bindE; [apply steady_lift, js_in_fuel |]. intros hasRequired.
  apply steady_bindE.
  - destruct hasRequired; [| apply steady_ret].
    apply steady_bindE; [apply steady_lift, js_in_opt_fuel |]. intros listed.
    apply steady_ret.
  - intros optional. apply steady_bindE; [apply steady_register |]. intros _.
    apply steady_ret.
Qed.

Lemma build_steady (fuel : nat) :
  forall schema name, (jsonFuel schema <= fuel)%nat -> steady (build fuel schema name).
Proof.
  induction fuel as [| fuel IH]; intros schema name Hfuel.
  { pose proof (jsonFuel_pos schema). lia. }
  destruct (schema_cases schema) as [Hs | [Hs | Hs]];
    [| | rewrite Hs; apply steady_ret].
  all: assert (Hc : (exists l, schema = JArray l) \/ (exists l, schema = JObject l))
    by auto.
  all: destruct (whenTruthy (Part000.typeIs schema "array") (js_get schema "items"))
    as [items |] eqn:Hi.
  all: try (rewrite (build_array JSON_stringify fuel schema name items Hc Hi);
            apply steady_bindE;
            [apply IH; apply whenTruthy_some, jsonFuel_get in Hi; lia |];
            intros newType; apply steady_bindE; [apply steady_register |];
            intros _; apply steady_ret).
  all: destruct (whenTruthy (Part000.typeIs schema "object") (js_get schema "properties"))
    as [properties |] eqn:Hp.
  all: try (destruct (build_plain fuel schema name Hc Hi Hp) as (t & ->);
            apply steady_ret).
  all: destruct name as [n |];
    [| rewrite (build_nameless fuel schema properties Hc Hi Hp);
       apply steady_bindE; [apply steady_log | intros _; apply steady_ret]].
  all: rewrite (build_object JSON_stringify fuel schema n properties Hc Hi Hp).
  all: apply steady_bindE;
    [| intros cp; apply steady_lift; unfold Part000.ClassDartConstructForJsonschema;
       pose proof (formatForDartClassName_fuel n);
       destruct (formatForDartClassName n); [discriminate | discriminate | contradiction]].
  all: apply forEachProperty_steady; intros [p sub] cp He;
    apply propertyStep_steady; apply IH; cbn [snd];
    apply jsonFuel_entry in He; apply whenTruthy_some, jsonFuel_get in Hp; lia.
Qed.
End JsonschemaTotal.

Lemma bindE_ext {S A B : Type} (m m' : eff S A) (k k' : A -> eff S B) (w : S) :
  m w = m' w -> (forall a w', k a w' = k' a w') -> bindE m k w = bindE m' k' w.
Proof.
  intros Hm Hk. unfold bindE. rewrite Hm.
  destruct (m' w) as [[a | e |] w1]; [apply Hk | reflexivity | reflexivity].
Qed.

Section JsonschemaFuel.
Variable JSON_stringify : json -> string.

Local Abbreviation build := (Part000.buildDartTypeFromJsonschema JSON_stringify).

Lemma propertyStep_ext (fuel fuel' : nat) (properties : json) (e : string * json)
    (cp : Part000.PostgresToDartMap) (w : Part000.World) :
  (forall w', build fuel (snd e) (Some (fst e)) w' = build fuel' (snd e) (Some (fst e)) w') ->
  propertyStep JSON_stringify fuel properties e cp w
  = propertyStep JSON_stringify fuel' properties e cp w.
Proof.
  destruct e as [p sub]. cbn [fst snd]. intros H. unfold propertyStep.
  apply bindE_ext; [apply H | reflexivity].
Qed.

(** More fuel than the nesting of the schema changes nothing. *)
Lemma build_fuel (fuel : nat) :
  forall fuel' schema name w,
    (jsonFuel schema <= fuel)%nat -> (jsonFuel schema <= fuel')%nat ->
    build fuel schema name w = build fuel' schema name w.
Proof.
  induction fuel as [| fuel IH]; intros fuel' schema name w Hfuel Hfuel'.
  { pose proof (jsonFuel_pos schema). lia. }
  destruct fuel' as [| fuel']; [pose proof (jsonFuel_pos schema); lia |].
  destruct (schema_cases JSON_stringify schema) as [Hs | [Hs | Hs]];
    [| | rewrite !Hs; reflexivity].
  all: assert (Hc : (exists l, schema = JArray l) \/ (exists l, schema = JObject l))
    by auto.
  all: destruct (whenTruthy (Part000.typeIs schema "array") (js_get schema "items"))
    as [items |] eqn:Hi.
  all: try (rewrite !(build_array JSON_stringify _ schema name items Hc Hi);
            apply bindE_ext; [| reflexivity];
            apply IH; apply whenTruthy_some, jsonFuel_get in Hi; lia).
  all: destruct (whenTruthy (Part000.typeIs schema "object") (js_get schema "properties"))
    as [properties |] eqn:Hp.
  all: try (clear - Hc Hi Hp; destruct Hc as [(l & ->) | (l & ->)];
            cbn [Part000.buildDartTypeFromJsonschema]; rewrite Hi, Hp; reflexivity).
  all: destruct name as [n |];
    [| rewrite !(build_nameless JSON_stringify _ schema properties Hc Hi Hp);
       reflexivity].
  all: rewrite !(build_object JSON_stringify _ schema n properties Hc Hi Hp).
  all: apply bindE_ext; [| reflexivity].
  all: apply forEachProperty_ext; intros [p sub] cp w' He;
    apply propertyStep_ext; intros w''; apply IH; cbn [snd];
    apply jsonFuel_entry in He; apply whenTruthy_some, jsonFuel_get in Hp; lia.
Qed.

End JsonschemaFuel.

(** X14.  The JSON-schema builder of [part_000] comes to an end on every
    JSON value: its recursion is no deeper than the nesting of the
    schema.  Whether it returns or throws, every key of the registry is
    still a key afterwards, and the console holds what it held, with at
    most new lines behind. *)
Theorem Part000_jsonschema_terminates (JSON_stringify : json -> string) (schema : json)
    (name : option string) (w : Part000.World) :
  fst (Part000.buildDartTypeFromJsonschema JSON_stringify (jsonFuel schema) schema name w)
  <> OutOfFuel
  /\ (forall fuel,
        (jsonFuel schema <= fuel)%nat ->
        Part000.buildDartTypeFromJsonschema JSON_stringify fuel schema name w
        = Part000.buildDartTypeFromJsonschema JSON_stringify (jsonFuel schema) schema name w)
  /\ grows000 w
       (snd (Part000.buildDartTypeFromJsonschema JSON_stringify (jsonFuel schema) schema
               name w)).
Proof.
  destruct (build_steady JSON_stringify (jsonFuel schema) schema name (le_n _) w)
    as (Hf & Hg).
  split; [exact Hf |]. split; [| exact Hg].
  intros fuel Hfuel. apply build_fuel; [exact Hfuel | apply le_n].
Qed.

(** X15.  Of a schema object the builder reads the keys [type], [items]
    and [properties], and no other: given a name, two schema objects
    that agree on these three give the same type, the same registry and
    the same console.  The list under the key [required] of the schema
    is among what it does not read. *)
Theorem Part000_jsonschema_reads_three_keys (JSON_stringify : json -> string)
    (fuel : nat) (fields fields' : list (string * json)) (n : string) (w : Part000.World) :
  Map_get String.eqb fields "type" = Map_get String.eqb fields' "type" ->
  Map_get String.eqb fields "items" = Map_get String.eqb fields' "items" ->
  Map_get String.eqb fields "properties" = Map_get String.eqb fields' "properties" ->
  Part000.buildDartTypeFromJsonschema JSON_stringify fuel (JObject fields) (Some n) w
  = Part000.buildDartTypeFromJsonschema JSON_stringify fuel (JObject fields') (Some n) w.
Proof.
  intros Ht Hi Hp. destruct fuel as [| fuel]; [reflexivity |].
  cbn [Part000.buildDartTypeFromJsonschema]. unfold Part000.typeIs.
  cbn [js_get]. rewrite Ht, Hi, Hp. reflexivity.
Qed.

Lemma Part000_jsonschema_reads_three_keys_witness :
  Part000.buildDartTypeFromJsonschema (fun _ => EmptyString) 3 ex_schema (Some "meta")
                                      emptyWorld000
  = Part000.buildDartTypeFromJsonschema (fun _ => EmptyString) 3
      (JObject [("type", JString "object");
                ("properties",
                 JObject [("title", JObject [("type", JString "string")]);
                          ("note", JObject [("type", JString "string")])]);
                ("required", JArray [JString "title"; JString "note"])])
      (Some "meta") emptyWorld000.
Proof.
  apply (Part000_jsonschema_reads_three_keys (fun _ => EmptyString) 3); reflexivity.
Defined.




(** * The comment of an enum in [dart.ts] *)

Lemma js_in_object_none (k : string) (fields : list (string * json)) :
  Map_get String.eqb fields k = None -> js_in k (JObject fields) = Ok false.
Proof.
  intros H. cbn [js_in]. f_equal. induction fields as [| [k' v'] rest IH]; [reflexivity |].
  cbn [Map_get] in H. cbn [existsb fst]. destruct (String.eqb k k'); [discriminate |].
  cbn [orb]. apply IH. exact H.
Qed.

(** The test of one locale in [isTranslation]. *)
Lemma isTranslation_locale (translation : list (string * json)) (values : list string)
    (locale : string) :
  tableOrNothing translation locale ->
  (let* present := js_in_opt locale (Some (JObject translation)) in
   if present then
     let* keys := Object_keys (js_get_opt (Some (JObject translation)) locale) in
     Ok (Nat.eqb
           (List.length (filter (fun k => negb (existsb (String.eqb k) values)) keys)) 0)
   else Ok false)
  = Ok (localeCovered translation values locale).
Proof.
  unfold localeCovered. cbn [js_in_opt js_get_opt js_get].
  intros [H | (table & H)]; rewrite H.
  - rewrite (js_in_object_none _ _ H). reflexivity.
  - rewrite (js_in_object _ _ _ H). cbn [bind Object_keys]. rewrite no_foreign_key.
    reflexivity.
Qed.

(** X17.  In [dart.ts], for a comment that parses to an object: without
    a key [translation] the enum is built without the comment and a line
    is logged; with a [translation] object that holds, for each
    supported locale, a table or nothing, the comment is attached
    exactly when every supported locale has a table and no table has a
    key that is no value of the enum (a value without a translation is
    accepted), and otherwise the enum is built without it and a line is
    logged. *)
Theorem DartTs_enum_comment_accepted (JSON_parse : string -> outcome json)
    (enumName text : string) (values : list string) (console : list logLine)
    (fields : list (string * json)) :
  JSON_parse text = Ok (JObject fields) ->
  (Map_get String.eqb fields "translation" = None ->
   DartTs.EnumDartConstruct JSON_parse enumName values (Some text) console
   = (Ok (DartTs.EnumObject enumName values None),
      (console ++ [InvalidEnumComment enumName text])%list))
  /\ (forall translation,
        Map_get String.eqb fields "translation" = Some (JObject translation) ->
        Forall (tableOrNothing translation) DartTs.SUPPORTED_LOCALES ->
        DartTs.EnumDartConstruct JSON_parse enumName values (Some text) console
        = if forallb (localeCovered translation values) DartTs.SUPPORTED_LOCALES
          then (Ok (DartTs.EnumObject enumName values (Some (JObject fields))), console)
          else (Ok (DartTs.EnumObject enumName values None),
                (console ++ [InvalidEnumComment enumName text])%list)).
Proof.
  intros Hparse. unfold DartTs.EnumDartConstruct, bindE, lift. rewrite Hparse.
  unfold DartTs.isEnumDartComment. split.
  - intros Hnone. rewrite (js_in_object_none _ _ Hnone). reflexivity.
  - intros translation Htr Hshape. rewrite (js_in_object _ _ _ Htr). cbn [bind negb].
    cbn [js_get]. rewrite Htr.
    unfold DartTs.isTranslation, DartTs.SUPPORTED_LOCALES in *.
    inversion Hshape as [| ? ? Hen Hrest]; subst.
    inversion Hrest as [| ? ? Hit _]; subst.
    cbn [mapM].
    rewrite (isTranslation_locale translation values "en" Hen).
    rewrite (isTranslation_locale translation values "it" Hit).
    cbn [bind forallb]. rewrite andb_true_r.
    destruct (localeCovered translation values "en" && localeCovered translation values "it");
      reflexivity.
Qed.

Lemma DartTs_enum_comment_accepted_witness :
  DartTs.EnumDartConstruct (fun _ => Ok ex_translation) "mood" ["happy"; "sad"; "calm"]
    (Some "comment") []
  = (Ok (DartTs.EnumObject "mood" ["happy"; "sad"; "calm"] (Some ex_translation)), []).
Proof.
  refine (proj2 (DartTs_enum_comment_accepted (fun _ => Ok ex_translation) "mood" "comment"
                   ["happy"; "sad"; "calm"] [] _ eq_refl) _ eq_refl _).
  apply Forall_cons; [right; eexists; reflexivity |].
  apply Forall_cons; [right; eexists; reflexivity | apply Forall_nil].
Defined.

(** * What the registry holds for the required types *)

Lemma Part000_registerTypes_app (l1 l2 : list PostgresType) :
  forall w w',
    forEachE Part000.registerType (l1 ++ l2) w = (Ok tt, w') ->
    exists w1,
      forEachE Part000.registerType l1 w = (Ok tt, w1)
      /\ forEachE Part000.registerType l2 w1 = (Ok tt, w').
Proof.
  induction l1 as [| T rest IH]; intros w w' H.
  - exists w. split; [reflexivity | exact H].
  - cbn [app forEachE] in *. unfold bindE in *.
    destruct (Part000.registerType T w) as [[[] | e |] w0]; try discriminate.
    apply IH. exact H.
Qed.

Lemma Part000_registerType_writes (T : PostgresType) (w w' : Part000.World) :
  Part000.registerType T w = (Ok tt, w') ->
  exists t,
    fst (Part000.buildDartTypeFromPostgresType T (Part000.ptdMap w) (Part000.console w))
    = Ok t
    /\ Map_get String.eqb (Part000.ptdMap w') (name T) = Some (Some T, t)
    /\ Map_get String.eqb (Part000.ptdMap w') (numberKey (id T)) = Some (Some T, t)
    /\ forall k, k <> name T -> k <> numberKey (id T) ->
                 Map_get String.eqb (Part000.ptdMap w') k
                 = Map_get String.eqb (Part000.ptdMap w) k.
Proof.
  unfold Part000.registerType.
  destruct (Part000.buildDartTypeFromPostgresType T (Part000.ptdMap w) (Part000.console w))
    as [[t | e |] console']; try discriminate.
  intros H. injection H as <-. exists t. cbn [fst Part000.ptdMap].
  rewrite !(Map_get_set String.eqb String.eqb_eq), !String.eqb_refl.
  split; [reflexivity |]. split; [reflexivity |]. split.
  - destruct (String.eqb (numberKey (id T)) (name T)); reflexivity.
  - intros k Hn Hi. rewrite !(Map_get_set String.eqb String.eqb_eq).
    apply String.eqb_neq in Hn, Hi. rewrite Hn, Hi. reflexivity.
Qed.

Lemma Part000_registerTypes_keep (l : list PostgresType) (k : string) :
  (forall U, In U l -> name U <> k /\ numberKey (id U) <> k) ->
  forall w w',
    forEachE Part000.registerType l w = (Ok tt, w') ->
    Map_get String.eqb (Part000.ptdMap w') k = Map_get String.eqb (Part000.ptdMap w) k.
Proof.
  induction l as [| T rest IH]; intros Hk w w' H.
  - injection H as <-. reflexivity.
  - cbn [forEachE] in H. unfold bindE in H.
    destruct (Part000.registerType T w) as [[[] | e |] w0] eqn:E; try discriminate.
    destruct (Part000_registerType_writes _ _ _ E) as (_ & _ & _ & _ & Hother).
    destruct (Hk T (or_introl eq_refl)) as (Hn & Hi).
    rewrite (IH (fun U HU => Hk U (or_intror HU)) _ _ H).
    apply Hother; congruence.
Qed.

(** The types returned are types of the catalog. *)
Lemma getRequiredTypes_catalog (allTypes : list PostgresType)
    (columns : list PostgresColumn) (out : list PostgresType) (T : PostgresType) :
  snd (getRequiredTypes allTypes columns) = Ok out -> In T out -> In T allTypes.
Proof.
  intros Hout HT. apply (getRequiredTypes_returned _ _ _ Hout) in HT.
  destruct HT as (r & i & _ & _ & HT). exact (proj1 (typesById_get allTypes i T HT)).
Qed.

Lemma namesApartFromIds_spec (allTypes : list PostgresType) (T U : PostgresType) :
  namesApartFromIds allTypes = true -> In T allTypes -> In U allTypes ->
  name T <> numberKey (id U).
Proof.
  unfold namesApartFromIds. rewrite forallb_forall. intros H HT HU.
  specialize (H T HT). rewrite forallb_forall in H. specialize (H U HU).
  apply negb_true_iff, String.eqb_neq in H. exact H.
Qed.

Lemma getRequiredTypes_attribute (allTypes : list PostgresType)
    (columns : list PostgresColumn) (out : list PostgresType) (T D : PostgresType) (i : Z) :
  snd (getRequiredTypes allTypes columns) = Ok out ->
  In T out -> In i (map type_id (attributes T)) -> typeWithId allTypes i D ->
  In D out /\ id D = i.
Proof.
  intros Hout HT Hi HD.
  destruct (getRequiredTypes_returned _ _ _ Hout) as (_ & Hin).
  split; [| exact (proj2 (typesById_get allTypes i D HD))].
  apply Hin in HT. destruct HT as (r & j & Hr & Hreach & HTj).
  apply Hin. exists r, i. split; [exact Hr |]. split; [| exact HD].
  eapply rt_trans; [exact Hreach |]. apply rt_step. exists T. split; [exact HTj | auto].
Qed.



(** X19.  In [part_000], for a catalog whose types differ in their ids
    and in their names, no name being the decimal text of an id or an
    inherited property name: when the loop of [apply] that registers
    the required types is through, a required array-marked type whose
    base type is a type of the catalog that is not array-marked is
    registered as the list of the very type its base type is registered
    as. *)
Theorem Part000_array_registered_as_list (allTypes : list PostgresType)
    (columns : list PostgresColumn) (w w' : Part000.World) (out : list PostgresType)
    (A B : PostgresType) :
  NoDup (map id allTypes) -> NoDup (map name allTypes) ->
  namesApartFromIds allTypes = true -> ownNames allTypes = true ->
  Part000.registerRequiredTypes allTypes columns w = (Ok tt, w') ->
  snd (getRequiredTypes allTypes columns) = Ok out ->
  In A out -> isArrayType A = true ->
  In B allTypes -> name B = slice1 (name A) -> isArrayType B = false ->
  exists t,
    Part000.entryType (Part000.ptdMap w') (name B) = Ok t
    /\ Part000.entryType (Part000.ptdMap w') (name A) = Ok (Part000.ListDartType t).
Proof.
  intros Hids Hnames Hapart _ Hreg Hout HA HarrA HB HnameB HarrB.
  destruct (Part000_registerRequiredTypes_ok _ _ _ _ Hreg) as (out' & Hout' & Hloop).
  assert (out' = out) by congruence. subst out'.
  (* the base type is required, and stands before the array type *)
  destruct (getRequiredTypes_returned _ _ _ Hout) as (Hndout & Hin).
  assert (HBout : In B out).
  { apply Hin. pose proof HA as HA'. apply Hin in HA'.
    destruct HA' as (r & j & Hr & Hreach & HAj).
    exists r, (id B). split; [exact Hr |]. split.
    - eapply rt_trans; [exact Hreach |]. apply rt_step. exists A. split; [exact HAj |].
      right. split; [exact HarrA |]. exists B. split; [| reflexivity].
      apply typeNamed_In; auto.
    - apply typeWithId_In; auto. }
  destruct (getRequiredTypes_required allTypes columns) as (required & _ & Hndreq & _ & E).
  rewrite E in Hout.
  destruct (sortTypesByDependency_ok _ _ Hndreq Hout) as (l & Hl & _ & _ & _).
  assert (Hbefore : before B A out).
  { rewrite Hl. rewrite Hl in HA, HBout.
    pose proof (arraysMovedLast_Permutation l) as P.
    apply plain_before_array; auto; eapply Permutation_in; eassumption. }
  destruct Hbefore as (l1 & l2 & l3 & Esplit).
  (* no other type of the list writes the keys of the two names *)
  assert (Hcat : forall U, In U out -> In U allTypes).
  { intros U HU. apply Hin in HU. destruct HU as (r & i & _ & _ & HU).
    exact (proj1 (typesById_get allTypes i U HU)). }
  assert (Hkeys : forall T U, In T out -> In U out -> U <> T ->
                              name U <> name T /\ numberKey (id U) <> name T).
  { intros T U HT HU Hne. split.
    - intros Hn. apply Hne. apply (NoDup_map_inj name allTypes); auto.
    - intros Hn. symmetry in Hn. revert Hn. apply (namesApartFromIds_spec allTypes); auto. }
  rewrite Esplit in Hndout, Hloop.
  assert (Hapart2 : forall U, In U l2 -> U <> B /\ U <> A).
  { intros U HU. split; intros ->.
    - apply NoDup_remove_2 in Hndout. apply Hndout.
      apply in_or_app. right. apply in_or_app. left. exact HU.
    - apply NoDup_app_remove_l in Hndout. inversion Hndout as [| ? ? _ Hnd']; subst.
      apply NoDup_remove_2 in Hnd'. apply Hnd'. apply in_or_app. left. exact HU. }
  assert (Hapart3 : forall U, In U l3 -> U <> B /\ U <> A).
  { intros U HU. split; intros ->.
    - apply NoDup_remove_2 in Hndout. apply Hndout.
      apply in_or_app. right. apply in_or_app. right. right. exact HU.
    - apply NoDup_app_remove_l in Hndout. inversion Hndout as [| ? ? _ Hnd']; subst.
      apply NoDup_remove_2 in Hnd'. apply Hnd'. apply in_or_app. right. exact HU. }
  assert (HAB : A <> B) by (intros ->; congruence).
  assert (Hsub : forall U, In U l2 \/ In U l3 -> In U out).
  { intros U HU. rewrite Esplit. apply in_or_app. right. right. apply in_or_app.
    destruct HU as [HU | HU]; [left; exact HU | right; right; exact HU]. }
  (* the walk through the list *)
  destruct (Part000_registerTypes_app _ _ _ _ Hloop) as (wa & _ & Hloop1).
  cbn [forEachE] in Hloop1. unfold bindE at 1 in Hloop1.
  destruct (Part000.registerType B wa) as [[[] | e |] wb] eqn:EB; try discriminate.
  destruct (Part000_registerType_writes _ _ _ EB) as (tB & _ & HgB & _).
  destruct (Part000_registerTypes_app _ _ _ _ Hloop1) as (wc & Hloop2 & Hloop3).
  cbn [forEachE] in Hloop3. unfold bindE at 1 in Hloop3.
  destruct (Part000.registerType A wc) as [[[] | e |] wd] eqn:EA; try discriminate.
  assert (HgBc : Map_get String.eqb (Part000.ptdMap wc) (name B) = Some (Some B, tB)).
  { rewrite (Part000_registerTypes_keep l2 (name B)) with (w := wb) (w' := wc);
      [exact HgB | | exact Hloop2].
    intros U HU. apply Hkeys; auto. apply (Hapart2 U HU). }
  destruct (Part000_registerType_writes _ _ _ EA) as (tA & HtA & HgA & _ & HotherA).
  assert (EtA : tA = Part000.ListDartType tB).
  { unfold Part000.buildDartTypeFromPostgresType in HtA. unfold isArrayType in HarrA.
    rewrite HarrA, <- HnameB, HgBc in HtA. cbn in HtA. congruence. }
  subst tA.
  assert (HgBd : Map_get String.eqb (Part000.ptdMap wd) (name B) = Some (Some B, tB)).
  { rewrite HotherA; [exact HgBc | |].
    - intros Hn. apply HAB. apply (NoDup_map_inj name allTypes); auto.
    - apply (namesApartFromIds_spec allTypes); auto. }
  exists tB. unfold Part000.entryType. split.
  - rewrite (Part000_registerTypes_keep l3 (name B)) with (w := wd) (w' := w');
      [rewrite HgBd; reflexivity | | exact Hloop3].
    intros U HU. apply Hkeys; auto. apply (Hapart3 U HU).
  - rewrite (Part000_registerTypes_keep l3 (name A)) with (w := wd) (w' := w');
      [rewrite HgA; reflexivity | | exact Hloop3].
    intros U HU. apply Hkeys; auto. apply (Hapart3 U HU).
Qed.

Lemma Part000_array_registered_as_list_witness :
  exists t,
    Part000.entryType
      (Part000.ptdMap
         (snd (Part000.registerRequiredTypes ex_catalog [plainColumn "sizes" "_int4"]
                 emptyWorld000)))
      (name ex_int4) = Ok t
    /\ Part000.entryType
         (Part000.ptdMap
            (snd (Part000.registerRequiredTypes ex_catalog [plainColumn "sizes" "_int4"]
                    emptyWorld000)))
         (name ex_int4_array) = Ok (Part000.ListDartType t).
Proof.
  apply (Part000_array_registered_as_list ex_catalog [plainColumn "sizes" "_int4"]
           emptyWorld000 _ [ex_int4; ex_int4_array] ex_int4_array ex_int4).
  - repeat constructor; cbn; intuition discriminate.
  - repeat constructor; cbn; intuition discriminate.
  - reflexivity.
  - reflexivity.
  - reflexivity.
  - reflexivity.
  - right. left. reflexivity.
  - reflexivity.
  - right. right. right. left. reflexivity.
  - reflexivity.
  - reflexivity.
Defined.

(** * The names that can be formatted *)

Lemma splitNonAlnum_cons (s : string) : exists w ws, splitNonAlnum s = w :: ws.
Proof.
  destruct s as [| c rest]; cbn [splitNonAlnum]; [eauto |].
  destruct (isAlnum c); [destruct (splitNonAlnum rest) |]; eauto.
Qed.

Lemma splitNonAlnum_head (s : string) :
  hd EmptyString (splitNonAlnum s) = EmptyString
  <-> s = EmptyString \/ startsWithSeparator s = true.
Proof.
  destruct s as [| c rest]; cbn [splitNonAlnum startsWithSeparator].
  - cbn. tauto.
  - destruct (isAlnum c); cbn [negb].
    + destruct (splitNonAlnum rest); cbn [hd]; split; try discriminate;
        intros [H | H]; discriminate.
    + cbn [hd]. tauto.
Qed.

Lemma splitNonAlnum_tail (s : string) :
  In EmptyString (tl (splitNonAlnum s))
  <-> endsWithSeparator s = true \/ hasAdjacentSeparators s = true.
Proof.
  induction s as [| c rest IH].
  - cbn. split; [intros [] | intros [H | H]; discriminate].
  - cbn [splitNonAlnum]. destruct (isAlnum c) eqn:Hc.
    + assert (E : tl (match splitNonAlnum rest with
                      | [] => [String c EmptyString]
                      | w :: ws => String c w :: ws
                      end) = tl (splitNonAlnum rest)).
      { destruct (splitNonAlnum_cons rest) as (w & ws & ->). reflexivity. }
      rewrite E, IH. clear E IH.
      destruct rest as [| c2 rest']; cbn [endsWithSeparator hasAdjacentSeparators];
        rewrite Hc; cbn [negb andb orb]; tauto.
    + cbn [tl].
      destruct (splitNonAlnum_cons rest) as (w & ws & E).
      assert (Hsplit : In EmptyString (splitNonAlnum rest)
                       <-> hd EmptyString (splitNonAlnum rest) = EmptyString
                           \/ In EmptyString (tl (splitNonAlnum rest))).
      { rewrite E. cbn [hd tl In]. tauto. }
      rewrite Hsplit, splitNonAlnum_head, IH. clear Hsplit IH E.
      destruct rest as [| c2 rest'];
        cbn [endsWithSeparator hasAdjacentSeparators startsWithSeparator];
        rewrite Hc; cbn [negb andb orb].
      * intuition.
      * destruct (isAlnum c2); cbn [negb orb]; intuition discriminate.
Qed.

Lemma splitNonAlnum_empty_piece (s : string) :
  In EmptyString (splitNonAlnum s) <-> formattableName s = false.
Proof.
  destruct (splitNonAlnum_cons s) as (w & ws & E).
  assert (Hsplit : In EmptyString (splitNonAlnum s)
                   <-> hd EmptyString (splitNonAlnum s) = EmptyString
                       \/ In EmptyString (tl (splitNonAlnum s))).
  { rewrite E. cbn [hd tl In]. tauto. }
  rewrite Hsplit, splitNonAlnum_head, splitNonAlnum_tail. unfold formattableName.
  destruct (String.eqb_spec s EmptyString) as [-> | Hne]; cbn [negb andb].
  - tauto.
  - destruct (startsWithSeparator s), (endsWithSeparator s), (hasAdjacentSeparators s);
      cbn [negb andb]; intuition discriminate.
Qed.

(** X20.  [formatForDartClassName], and with it
    [formatForDartPropertyName], returns exactly for the names that are
    not empty, begin and end with a letter or a digit, and hold no two
    characters outside [[a-zA-Z0-9]] in a row; for every other name,
    the empty name and a name that ends with an underscore among them,
    both throw the [TypeError] of calling [toUpperCase] on
    [undefined]. *)
Theorem formatForDartClassName_formattable (name : string) :
  if formattableName name
  then exists s p, formatForDartClassName name = Ok s
                   /\ formatForDartPropertyName name = Ok p
  else formatForDartClassName name = Throw undefinedToUpperCase
       /\ formatForDartPropertyName name = Throw undefinedToUpperCase.
Proof.
  destruct (formattableName name) eqn:Hf.
  - assert (Hall : Forall (fun w => w <> EmptyString) (splitNonAlnum name)).
    { apply Forall_forall. intros w Hw ->. apply splitNonAlnum_empty_piece in Hw.
      congruence. }
    destruct (mapM_capitalizeWord_ok _ Hall) as [out E].
    assert (Hs : formatForDartClassName name = Ok (join EmptyString out))
      by (unfold formatForDartClassName; rewrite E; reflexivity).
    destruct (formatForDartClassName_shape _ _ Hs) as (_ & c & r & Hr).
    exists (join EmptyString out). eexists. split; [exact Hs |].
    unfold formatForDartPropertyName. rewrite Hs, Hr. reflexivity.
  - apply splitNonAlnum_empty_piece in Hf.
    assert (E : formatForDartClassName name = Throw undefinedToUpperCase).
    { unfold formatForDartClassName. rewrite (mapM_capitalizeWord_throw _ Hf).
      reflexivity. }
    split; [exact E |]. unfold formatForDartPropertyName. rewrite E. reflexivity.
Qed.

(** * Nullable entries in the registry of [dart.ts] *)

Lemma DartTs_static_map_plain :
  Forall (fun e => DartTs.isNullDartType (snd e) = false) DartTs.PGTYPE_TO_DARTTYPE_MAP.
Proof. repeat constructor. Qed.

Lemma DartTs_EnumDartConstruct_plain (JSON_parse : string -> outcome json)
    (enumName : string) (values : list string) (comment : option string)
    (console console' : list logLine) (t : DartTs.DartType) :
  DartTs.EnumDartConstruct JSON_parse enumName values comment console = (Ok t, console') ->
  exists c, t = DartTs.EnumObject enumName values c.
Proof.
  unfold DartTs.EnumDartConstruct. destruct comment as [text |].
  - unfold bindE, lift, ret. destruct (JSON_parse text); try discriminate.
    destruct (DartTs.isEnumDartComment a values) as [[] | |]; try discriminate;
      intros H; injection H as <- _; eexists; reflexivity.
  - intros H. injection H as <- _. eexists. reflexivity.
Qed.

(** The mapper of [dart.ts] builds no [NullDartType]. *)
Lemma DartTs_mapper_plain (JSON_parse : string -> outcome json) (T : PostgresType)
    (m : DartTs.PostgresToDartMap) (console console' : list logLine) (t : DartTs.DartType) :
  DartTs.buildDartTypeFromPostgresType JSON_parse T m console = (Ok t, console') ->
  DartTs.isNullDartType t = false.
Proof.
  unfold DartTs.buildDartTypeFromPostgresType.
  destruct (startsWithUnderscore (name T)) eqn:Harr.
  - destruct (option_map snd (Map_get String.eqb m (slice1 (name T)))) as [t0 |].
    + intros H. injection H as <- _. reflexivity.
    + destruct (Map_get String.eqb DartTs.PGTYPE_TO_DARTTYPE_MAP (slice1 (name T))).
      * intros H. injection H as <- _. reflexivity.
      * destruct (0 <? List.length (enums T))%nat.
        -- unfold bindE, ret.
           destruct (DartTs.EnumDartConstruct JSON_parse (name T) (enums T) (comment T)
                       console) as [[e | x |] c]; try discriminate.
           intros H. injection H as <- _. reflexivity.
        -- destruct (0 <? List.length (attributes T))%nat.
           ++ unfold bindE, lift, ret.
              destruct (DartTs.ClassDartConstructForCompositeType T); try discriminate.
              intros H. injection H as <- _. reflexivity.
           ++ intros H. injection H as <- _. reflexivity.
  - cbn [option_map].
    destruct (Map_get String.eqb DartTs.PGTYPE_TO_DARTTYPE_MAP (name T)) as [d |] eqn:Hd.
    + intros H. injection H as <- _.
      exact (Map_get_Forall (fun e => DartTs.isNullDartType (snd e) = false) _ _ _
               DartTs_static_map_plain Hd).
    + destruct (0 <? List.length (enums T))%nat.
      * unfold bindE, ret.
        destruct (DartTs.EnumDartConstruct JSON_parse (name T) (enums T) (comment T)
                    console) as [[e | x |] c] eqn:E; try discriminate.
        intros H. injection H as <- _.
        destruct (DartTs_EnumDartConstruct_plain _ _ _ _ _ _ _ E) as (c0 & ->).
        reflexivity.
      * destruct (0 <? List.length (attributes T))%nat.
        -- unfold bindE, lift, ret, DartTs.ClassDartConstructForCompositeType.
           destruct (formatForDartClassName (name T)); cbn [bind]; try discriminate.
           intros H. injection H as <- _. reflexivity.
        -- intros H. injection H as <- _. reflexivity.
Qed.

Lemma DartTs_registerTypes_plain (JSON_parse : string -> outcome json)
    (types : list PostgresType) :
  forall w w',
    forEachE (DartTs.registerType JSON_parse) types w = (Ok tt, w') ->
    plainEntriesTs (DartTs.ptdMap w) -> plainEntriesTs (DartTs.ptdMap w').
Proof.
  induction types as [| T rest IH]; intros w w' H Hplain.
  - injection H as <-. exact Hplain.
  - cbn [forEachE] in H. unfold bindE in H.
    destruct (DartTs.registerType JSON_parse T w) as [[[] | e |] w1] eqn:E;
      try discriminate.
    apply (IH _ _ H). clear H IH. unfold DartTs.registerType in E.
    destruct (DartTs.buildDartTypeFromPostgresType JSON_parse T (DartTs.ptdMap w)
                (DartTs.console w)) as [[t | e |] console'] eqn:Em; try discriminate.
    injection E as <-. cbn [DartTs.ptdMap].
    pose proof (DartTs_mapper_plain _ _ _ _ _ _ Em) as Ht.
    apply Map_set_Forall; [apply Map_set_Forall |]; auto.
Qed.

(** After the [forInsert] block of a class, an entry that was no
    [NullDartType] is one exactly when a column of the class with the
    format of its key may be left out of an insert. *)
Lemma DartTs_markForInsert_nullable (columns : list PostgresColumn) :
  forall m m',
    forEachM DartTs.markForInsert columns m = Ok m' ->
    forall k pg t,
      Map_get String.eqb m' k = Some (pg, t) ->
      exists t0,
        Map_get String.eqb m k = Some (pg, t0)
        /\ (DartTs.isNullDartType t = true
            <-> DartTs.isNullDartType t0 = true
                \/ exists c, In c columns /\ format c = k /\ optionalOnInsert c = true).
Proof.
  induction columns as [| c rest IH]; intros m m' H k pg t Hk.
  - injection H as <-. exists t. split; [exact Hk |].
    split; [auto | intros [Hn | (c & [] & _)]; exact Hn].
  - cbn [forEachM] in H.
    destruct (DartTs.markForInsert c m) as [m1 | e |] eqn:E; cbn [bind] in H;
      try discriminate.
    destruct (DartTs_markForInsert_step _ _ _ E) as (Hother & pg0 & t0 & Hg & Hg1).
    destruct (IH _ _ H _ _ _ Hk) as (t1 & Hk1 & Hiff).
    destruct (String.eqb_spec k (format c)) as [-> | Hne].
    + rewrite Hg1 in Hk1. injection Hk1 as <- <-. exists t0. split; [exact Hg |].
      rewrite Hiff. clear Hiff. destruct (optionalOnInsert c) eqn:Hopt.
      * split; [| intros _; left; destruct t0; reflexivity].
        intros _. right. exists c. split; [left; reflexivity | auto].
      * split.
        -- intros [Hn | (d & Hd & Hf & Ho)]; [left; exact Hn |].
           right. exists d. split; [right; exact Hd | auto].
        -- intros [Hn | (d & [<- | Hd] & Hf & Ho)]; [left; exact Hn | congruence |].
           right. exists d. auto.
    + rewrite Hother in Hk1 by exact Hne. exists t1. split; [exact Hk1 |].
      rewrite Hiff. split.
      * intros [Hn | (d & Hd & Hf & Ho)]; [left; exact Hn |].
        right. exists d. split; [right; exact Hd | auto].
      * intros [Hn | (d & [<- | Hd] & Hf & Ho)]; [left; exact Hn | congruence |].
        right. exists d. auto.
Qed.

(** X21.  In [dart.ts], with the registry that the loop of [apply] over
    the required types has filled from an empty one, the entry of a key
    is a [NullDartType] after the [forInsert] block has run over the
    columns [rowColumns] exactly when one of these columns has the key
    as its format and is generated, an identity or defaulted: whether a
    column is nullable plays no part in it. *)
Theorem DartTs_nullable_entry_iff (JSON_parse : string -> outcome json)
    (allTypes : list PostgresType) (columns rowColumns : list PostgresColumn)
    (w w' : DartTs.World) (m' : DartTs.PostgresToDartMap)
    (k : string) (pg : PostgresType) (t : DartTs.DartType) :
  DartTs.ptdMap w = [] ->
  DartTs.registerRequiredTypes JSON_parse allTypes columns w = (Ok tt, w') ->
  forEachM DartTs.markForInsert rowColumns (DartTs.ptdMap w') = Ok m' ->
  Map_get String.eqb m' k = Some (pg, t) ->
  (DartTs.isNullDartType t = true
   <-> exists c, In c rowColumns /\ format c = k /\ optionalOnInsert c = true).
Proof.
  intros Hempty Hreg Hmark Hk.
  assert (Hplain : plainEntriesTs (DartTs.ptdMap w')).
  { unfold DartTs.registerRequiredTypes in Hreg.
    destruct (getRequiredTypes allTypes columns) as [lines [out | e |]]; try discriminate.
    apply (DartTs_registerTypes_plain _ _ _ _ Hreg). cbn [DartTs.ptdMap].
    rewrite Hempty. constructor. }
  destruct (DartTs_markForInsert_nullable _ _ _ Hmark _ _ _ Hk) as (t0 & Hk0 & Hiff).
  rewrite Hiff.
  pose proof (Map_get_Forall _ _ _ _ Hplain Hk0) as Ht0. cbn [snd] in Ht0.
  split; [intros [Hn | H]; [congruence | exact H] | auto].
Qed.

Lemma DartTs_nullable_entry_iff_witness :
  DartTs.isNullDartType (DartTs.NullObject (DartTs.BuiltinDartType kw_int)) = true
  <-> exists c, In c [ex_id_column; ex_qty_column] /\ format c = "int4"
                /\ optionalOnInsert c = true.
Proof.
  apply (DartTs_nullable_entry_iff (fun _ => Ok JNull) [ex_int4]
           [ex_id_column; ex_qty_column; ex_rank_column] [ex_id_column; ex_qty_column]
           emptyWorldTs
           (snd (DartTs.registerRequiredTypes (fun _ => Ok JNull) [ex_int4]
                   [ex_id_column; ex_qty_column; ex_rank_column] emptyWorldTs))
           [("23", (ex_int4, DartTs.BuiltinDartType kw_int));
            ("int4", (ex_int4, DartTs.NullObject (DartTs.BuiltinDartType kw_int)))]
           "int4" ex_int4); reflexivity.
Defined.

(** * What a class name keeps of a name *)

Lemma upperCase_app (a b : string) : upperCase (a ++ b) = upperCase a ++ upperCase b.
Proof.
  induction a as [| c a IH]; [reflexivity |]. cbn [append upperCase]. rewrite IH.
  reflexivity.
Qed.

Lemma alnumChars_split (s : string) :
  fold_right append EmptyString (splitNonAlnum s) = alnumChars s.
Proof.
  induction s as [| c rest IH]; [reflexivity |].
  cbn [splitNonAlnum alnumChars]. destruct (isAlnum c).
  - destruct (splitNonAlnum_cons rest) as (w & ws & E). rewrite E in *.
    cbn [fold_right append] in *. rewrite IH. reflexivity.
  - cbn [fold_right append]. exact IH.
Qed.

Lemma mapM_capitalizeWord_upper (words out : list string) :
  mapM capitalizeWord words = Ok out ->
  upperCase (join EmptyString out)
  = upperCase (fold_right append EmptyString words).
Proof.
  revert out. induction words as [| w ws IH]; intros out H.
  - injection H as <-. reflexivity.
  - destruct w as [| c r]; [discriminate |].
    cbn [mapM capitalizeWord bind] in H.
    destruct (mapM capitalizeWord ws) as [out' | e |] eqn:E; try discriminate.
    cbn [bind] in H. injection H as <-.
    assert (Hj : join EmptyString (String (toUpperCase c) r :: out')
                 = String (toUpperCase c) (r ++ join EmptyString out')).
    { destruct out' as [| o os]; cbn [join].
      - rewrite append_empty_r. reflexivity.
      - reflexivity. }
    rewrite Hj. cbn [fold_right append upperCase].
    rewrite !upperCase_app, (IH out' eq_refl), toUpperCase_twice. reflexivity.
Qed.

(** X22.  A class name that [formatForDartClassName] returns holds the
    letters and digits of the name, all of them and in their order, and
    differs from them at most in the case of letters: only the
    separators are lost. *)
Theorem formatForDartClassName_keeps_alnum (name s : string) :
  formatForDartClassName name = Ok s ->
  upperCase s = upperCase (alnumChars name).
Proof.
  unfold formatForDartClassName. intros H.
  destruct (mapM capitalizeWord (splitNonAlnum name)) as [out | e |] eqn:E;
    try discriminate.
  cbn [bind] in H. injection H as <-.
  rewrite (mapM_capitalizeWord_upper _ _ E), alnumChars_split. reflexivity.
Qed.

Lemma formatForDartClassName_keeps_alnum_witness :
  upperCase "UserProfile" = upperCase (alnumChars "user_profile").
Proof.
  exact (formatForDartClassName_keeps_alnum "user_profile" "UserProfile" eq_refl).
Defined.

(** * Rendering a type *)

Lemma formatForDartClassName_returns_iff (name : string) :
  (exists s, formatForDartClassName name = Ok s) <-> formattableName name = true.
Proof.
  split.
  - intros (s & H). destruct (formattableName name) eqn:Hf; [reflexivity |].
    apply splitNonAlnum_empty_piece in Hf. unfold formatForDartClassName in H.
    rewrite (mapM_capitalizeWord_throw _ Hf) in H. discriminate.
  - intros Hf.
    assert (Hall : Forall (fun w => w <> EmptyString) (splitNonAlnum name)).
    { apply Forall_forall. intros w Hw ->. apply splitNonAlnum_empty_piece in Hw.
      congruence. }
    destruct (mapM_capitalizeWord_ok _ Hall) as [out E].
    exists (join EmptyString out). unfold formatForDartClassName. rewrite E. reflexivity.
Qed.

Lemma Part000_generateType_returns (t : Part000.DartType) :
  (exists s, Part000.generateType t = Ok s)
  <-> Forall (fun n => formattableName n = true) (enumNames000 t).
Proof.
  induction t as [k | | | c IH | c IH | a IHa b IHb | n vs | pg n | n props];
    cbn [Part000.generateType enumNames000].
  1-3, 8-9: split; [constructor | eexists; reflexivity].
  - rewrite <- IH. split; intros (s & H).
    + destruct (Part000.generateType c); try discriminate. eexists. reflexivity.
    + rewrite H. eexists. reflexivity.
  - rewrite <- IH. split; intros (s & H).
    + destruct (Part000.generateType c); try discriminate. eexists. reflexivity.
    + rewrite H. eexists. reflexivity.
  - rewrite Forall_app, <- IHa, <- IHb. split.
    + intros (s & H). destruct (Part000.generateType a); try discriminate.
      destruct (Part000.generateType b); try discriminate.
      split; eexists; reflexivity.
    + intros ((sa & Ha) & (sb & Hb)). rewrite Ha, Hb. eexists. reflexivity.
  - rewrite formatForDartClassName_returns_iff. split.
    + intros H. repeat constructor. exact H.
    + intros H. inversion H. assumption.
Qed.

Lemma DartTs_generateType_returns (t : DartTs.DartType) :
  (exists s, DartTs.generateType t = Ok s)
  <-> Forall (fun n => formattableName n = true) (enumNamesTs t).
Proof.
  induction t as [k | | | c IH | c IH | a IHa b IHb | n vs cm | pg n];
    cbn [DartTs.generateType enumNamesTs].
  1-3, 8: split; [constructor | eexists; reflexivity].
  - rewrite <- IH. split; intros (s & H).
    + destruct (DartTs.generateType c); try discriminate. eexists. reflexivity.
    + rewrite H. eexists. reflexivity.
  - rewrite <- IH. split; intros (s & H).
    + destruct (DartTs.generateType c); try discriminate. eexists. reflexivity.
    + rewrite H. eexists. reflexivity.
  - rewrite Forall_app, <- IHa, <- IHb. split.
    + intros (s & H). destruct (DartTs.generateType a); try discriminate.
      destruct (DartTs.generateType b); try discriminate.
      split; eexists; reflexivity.
    + intros ((sa & Ha) & (sb & Hb)). rewrite Ha, Hb. eexists. reflexivity.
  - rewrite formatForDartClassName_returns_iff. split.
    + intros H. repeat constructor. exact H.
    + intros H. inversion H. assumption.
Qed.

Lemma Part000_rendering_together (t : Part000.DartType) :
  (exists e, Part000.generateJsonEncoding t = Ok e)
  /\ forall s, Part000.generateType t = Ok s ->
               forall p, exists d, Part000.generateJsonDecoding t p = Ok d.
Proof.
  induction t as [k | | | c IH | c IH | a IHa b IHb | n vs | pg n | n props];
    cbn [Part000.generateType Part000.generateJsonEncoding Part000.generateJsonDecoding].
  1-3, 6, 8-9: split; [eexists; reflexivity | intros; eexists; reflexivity].
  - destruct IH as ((e & He) & IH). rewrite He. split; [eexists; reflexivity |].
    intros s H p. destruct (Part000.generateType c) as [sc | |]; try discriminate.
    destruct (IH sc eq_refl "v") as (d & ->). eexists. reflexivity.
  - destruct IH as ((e & He) & IH). rewrite He. split; [eexists; reflexivity |].
    intros s H p. destruct (Part000.generateType c) as [sc | |]; try discriminate.
    destruct (IH sc eq_refl p) as (d & ->). eexists. reflexivity.
  - split; [eexists; reflexivity |]. intros s H p. rewrite H. eexists. reflexivity.
Qed.

Lemma DartTs_rendering_together (t : DartTs.DartType) :
  (exists e, DartTs.generateJsonEncoding t = Ok e)
  /\ forall s, DartTs.generateType t = Ok s ->
               forall p, exists d, DartTs.generateJsonDecoding t p = Ok d.
Proof.
  induction t as [k | | | c IH | c IH | a IHa b IHb | n vs cm | pg n];
    cbn [DartTs.generateType DartTs.generateJsonEncoding DartTs.generateJsonDecoding].
  1-3, 6, 8: split; [eexists; reflexivity | intros; eexists; reflexivity].
  - destruct IH as ((e & He) & IH). split; [eexists; exact He |].
    intros s H p. destruct (DartTs.generateType c) as [sc | |]; try discriminate.
    destruct (IH sc eq_refl p) as (d & ->). eexists. reflexivity.
  - destruct IH as ((e & He) & IH). split; [eexists; exact He |].
    intros s H p. destruct (DartTs.generateType c) as [sc | |]; try discriminate.
    destruct (IH sc eq_refl p) as (d & ->). eexists. reflexivity.
  - split; [eexists; reflexivity |]. intros s H p. rewrite H. eexists. reflexivity.
Qed.

(** X23.  In both revisions the three renderings of a type fail only
    through the class name of an enum: [generateType] returns exactly
    when the name of every enum inside the type can be formatted;
    [generateJsonEncoding] always returns; and
    [generateJsonDecoding] returns whenever [generateType] does. *)
Theorem rendering_fails_with_enum_name :
  (forall t : Part000.DartType,
      ((exists s, Part000.generateType t = Ok s)
       <-> Forall (fun n => formattableName n = true) (enumNames000 t))
      /\ (exists e, Part000.generateJsonEncoding t = Ok e)
      /\ (forall p, (exists s, Part000.generateType t = Ok s) ->
                    exists d, Part000.generateJsonDecoding t p = Ok d))
  /\ (forall t : DartTs.DartType,
        ((exists s, DartTs.generateType t = Ok s)
         <-> Forall (fun n => formattableName n = true) (enumNamesTs t))
        /\ (exists e, DartTs.generateJsonEncoding t = Ok e)
        /\ (forall p, (exists s, DartTs.generateType t = Ok s) ->
                      exists d, DartTs.generateJsonDecoding t p = Ok d)).
Proof.
  split; intros t.
  - split; [apply Part000_generateType_returns |].
    destruct (Part000_rendering_together t) as (He & Hd).
    split; [exact He |]. intros p (s & Hs). exact (Hd s Hs p).
  - split; [apply DartTs_generateType_returns |].
    destruct (DartTs_rendering_together t) as (He & Hd).
    split; [exact He |]. intros p (s & Hs). exact (Hd s Hs p).
Qed.
